(** * reddit-insight-analyzer: the analysis pipeline, embedded and verified

    A shallow embedding of [text_processor.py], [nlp_analyzer.py],
    [ollama_insights.py] and [report_generator.py].

    Conventions of the embedding.
    - A Python [str] is a list of Unicode code points ([pystr := list N]).
    - Python [int] is [Z]; a list index or a length is [nat].
    - A Python [float] that the code computes from integers is the
      rational number it stands for, and each operation rounds to the
      nearest binary64 number ([Py.round64]): the percentages of
      [calculate_sentiment_distribution_binary64] and of the theme
      explanations.  [calculate_sentiment_distribution] is the same
      function in exact decimal arithmetic, without the rounding of the
      floats.  The scores of the sentiment strategies are reals [R] (the
      lexicon score takes a square root, the others come from outside).
    - The three Unicode tables of the Python runtime that the code reads
      ([str.isalnum] behind [\w], [str.isdecimal] behind [\d], and
      [str.lower]) are a parameter ([Unicode.tables]); [Unicode.ascii] is
      their restriction to ASCII, used to run the code on ASCII inputs.
    - External collaborators (the generative model behind [_generate],
      [json.loads], VADER, TextBlob) are parameters as well. *)

From Stdlib Require Import String Ascii DecimalString.
From Stdlib Require Import List ZArith NArith Bool Lia.
From Stdlib Require Import QArith Qpower Qround Qabs Reals Psatz Permutation.
From Stdlib Require Import Sorted.
Import ListNotations.
Close Scope R_scope.
Close Scope Q_scope.

Set Implicit Arguments.
Set Warnings "-register-all".

(** ** Python strings *)

Module PyStr.

Definition pystr := list N.

(** An ASCII literal as a Python string. *)
Fixpoint u (s : string) : pystr :=
  match s with
  | EmptyString => []
  | String a s' => N_of_ascii a :: u s'
  end.

Definition eqb (a b : pystr) : bool :=
  if list_eq_dec N.eq_dec a b then true else false.

(** [Py_UNICODE_ISSPACE]: what [\s] matches and [str.strip()] removes. *)
Definition isspace (c : N) : bool :=
  ((9 <=? c) && (c <=? 13) || (28 <=? c) && (c <=? 32)
   || (c =? 133) || (c =? 160) || (c =? 5760)
   || (8192 <=? c) && (c <=? 8202)
   || (c =? 8232) || (c =? 8233) || (c =? 8239) || (c =? 8287)
   || (c =? 12288))%N.

Fixpoint startswith (p s : pystr) : bool :=
  match p, s with
  | [], _ => true
  | a :: p', b :: s' => (a =? b)%N && startswith p' s'
  | _ :: _, [] => false
  end.

(** [p in s]: [p] occurs in [s] as a substring. *)
Fixpoint contains (p s : pystr) : bool :=
  startswith p s ||
  match s with
  | [] => false
  | _ :: s' => contains p s'
  end.

Fixpoint lstrip (s : pystr) : pystr :=
  match s with
  | c :: s' => if isspace c then lstrip s' else s
  | [] => []
  end.

(** [s.strip()] *)
Definition strip (s : pystr) : pystr :=
  rev (lstrip (rev (lstrip s))).

(** [sep.join(l)] *)
Fixpoint join (sep : pystr) (l : list pystr) : pystr :=
  match l with
  | [] => []
  | [x] => x
  | x :: l' => x ++ sep ++ join sep l'
  end.

(** [s[:n]] for a literal [n >= 0]. *)
Definition prefix (n : nat) (s : pystr) : pystr := firstn n s.

(** [l[:n]] for an [int] [n]: a negative [n] counts from the end. *)
Definition slice_to {A} (n : Z) (l : list A) : list A :=
  if (0 <=? n)%Z then firstn (Z.to_nat n) l
  else firstn (length l - Z.to_nat (- n)) l.

End PyStr.
Import PyStr.

(** ** The Unicode tables of the runtime *)

Module Unicode.

Record tables := {
  isalnum : N -> bool;      (* [str.isalnum] on one code point *)
  isdecimal : N -> bool;    (* [str.isdecimal]: category Nd *)
  lower : pystr -> pystr    (* [str.lower] *)
}.

(** [\w]: alphanumeric or underscore. *)
Definition isword (T : tables) (c : N) : bool :=
  isalnum T c || (c =? 95)%N.

Definition ascii_isalnum (c : N) : bool :=
  ((48 <=? c) && (c <=? 57) || (65 <=? c) && (c <=? 90)
   || (97 <=? c) && (c <=? 122))%N.

Definition ascii_lower1 (c : N) : N :=
  if ((65 <=? c) && (c <=? 90))%N then (c + 32)%N else c.

(** The tables restricted to ASCII: exact on every text whose letters and
    digits are all ASCII. *)
Definition ascii : tables := {|
  isalnum := ascii_isalnum;
  isdecimal := fun c => ((48 <=? c) && (c <=? 57))%N;
  lower := map ascii_lower1
|}.

End Unicode.

(** ** Regular expressions, with the backtracking semantics of [re] *)

Module Re.

Inductive regex :=
| Eps
| Chr (p : N -> bool)          (* one code point satisfying [p] *)
| Seq (r1 r2 : regex)
| Alt (r1 r2 : regex)          (* [r1|r2], [r1] tried first *)
| Star (r : regex)             (* greedy [r*] *)
| WordB (w : N -> bool)        (* [\b], for the word class [w] *)
| Bol.                         (* [^] under [re.MULTILINE] *)

Definition Plus (r : regex) : regex := Seq r (Star r).
Definition Opt (r : regex) : regex := Alt r Eps.
Definition Any : regex := Chr (fun _ => true).           (* [[\s\S]] *)
Definition Dot : regex := Chr (fun c => negb (c =? 10)%N). (* [.] *)
Definition Space : regex := Chr isspace.                  (* [\s] *)
Definition NonSpace : regex := Chr (fun c => negb (isspace c)). (* [\S] *)

Definition exactly (c : N) : N -> bool := N.eqb c.

(** A literal character under [re.IGNORECASE] (Unicode matching): the
    character itself, its other ASCII case, and the non-ASCII code points
    that lower-case to it (dotted capital I and dotless i for [i], long s
    for [s], the Kelvin sign for [k]). *)
Definition ci (c x : N) : bool :=
  let lo := Unicode.ascii_lower1 c in
  ((x =? lo) || ((97 <=? lo) && (lo <=? 122) && (x =? lo - 32))
   || ((lo =? 105) && ((x =? 304) || (x =? 305)))
   || ((lo =? 115) && (x =? 383))
   || ((lo =? 107) && (x =? 8490)))%N.

(** [[a-z]] under [re.IGNORECASE]: the 52 ASCII letters and four more. *)
Definition az_ci (x : N) : bool :=
  ((97 <=? x) && (x <=? 122) || (65 <=? x) && (x <=? 90)
   || (x =? 304) || (x =? 305) || (x =? 383) || (x =? 8490))%N.

Fixpoint lit_with (f : N -> N -> bool) (s : pystr) : regex :=
  match s with
  | [] => Eps
  | [c] => Chr (f c)
  | c :: s' => Seq (Chr (f c)) (lit_with f s')
  end.

(** A literal string, case-sensitive and case-insensitive. *)
Definition lit (s : string) : regex := lit_with exactly (u s).
Definition lit_ci (s : string) : regex := lit_with ci (u s).

Definition in_class (w : N -> bool) (c : option N) : bool :=
  match c with Some x => w x | None => false end.

(** [m r prev s k]: match [r] at the front of [s], the character before
    being [prev]; each way of matching is offered to the continuation [k]
    in the order a backtracking matcher explores them, and the first one
    that [k] accepts wins. *)
Fixpoint m {A} (r : regex) (prev : option N) (s : pystr)
    (k : option N -> pystr -> option A) : option A :=
  match r with
  | Eps => k prev s
  | Chr p =>
      match s with
      | c :: s' => if p c then k (Some c) s' else None
      | [] => None
      end
  | Seq r1 r2 => m r1 prev s (fun prev' s' => m r2 prev' s' k)
  | Alt r1 r2 =>
      match m r1 prev s k with
      | Some x => Some x
      | None => m r2 prev s k
      end
  | Star r1 =>
      (fix loop (n : nat) (prev : option N) (s : pystr) : option A :=
         match n with
         | O => k prev s
         | S n' =>
             match m r1 prev s (fun prev' s' =>
                      if (length s' <? length s)%nat
                      then loop n' prev' s' else None) with
             | Some x => Some x
             | None => k prev s
             end
         end) (length s) prev s
  | WordB w =>
      if xorb (in_class w prev) (in_class w (hd_error s))
      then k prev s else None
  | Bol =>
      match prev with
      | None => k prev s
      | Some c => if (c =? 10)%N then k prev s else None
      end
  end.

(** What is left of [s] after the match of [r] at its front. *)
Definition match_at (r : regex) (prev : option N) (s : pystr)
  : option pystr :=
  m r prev s (fun _ rest => Some rest).

(** [pattern.sub(repl, s)], scanning from a position whose previous
    character is [prev]; [skip] counts the characters of a match that
    are still to be dropped.  An empty match puts [repl] in front of the
    next character (no pattern of this program matches the empty
    string). *)
Fixpoint sub_from (r : regex) (repl : pystr) (prev : option N)
    (s : pystr) (skip : nat) : pystr :=
  match skip with
  | S n =>
      match s with
      | c :: s' => sub_from r repl (Some c) s' n
      | [] => []
      end
  | O =>
      match match_at r prev s with
      | Some rest =>
          match s with
          | c :: s' =>
              match (length s - length rest)%nat with
              | O => repl ++ c :: sub_from r repl (Some c) s' 0
              | S n => repl ++ sub_from r repl (Some c) s' n
              end
          | [] => repl
          end
      | None =>
          match s with
          | c :: s' => c :: sub_from r repl (Some c) s' 0
          | [] => []
          end
      end
  end.

Definition sub (r : regex) (repl : pystr) (s : pystr) : pystr :=
  sub_from r repl None s 0.

(** [re.search(r, s).group()]: the text of the leftmost match. *)
Fixpoint search_from (r : regex) (prev : option N) (s : pystr)
  : option pystr :=
  match match_at r prev s with
  | Some rest => Some (firstn (length s - length rest) s)
  | None =>
      match s with
      | c :: s' => search_from r (Some c) s'
      | [] => None
      end
  end.

Definition search (r : regex) (s : pystr) : option pystr :=
  search_from r None s.

(** [re.findall(r, s)] for a pattern without groups. *)
Fixpoint findall_from (r : regex) (prev : option N) (s : pystr)
    (skip : nat) : list pystr :=
  match skip with
  | S n =>
      match s with
      | c :: s' => findall_from r (Some c) s' n
      | [] => []
      end
  | O =>
      match match_at r prev s with
      | Some rest =>
          let len := (length s - length rest)%nat in
          firstn len s ::
          match s with
          | c :: s' => findall_from r (Some c) s' (len - 1)
          | [] => []
          end
      | None =>
          match s with
          | c :: s' => findall_from r (Some c) s' 0
          | [] => []
          end
      end
  end.

Definition findall (r : regex) (s : pystr) : list pystr :=
  findall_from r None s 0.

End Re.

(** ** text_processor.py *)

Module TextProcessor.
Import Re.

(** [RedditComment] and [RedditPost] of reddit_fetcher.py *)
Record RedditComment := {
  c_id : pystr;
  c_body : pystr;
  c_score : Z;
  c_author : pystr
}.

Record RedditPost := {
  r_id : pystr;
  r_title : pystr;
  r_selftext : pystr;
  r_score : Z;
  r_num_comments : Z;
  r_created_utc : Q;
  r_comments : list RedditComment
}.

Record ProcessedPost := {
  id : pystr;
  original_title : pystr;
  original_body : pystr;
  cleaned_title : pystr;
  cleaned_body : pystr;
  cleaned_comments : pystr;
  combined_text : pystr;
  score : Z;
  num_comments : Z;
  created_utc : Q;
  has_content : bool;
  comment_count : nat
}.

Definition in_range (lo hi c : N) : bool := ((lo <=? c) && (c <=? hi))%N.

(** The code-point ranges of [EMOJI_PATTERN]. *)
Definition is_emoji (c : N) : bool :=
  in_range 0x1F600 0x1F64F c      (* emoticons *)
  || in_range 0x1F300 0x1F5FF c   (* symbols & pictographs *)
  || in_range 0x1F680 0x1F6FF c   (* transport & map symbols *)
  || in_range 0x1F1E0 0x1F1FF c   (* flags *)
  || in_range 0x2600 0x26FF c     (* misc symbols *)
  || in_range 0x2700 0x27BF c.    (* dingbats *)

(** The characters of [MARKDOWN_PATTERN]. *)
Definition is_markdown (c : N) : bool :=
  existsb (N.eqb c) (u "*_~`#[]()>|").

Definition MAX_BODY_LENGTH : nat := 1000.
Definition MAX_COMMENTS_LENGTH : nat := 2000.

Section WithTables.
Variable T : Unicode.tables.

Let Digit : regex := Chr (Unicode.isdecimal T).
Let B : regex := WordB (Unicode.isword T).

(** [https?://\S+|www\.\S+] *)
Definition URL_PATTERN : regex :=
  Alt (Seq (lit "http") (Seq (Opt (lit "s")) (Seq (lit "://") (Plus NonSpace))))
      (Seq (lit "www.") (Plus NonSpace)).

Definition MARKDOWN_PATTERN : regex := Chr is_markdown.

(** [&[a-z]+;|&#\d+;], ignoring case *)
Definition HTML_ENTITIES : regex :=
  Alt (Seq (lit "&") (Seq (Plus (Chr az_ci)) (lit ";")))
      (Seq (lit "&#") (Seq (Plus Digit) (lit ";"))).

Definition EMOJI_PATTERN : regex := Plus (Chr is_emoji).

Definition REDDIT_NOISE : list regex := [
  (* [\bedit\s*\d*\s*:] *)
  Seq B (Seq (lit_ci "edit")
    (Seq (Star Space) (Seq (Star Digit) (Seq (Star Space) (lit ":")))));
  (* [\btl;?dr:?] *)
  Seq B (Seq (lit_ci "tl") (Seq (Opt (lit ";"))
    (Seq (lit_ci "dr") (Opt (lit ":")))));
  (* [thanks for (reading|coming to my ted talk)] *)
  Seq (lit_ci "thanks for ")
      (Alt (lit_ci "reading") (lit_ci "coming to my ted talk"));
  (* [obligatory .* disclaimer] *)
  Seq (lit_ci "obligatory ") (Seq (Star Dot) (lit_ci " disclaimer"));
  (* [^(source|sauce):?\s*], multi-line *)
  Seq Bol (Seq (Alt (lit_ci "source") (lit_ci "sauce"))
    (Seq (Opt (lit ":")) (Star Space)));
  (* [\[removed\]|\[deleted\]] *)
  Alt (lit_ci "[removed]") (lit_ci "[deleted]")
].

Definition clean_text (text : pystr) : pystr :=
  match text with
  | [] => []
  | _ =>
      let cleaned := text in
      (* Remove URLs *)
      let cleaned := sub URL_PATTERN [] cleaned in
      (* Remove markdown *)
      let cleaned := sub MARKDOWN_PATTERN (u " ") cleaned in
      (* Replace HTML entities with spaces *)
      let cleaned := sub HTML_ENTITIES (u " ") cleaned in
      (* Remove emojis *)
      let cleaned := sub EMOJI_PATTERN [] cleaned in
      (* Remove Reddit noise *)
      let cleaned :=
        fold_left (fun cleaned pattern => sub pattern [] cleaned)
                  REDDIT_NOISE cleaned in
      (* Normalize whitespace *)
      strip (sub (Plus Space) (u " ") cleaned)
  end.

(** One turn of the comment loop of [process_post]: the state is
    [(comment_texts, total_len, comment_count)]. *)
Definition comment_step (st : list pystr * nat * nat) (comment : RedditComment)
  : list pystr * nat * nat :=
  let '(comment_texts, total_len, comment_count) := st in
  let cleaned := clean_text (c_body comment) in
  match cleaned with
  | [] => st
  | _ =>
      if (total_len + length cleaned <? MAX_COMMENTS_LENGTH)%nat
      then (comment_texts ++ [cleaned],
            (total_len + length cleaned)%nat, S comment_count)
      else st
  end.

Definition process_post (post : RedditPost) : ProcessedPost :=
  let cleaned_title := clean_text (r_title post) in
  let cleaned_body := clean_text (r_selftext post) in
  (* Truncate very long bodies *)
  let cleaned_body :=
    if (MAX_BODY_LENGTH <? length cleaned_body)%nat
    then prefix MAX_BODY_LENGTH cleaned_body ++ u "..."
    else cleaned_body in
  (* Process comments if available *)
  let '(cleaned_comments, comment_count) :=
    match r_comments post with
    | [] => ([], O)
    | comments =>
        let '(comment_texts, _, comment_count) :=
          fold_left comment_step comments ([], O, O) in
        (join (u " | ") comment_texts, comment_count)
    end in
  let combined_text :=
    strip (cleaned_title ++ u " " ++ cleaned_title ++ u " "
           ++ cleaned_body ++ u " " ++ cleaned_comments) in
  let has_content := (5 <? length cleaned_title)%nat in
  {| id := r_id post;
     original_title := r_title post;
     original_body := r_selftext post;
     cleaned_title := cleaned_title;
     cleaned_body := cleaned_body;
     cleaned_comments := cleaned_comments;
     combined_text := combined_text;
     score := r_score post;
     num_comments := r_num_comments post;
     created_utc := r_created_utc post;
     has_content := has_content;
     comment_count := comment_count |}.

Definition process_posts (posts : list RedditPost) : list ProcessedPost :=
  filter has_content (map process_post posts).

End WithTables.

(** The loop of [aggregate_text]: the state is
    [(texts, total_chars, posts_included)]; the loop stops ([break]) at
    the first post that does not fit. *)
Fixpoint aggregate_loop (max_chars : Z) (processed_posts : list ProcessedPost)
    (st : list pystr * nat * nat) : list pystr * nat * nat :=
  match processed_posts with
  | [] => st
  | post :: rest =>
      let '(texts, total_chars, posts_included) := st in
      let post_text := u "POST: " ++ combined_text post in
      if (max_chars <? Z.of_nat (total_chars + length post_text))%Z
      then st
      else aggregate_loop max_chars rest
             (texts ++ [post_text], (total_chars + length post_text)%nat,
              S posts_included)
  end.

Definition aggregate_text (processed_posts : list ProcessedPost)
    (max_chars : Z) : pystr * nat :=
  let '(texts, _, posts_included) :=
    aggregate_loop max_chars processed_posts ([], O, O) in
  (join [10%N; 10%N] texts, posts_included).

End TextProcessor.

(** ** Python built-ins used by the analyzer *)

Module Py.

(** [sorted(l, key=key, reverse=True)]: descending by key, and stable
    (elements with equal keys keep their original order). *)
Fixpoint insert_desc {A} (key : A -> Z) (x : A) (l : list A) : list A :=
  match l with
  | [] => [x]
  | y :: l' =>
      if (key y <=? key x)%Z then x :: l
      else y :: insert_desc key x l'
  end.

Definition sorted_desc {A} (key : A -> Z) (l : list A) : list A :=
  fold_right (insert_desc key) [] l.

(** [max(l, key=key)]: the first element with the largest key. *)
Fixpoint max_by {A} (key : A -> Z) (l : list A) : option A :=
  match l with
  | [] => None
  | x :: l' =>
      match max_by key l' with
      | Some y => if (key x <? key y)%Z then Some y else Some x
      | None => Some x
      end
  end.

(** The nearest integer, ties to the even one: how [round] and the
    [.0f] format round. *)
Definition round_half_even (y : Q) : Z :=
  let f := Qfloor y in
  match (y - inject_Z f ?= 1 # 2)%Q with
  | Lt => f
  | Gt => (f + 1)%Z
  | Eq => if Z.even f then f else (f + 1)%Z
  end.

(** [round(x, 1)] in exact arithmetic: the nearest tenth. *)
Definition round1 (x : Q) : Q :=
  (inject_Z (round_half_even (x * 10)) / 10)%Q.

(** *** Floats

    A finite [float] is the rational number it stands for. *)

(** [2 ** e] *)
Definition pow2 (e : Z) : Q := (2 ^ e)%Q.

(** The binary exponent of a number that is not zero: the [e] with
    [2 ** e <= |q| < 2 ** (e + 1)]. *)
Definition ilog2 (q : Q) : Z :=
  let e := (Z.log2 (Z.abs (Qnum q)) - Z.log2 (Z.pos (Qden q)))%Z in
  if Qle_bool (pow2 e) (Qabs q) then e else (e - 1)%Z.

(** The binary64 number nearest to [q], ties to the even significand:
    53 significant bits, and the fixed spacing [2 ** -1074] of the
    subnormal numbers below [2 ** -1022].  For [q] below the overflow
    threshold [2 ** 1024 - 2 ** 970]. *)
Definition round64 (q : Q) : Q :=
  if Qeq_bool q 0 then 0%Q
  else
    let e := Z.max (ilog2 q - 52) (-1074) in
    (inject_Z (round_half_even (q / pow2 e)) * pow2 e)%Q.

(** [a / b] for two [int]s, [b] not zero: the quotient, rounded once. *)
Definition truediv (a b : Z) : Q := round64 (inject_Z a / inject_Z b).

(** [x * y] for two floats. *)
Definition float_mul (x y : Q) : Q := round64 (x * y).

(** [round(x, 1)] for a float: the decimal with one digit nearest to
    [x] (ties to the even digit), and then the float nearest to it. *)
Definition float_round1 (x : Q) : Q :=
  round64 (inject_Z (round_half_even (x * 10)) / 10).

(** [int(x)] for a float: towards zero. *)
Definition int_of_float (x : Q) : Z := Z.quot (Qnum x) (Z.pos (Qden x)).

(** What a call does: it returns a value or raises. *)
Inductive exn := OverflowError.

Inductive result (A : Type) :=
| Returns (a : A)
| Raises (e : exn).
Arguments Returns {A} a.
Arguments Raises {A} e.

(** [float(n)] for an [int], as the format [.1f] converts an [int]:
    ["int too large to convert to float"] from the first integer that
    rounds to [2 ** 1024]. *)
Definition float_of_int (n : Z) : result Q :=
  if (Z.abs n <? 2 ^ 1024 - 2 ^ 970)%Z
  then Returns (round64 (inject_Z n))
  else Raises OverflowError.

Definition Qltb (x y : Q) : bool := negb (Qle_bool y x).

(** [str(n)] for a natural number. *)
Definition str_nat (n : nat) : pystr :=
  u (DecimalString.NilEmpty.string_of_uint (Nat.to_uint n)).

(** [str(n)] for an [int]. *)
Definition str_int (n : Z) : pystr :=
  (if (n <? 0)%Z then u "-" else []) ++ str_nat (Z.abs_nat n).

End Py.

(** ** nlp_analyzer.py *)

Module NLPAnalyzer.
Import Re Py.

Inductive Label := positive | neutral | negative.

Definition Label_eqb (a b : Label) : bool :=
  match a, b with
  | positive, positive | neutral, neutral | negative, negative => true
  | _, _ => false
  end.

Record SentimentResult := {
  label : Label;
  sent_score : R;      (* [score]: the confidence *)
  raw_score : R
}.

Record AnalyzedPost := {
  post_id : pystr;
  title : pystr;
  body : pystr;
  post_comments : pystr;     (* [cleaned_comments] *)
  post_score : Z;            (* [score] *)
  post_num_comments : Z;     (* [num_comments] *)
  sentiment : SentimentResult;
  impact_score : Z
}.

Record Distribution := {
  pct_positive : Q;
  pct_neutral : Q;
  pct_negative : Q
}.

Definition THEME_KEYWORDS : list (pystr * list pystr) := [
  (u "Battery & Power", map u [
     "battery"; "charge"; "charging"; "drain"; "power"; "sot";
     "fast charging"; "wireless charging"; "dead"; "percentage"]);
  (u "Camera & Photography", map u [
     "camera"; "photo"; "picture"; "lens"; "zoom"; "portrait";
     "night sight"; "video"; "recording"; "selfie"; "megapixel"]);
  (u "Software & Updates", map u [
     "update"; "android"; "software"; "bug"; "patch"; "fix";
     "feature"; "app"; "version"; "beta"; "stable"]);
  (u "Hardware Quality", map u [
     "screen"; "display"; "build"; "quality"; "glass"; "speaker";
     "fingerprint"; "crack"; "scratch"; "durable"; "design"]);
  (u "Performance", map u [
     "performance"; "fast"; "slow"; "lag"; "smooth"; "heat";
     "overheating"; "hot"; "throttle"; "ram"; "memory"; "speed"]);
  (u "Customer Support", map u [
     "support"; "warranty"; "rma"; "repair"; "replacement";
     "refund"; "return"; "google"; "response"; "shipping"]);
  (u "Connectivity", map u [
     "wifi"; "bluetooth"; "signal"; "network"; "5g"; "lte";
     "connection"; "drop"; "esim"; "carrier"; "cellular"])
]%string.

Definition SENTIMENT_LEXICON : list (pystr * Z) :=
  map (fun p => (u (fst p), snd p)) [
    (* Very positive *)
    ("amazing", 5); ("excellent", 5); ("perfect", 5); ("love", 4);
    ("great", 4); ("awesome", 4); ("fantastic", 5); ("wonderful", 4);
    ("best", 4); ("impressed", 4);
    (* Positive *)
    ("good", 3); ("nice", 3); ("happy", 3); ("helpful", 3); ("smooth", 3);
    ("fast", 3); ("reliable", 3); ("solid", 3); ("better", 3);
    ("improved", 3);
    (* Slightly positive *)
    ("okay", 1); ("fine", 1); ("decent", 2); ("works", 2); ("useful", 2);
    (* Slightly negative *)
    ("issue", -1); ("concern", -1); ("confusing", -1); ("mediocre", -1);
    (* Negative *)
    ("bad", -2); ("poor", -2); ("problem", -2); ("annoying", -2);
    ("disappointed", -3); ("frustrating", -2); ("slow", -2); ("laggy", -2);
    ("buggy", -2); ("broken", -2); ("crash", -2); ("error", -2);
    ("fail", -2); ("failed", -2); ("freezing", -2);
    (* Very negative *)
    ("terrible", -4); ("awful", -4); ("horrible", -4); ("worst", -4);
    ("hate", -3); ("useless", -3); ("defective", -3); ("garbage", -3);
    ("waste", -3); ("scam", -4)
  ]%string%Z.

(** [d.get(k)] on a dictionary kept as an association list. *)
Fixpoint lookup {V} (k : pystr) (d : list (pystr * V)) : option V :=
  match d with
  | [] => None
  | (k', v) :: d' => if PyStr.eqb k k' then Some v else lookup k d'
  end.

(** The analyzer after [__init__]: the scoring strategy, and the two
    external scorers when loaded ([polarity_scores(text)['compound']] of
    VADER; [TextBlob(text).sentiment.polarity], [None] when it raises). *)
Record analyzer := {
  use_ml_models : bool;
  vader_analyzer : option (pystr -> R);
  textblob_ready : bool;
  textblob_polarity : pystr -> option R
}.

(** [NLPAnalyzer(use_ml_models=False)] *)
Definition lexicon_analyzer : analyzer := {|
  use_ml_models := false;
  vader_analyzer := None;
  textblob_ready := false;
  textblob_polarity := fun _ => None
|}.

Section WithTables.
Variable T : Unicode.tables.

(** [\b\w+\b] *)
Definition WORD : regex :=
  let w := Unicode.isword T in
  Seq (WordB w) (Seq (Plus (Chr w)) (WordB w)).

(** The loop of [analyze_sentiment_lexicon]: [(score, word_count)]. *)
Definition lexicon_step (st : Z * nat) (word : pystr) : Z * nat :=
  match lookup word SENTIMENT_LEXICON with
  | Some w => (fst st + w, S (snd st))%Z
  | None => st
  end.

Definition lexicon_totals (text : pystr) : Z * nat :=
  let words := findall WORD (Unicode.lower T text) in
  fold_left lexicon_step words (0%Z, O).

(** The thresholds of the lexicon strategy. *)
Definition lexicon_label (normalized : R) : Label :=
  if Rlt_dec (1/2) normalized then positive
  else if Rlt_dec normalized (-(1/2)) then negative
  else neutral.

(** The thresholds on a compound score. *)
Definition compound_label (compound : R) : Label :=
  if Rle_dec (5/100) compound then positive
  else if Rle_dec compound (-(5/100)) then negative
  else neutral.

Definition analyze_sentiment_lexicon (text : pystr) : SentimentResult :=
  let '(score, word_count) := lexicon_totals text in
  (* Normalize score *)
  let normalized :=
    match word_count with
    | O => 0%R
    | _ => (IZR score / sqrt (INR word_count))%R
    end in
  {| label := lexicon_label normalized;
     sent_score := (Rabs normalized / 5)%R;
     raw_score := normalized |}.

Definition analyze_sentiment_ml (a : analyzer) (text : pystr)
  : SentimentResult :=
  match vader_analyzer a with
  | None => analyze_sentiment_lexicon text
  | Some polarity_scores =>
      let compound := polarity_scores text in
      let lbl := compound_label compound in
      let '(lbl, compound) :=
        if textblob_ready a then
          match textblob_polarity a text with
          | Some tb_polarity =>
              (* Weighted average: VADER (60%) + TextBlob (40%) *)
              let combined :=
                (compound * (6/10) + tb_polarity * (4/10))%R in
              (compound_label combined, combined)
          | None => (lbl, compound)
          end
        else (lbl, compound) in
      {| label := lbl;
         sent_score := Rabs compound;
         raw_score := compound |}
  end.

Definition analyze_sentiment (a : analyzer) (text : pystr)
  : SentimentResult :=
  match use_ml_models a, vader_analyzer a with
  | true, Some _ => analyze_sentiment_ml a text
  | _, _ => analyze_sentiment_lexicon text
  end.

Definition analyze_post (a : analyzer) (post : TextProcessor.ProcessedPost)
  : AnalyzedPost :=
  let sentiment := analyze_sentiment a (TextProcessor.combined_text post) in
  (* Higher for negative posts (they need attention) *)
  let negative_weight :=
    if Label_eqb (label sentiment) negative then 10%Z else 0%Z in
  let impact_score :=
    (TextProcessor.score post + TextProcessor.num_comments post
     + negative_weight)%Z in
  {| post_id := TextProcessor.id post;
     title := TextProcessor.cleaned_title post;
     body := TextProcessor.cleaned_body post;
     post_comments := TextProcessor.cleaned_comments post;
     post_score := TextProcessor.score post;
     post_num_comments := TextProcessor.num_comments post;
     sentiment := sentiment;
     impact_score := impact_score |}.

Definition analyze_posts (a : analyzer)
    (processed_posts : list TextProcessor.ProcessedPost)
  : list AnalyzedPost :=
  map (analyze_post a) processed_posts.

(** [Counter(p.sentiment.label for p in posts).get(l, 0)] *)
Definition count_label (l : Label) (posts : list AnalyzedPost) : nat :=
  length (filter (fun p => Label_eqb (label (sentiment p)) l) posts).

(** [calculate_sentiment_distribution] in exact arithmetic: each
    percentage is the share of its label, rounded to the nearest
    tenth. *)
Definition calculate_sentiment_distribution (analyzed_posts : list AnalyzedPost)
  : Distribution :=
  match analyzed_posts with
  | [] => {| pct_positive := 0; pct_neutral := 0; pct_negative := 0 |}
  | _ =>
      let total := inject_Z (Z.of_nat (length analyzed_posts)) in
      let pct l :=
        round1 (inject_Z (Z.of_nat (count_label l analyzed_posts))
                / total * 100)%Q in
      {| pct_positive := pct positive;
         pct_neutral := pct neutral;
         pct_negative := pct negative |}
  end.

(** [calculate_sentiment_distribution] as the interpreter computes it:
    the quotient of the two [int]s, its product with 100 and the
    rounding to one decimal are floats. *)
Definition calculate_sentiment_distribution_binary64
    (analyzed_posts : list AnalyzedPost) : Distribution :=
  match analyzed_posts with
  | [] => {| pct_positive := 0; pct_neutral := 0; pct_negative := 0 |}
  | _ =>
      let total := Z.of_nat (length analyzed_posts) in
      let pct l :=
        float_round1
          (float_mul (truediv (Z.of_nat (count_label l analyzed_posts)) total)
                     100) in
      {| pct_positive := pct positive;
         pct_neutral := pct neutral;
         pct_negative := pct negative |}
  end.

(** What [extract_themes] keeps for one theme while it reads the posts:
    [theme_counts[theme]], [theme_sentiment[theme]] and
    [theme_examples[theme]]. *)
Record ThemeAcc := {
  acc_count : nat;
  acc_positive : nat;
  acc_neutral : nat;
  acc_negative : nat;
  acc_examples : list pystr
}.

Definition acc_init : ThemeAcc :=
  {| acc_count := 0; acc_positive := 0; acc_neutral := 0;
     acc_negative := 0; acc_examples := [] |}.

(** [theme_sentiment[theme][label] += 1] *)
Definition tally (l : Label) (a : ThemeAcc) : ThemeAcc :=
  {| acc_count := acc_count a;
     acc_positive := (if Label_eqb l positive then 1 else 0) + acc_positive a;
     acc_neutral := (if Label_eqb l neutral then 1 else 0) + acc_neutral a;
     acc_negative := (if Label_eqb l negative then 1 else 0) + acc_negative a;
     acc_examples := acc_examples a |}.

(** [sum(1 for kw in keywords if kw in text)] *)
Definition keyword_matches (keywords : list pystr) (text : pystr) : nat :=
  length (filter (fun kw => contains kw text) keywords).

(** The body of the inner loop, for one post and one theme. *)
Definition theme_step (post : AnalyzedPost) (text : pystr)
    (entry : pystr * list pystr * ThemeAcc) : pystr * list pystr * ThemeAcc :=
  let '(theme, keywords, a) := entry in
  let matches := keyword_matches keywords text in
  if (0 <? matches)%nat then
    let a := tally (label (sentiment post)) a in
    (theme, keywords,
     {| acc_count := acc_count a + matches;
        acc_positive := acc_positive a;
        acc_neutral := acc_neutral a;
        acc_negative := acc_negative a;
        acc_examples :=
          if (length (acc_examples a) <? 2)%nat
          then acc_examples a ++ [prefix 70 (title post)]
          else acc_examples a |})
  else entry.

(** The text a post is matched on: title and body, lower-cased. *)
Definition theme_text (post : AnalyzedPost) : pystr :=
  Unicode.lower T (title post ++ u " " ++ body post).

(** The body of the outer loop, for one post. *)
Definition post_step (st : list (pystr * list pystr * ThemeAcc))
    (post : AnalyzedPost) : list (pystr * list pystr * ThemeAcc) :=
  map (theme_step post (theme_text post)) st.

Definition theme_totals (analyzed_posts : list AnalyzedPost)
  : list (pystr * list pystr * ThemeAcc) :=
  fold_left post_step analyzed_posts
    (map (fun tk => (fst tk, snd tk, acc_init)) THEME_KEYWORDS).

Inductive Mood := mood_negative | mood_positive | mood_mixed | mood_neutral.

Record Theme := {
  name : pystr;
  count : nat;
  mood : Mood;
  explanation : pystr;
  examples : list pystr
}.

(** [int(pct * 100)], where [pct] is the quotient of two [int]s: the
    quotient and the product are floats. *)
Definition percent (pct : Q) : nat :=
  Z.to_nat (int_of_float (float_mul (round64 pct) 100)).

(** The entry of [results] for a theme that was mentioned. *)
Definition theme_result (entry : pystr * list pystr * ThemeAcc) : Theme :=
  let '(theme, _, a) := entry in
  let count := acc_count a in
  let total := (acc_positive a + acc_neutral a + acc_negative a)%nat in
  let '(mood, explanation) :=
    (* Determine predominant sentiment *)
    if (0 <? total)%nat then
      let neg_pct :=
        (inject_Z (Z.of_nat (acc_negative a)) / inject_Z (Z.of_nat total))%Q in
      let pos_pct :=
        (inject_Z (Z.of_nat (acc_positive a)) / inject_Z (Z.of_nat total))%Q in
      if Qltb (1 # 2) neg_pct then
        (mood_negative,
         u "Predominantly negative (" ++ str_nat (percent neg_pct)
           ++ u "%). Users expressing frustration.")
      else if Qltb (1 # 2) pos_pct then
        (mood_positive,
         u "Mostly positive (" ++ str_nat (percent pos_pct)
           ++ u "%). Users are satisfied.")
      else
        (mood_mixed,
         u "Mixed feedback with " ++ str_nat count ++ u " mentions.")
    else
      (mood_neutral, str_nat count ++ u " mentions in discussions.") in
  {| name := theme;
     count := count;
     mood := mood;
     explanation := explanation;
     examples := acc_examples a |}.

Definition extract_themes (analyzed_posts : list AnalyzedPost) : list Theme :=
  let totals := theme_totals analyzed_posts in
  (* Build results *)
  let results :=
    map theme_result
        (filter (fun e => (0 <? acc_count (snd e))%nat) totals) in
  (* Sort by count descending *)
  let results := sorted_desc (fun x => Z.of_nat (count x)) results in
  firstn 6 results.

End WithTables.

Record Issue := {
  issue_title : pystr;
  issue_impact_score : Z;
  issue_score : Z;
  issue_comments : Z;
  issue_sentiment : Label
}.

Definition issue_of (p : AnalyzedPost) : Issue :=
  {| issue_title := prefix 100 (title p);
     issue_impact_score := impact_score p;
     issue_score := post_score p;
     issue_comments := post_num_comments p;
     issue_sentiment := label (sentiment p) |}.

Definition get_high_impact_issues (analyzed_posts : list AnalyzedPost)
    (top_n : Z) : list Issue :=
  let sorted_posts := sorted_desc impact_score analyzed_posts in
  map issue_of (slice_to top_n sorted_posts).

End NLPAnalyzer.

(** ** ollama_insights.py *)

Module AIInsights.
Import Re Py NLPAnalyzer.

(** A value of [json.loads]. *)
Inductive json :=
| JNull
| JBool (b : bool)
| JNum (q : Q)
| JStr (s : pystr)
| JList (l : list json)
| JObj (kv : list (pystr * json)).

(** Python's truth value of such a value, as [if x:] tests it. *)
Definition truthy (v : json) : bool :=
  match v with
  | JNull => false
  | JBool b => b
  | JNum q => negb (Qeq_bool q 0)
  | JStr s => match s with [] => false | _ => true end
  | JList l => match l with [] => false | _ => true end
  | JObj kv => match kv with [] => false | _ => true end
  end.

(** The entry of [posts_data] for one post, as the report generator
    builds it for each of the two prompts. *)
Record PostData := {
  pd_title : pystr;
  pd_body : pystr;
  pd_comments : pystr;
  pd_label : Label
}.

(** What a prompt is built from (its fixed wording is left out). *)
Inductive prompt :=
| SummaryPrompt (subreddit : pystr) (post_details : list PostData)
    (sentiment_dist : Distribution)
| InsightsPrompt (neg_titles pos_titles theme_names : list pystr)
| ActionsPrompt (issues : list (pystr * Q)) (themes : list pystr).

(** The provider behind [_generate(prompt, max_tokens)]: it answers with
    text, the empty string when it is unavailable or fails. *)
Record AI := {
  generate : prompt -> Z -> pystr
}.

(** [\{[\s\S]*\}] *)
Definition JSON_OBJECT : regex :=
  Seq (lit "{") (Seq (Star Any) (lit "}")).

Definition EMPTY_INSIGHTS : json :=
  JObj [(u "likes", JList []);
        (u "frustrations", JList []);
        (u "improving", JList []);
        (u "worsening", JList []);
        (u "opportunities", JList [])].

Section WithJson.
(** [json.loads]; [None] when it raises. *)
Variable json_loads : pystr -> option json.

Definition generate_executive_summary (ai : AI) (subreddit : pystr)
    (posts : list PostData) (sentiment_dist : Distribution) : pystr :=
  let post_details :=
    map (fun post =>
           {| pd_title := prefix 100 (pd_title post);
              pd_body := prefix 150 (pd_body post);
              pd_comments := prefix 200 (pd_comments post);
              pd_label := pd_label post |})
        (firstn 12 posts) in
  generate ai (SummaryPrompt subreddit post_details sentiment_dist) 400.

(** The data that [generate_deep_insights] puts in its prompt. *)
Definition insights_prompt (posts : list PostData) (themes : list pystr)
  : prompt :=
  (* Prepare data *)
  let negative_posts :=
    filter (fun p => Label_eqb (pd_label p) negative) posts in
  let positive_posts :=
    filter (fun p => Label_eqb (pd_label p) positive) posts in
  let neg_titles :=
    map (fun p => prefix 80 (pd_title p)) (firstn 8 negative_posts) in
  let pos_titles :=
    map (fun p => prefix 80 (pd_title p)) (firstn 8 positive_posts) in
  let theme_names := firstn 5 themes in
  InsightsPrompt neg_titles pos_titles theme_names.

Definition generate_deep_insights (ai : AI) (posts : list PostData)
    (themes : list pystr) : json :=
  let response := generate ai (insights_prompt posts themes) 400 in
  (* Parse JSON response *)
  match search JSON_OBJECT response with
  | Some json_match =>
      match json_loads json_match with
      | Some v => v
      | None => EMPTY_INSIGHTS   (* [except: pass] *)
      end
  | None =>
      (* Return empty structure if parsing fails *)
      EMPTY_INSIGHTS
  end.

(** [issues_text]: each issue with its title and its impact score as
    [f"{...:.1f}"] shows it, which converts the [int] to a float and
    raises when it is too large.  This is computed before the [try]. *)
Fixpoint issues_text (issues : list Issue) : result (list (pystr * Q)) :=
  match issues with
  | [] => Returns []
  | i :: rest =>
      match float_of_int (issue_impact_score i) with
      | Raises e => Raises e
      | Returns x =>
          match issues_text rest with
          | Raises e => Raises e
          | Returns l => Returns ((issue_title i, x) :: l)
          end
      end
  end.

Definition generate_action_items (ai : AI) (high_impact_issues : list Issue)
    (themes : list pystr) : result json :=
  match issues_text (firstn 5 high_impact_issues) with
  | Raises e => Raises e
  | Returns issues =>
      let response := generate ai (ActionsPrompt issues (firstn 3 themes)) 300 in
      Returns
        match search JSON_OBJECT response with
        | Some json_match =>
            match json_loads json_match with
            | Some (JObj data) =>
                match lookup (u "items") data with
                | Some items => items
                | None => JList []
                end
            | _ => JList []   (* [except: pass] *)
            end
        | None => JList []
        end
  end.

End WithJson.
End AIInsights.

(** ** report_generator.py *)

Module ReportGenerator.
Import Py NLPAnalyzer AIInsights.

Record InsightReport := {
  subreddit : pystr;
  posts_analyzed : nat;
  analysis_mode : pystr;
  timestamp : pystr;
  processing_time_ms : Q;
  executive_summary : pystr;
  sentiment_distribution : Distribution;
  themes : list Theme;
  product_insights : json;
  high_impact_issues : list Issue;
  (* AI-enhanced fields *)
  ai_enhanced : bool;
  action_items : option json
}.

(** The generator after [__init__]: [self.ai], [None] when AI is off or no
    provider is available. *)
Record generator := {
  ai : option AI
}.

(** [f"{x:.0f}"] *)
Definition fmt0 (x : Q) : pystr := Py.str_int (Py.round_half_even x).

Definition quote : pystr := [34%N].

Definition strings (l : list pystr) : json := JList (map JStr l).

(** The three signs that open the interpretation lines, as the source
    file spells them. *)
Definition WARNING_SIGN : pystr := [0xE2; 0x161; 0xA0; 0xEF; 0xB8]%N.
Definition CHECK_SIGN : pystr := [0xE2; 0x153; 0x2026]%N.
Definition INFO_SIGN : pystr := [0xE2; 0x201E; 0xB9; 0xEF; 0xB8]%N.

Definition CRITICAL : pystr :=
  WARNING_SIGN ++ u " Critical: Community sentiment is heavily negative. Immediate attention required.".
Definition WARNING : pystr :=
  WARNING_SIGN ++ u " Warning: Significant negative sentiment. Product team should investigate issues.".
Definition POSITIVE : pystr :=
  CHECK_SIGN ++ u " Positive: Users are generally satisfied. Continue current direction.".
Definition HEALTHY : pystr :=
  CHECK_SIGN ++ u " Healthy: Mostly positive feedback with some areas for improvement.".
Definition MIXED : pystr :=
  INFO_SIGN ++ u " Mixed: Varied user experiences. Focus on reducing friction points.".

(** Generate 1-line sentiment interpretation *)
Definition generate_interpretation (sentiment_dist : Distribution) : pystr :=
  let neg := pct_negative sentiment_dist in
  let pos := pct_positive sentiment_dist in
  if Qltb 60 neg then CRITICAL
  else if Qltb 40 neg then WARNING
  else if Qltb 60 pos then POSITIVE
  else if Qltb 40 pos then HEALTHY
  else MIXED.

Section WithJson.
Variable json_loads : pystr -> option json.

Definition rule_based_summary (analyzed_posts : list AnalyzedPost)
    (themes : list Theme) (sentiment_dist : Distribution) : pystr :=
  let total := str_nat (length analyzed_posts) in
  (* Sentiment overview *)
  let neg := pct_negative sentiment_dist in
  let pos := pct_positive sentiment_dist in
  let neu := pct_neutral sentiment_dist in
  let overview :=
    if Qltb 50 neg then
      u "Analysis of " ++ total
        ++ u " recent posts reveals predominantly negative sentiment ("
        ++ fmt0 neg ++ u "%), indicating widespread user concerns."
    else if Qltb 50 pos then
      u "Analysis of " ++ total
        ++ u " recent posts shows generally positive sentiment ("
        ++ fmt0 pos ++ u "%), reflecting user satisfaction."
    else
      u "Analysis of " ++ total
        ++ u " recent posts reveals mixed sentiment (Positive: "
        ++ fmt0 pos ++ u "%, Neutral: " ++ fmt0 neu
        ++ u "%, Negative: " ++ fmt0 neg ++ u "%)." in
  (* Top themes *)
  let top_themes :=
    match themes with
    | [] => []
    | _ => [u "Key discussion areas include "
              ++ join (u ", ") (map name (firstn 3 themes)) ++ u "."]
    end in
  (* Negative highlights *)
  let negative_posts :=
    filter (fun p => Label_eqb (label (sentiment p)) negative) analyzed_posts in
  let concerns :=
    match max_by impact_score negative_posts with
    | Some top_issue =>
        [u "Notable concerns include: " ++ quote
           ++ prefix 60 (title top_issue) ++ u "..." ++ quote]
    | None => []
    end in
  (* Positive highlights *)
  let positive_posts :=
    filter (fun p => Label_eqb (label (sentiment p)) positive) analyzed_posts in
  let praise :=
    match max_by post_score positive_posts with
    | Some top_praise =>
        [u "Users appreciate certain aspects, as shown in: " ++ quote
           ++ prefix 50 (title top_praise) ++ u "..." ++ quote]
    | None => []
    end in
  (* Engagement insight *)
  let engagement :=
    match sorted_desc post_num_comments analyzed_posts with
    | top :: _ =>
        [u "The most engaged discussions have "
           ++ str_int (post_num_comments top)
           ++ u "+ comments, indicating high community interest in these topics."]
    | [] => []
    end in
  join (u " ") ([overview] ++ top_themes ++ concerns ++ praise ++ engagement).

Definition generate_executive_summary (g : generator) (subreddit : pystr)
    (analyzed_posts : list AnalyzedPost) (themes : list Theme)
    (sentiment_dist : Distribution) : pystr :=
  match analyzed_posts with
  | [] => u "No posts available for analysis."
  | _ =>
      let fallback := rule_based_summary analyzed_posts themes sentiment_dist in
      (* Try AI-powered summary if available *)
      match ai g with
      | Some a =>
          let posts_data :=
            map (fun p =>
                   {| pd_title := title p;
                      pd_body := prefix 200 (body p);
                      pd_comments := prefix 300 (post_comments p);
                      pd_label := label (sentiment p) |})
                (firstn 20 analyzed_posts) in
          let ai_summary :=
            AIInsights.generate_executive_summary a subreddit posts_data
              sentiment_dist in
          if (50 <? length ai_summary)%nat then ai_summary else fallback
      | None => fallback
      end
  end.

(** The rule-based insights, the last [return] of
    [generate_product_insights]. *)
Definition rule_based_insights (analyzed_posts : list AnalyzedPost)
    (themes : list Theme) : json :=
  let positive_posts :=
    filter (fun p => Label_eqb (label (sentiment p)) positive) analyzed_posts in
  let negative_posts :=
    filter (fun p => Label_eqb (label (sentiment p)) negative) analyzed_posts in
  (* What users like (top positive posts) *)
  let likes :=
    map (fun p => prefix 100 (title p))
        (firstn 3 (sorted_desc post_score positive_posts)) in
  let likes :=
    match likes with
    | [] => [u "No strongly positive posts in this sample"]
    | _ => likes
    end in
  (* What frustrates users (top negative by impact) *)
  let frustrations :=
    map (fun p => prefix 100 (title p))
        (firstn 3 (sorted_desc impact_score negative_posts)) in
  let frustrations :=
    match frustrations with
    | [] => [u "No significant frustrations detected"]
    | _ => frustrations
    end in
  (* Trends based on theme sentiment *)
  let worsening :=
    map name
        (filter (fun t => match mood t with mood_negative => true | _ => false end)
                themes) in
  let improving :=
    map name
        (filter (fun t => match mood t with mood_positive => true | _ => false end)
                themes) in
  let worsening :=
    match worsening with
    | [] => [u "No clear worsening trends detected"]
    | _ => worsening
    end in
  let improving :=
    match improving with
    | [] => [u "No clear improving trends detected"]
    | _ => improving
    end in
  JObj [(u "likes", strings likes);
        (u "frustrations", strings frustrations);
        (u "worsening", strings worsening);
        (u "improving", strings improving);
        (u "opportunities",
         strings [u "Increase sample size for better opportunity detection"])].

(** [posts_data] of [generate_product_insights]: title and label of the
    first 30 posts. *)
Definition insights_data (analyzed_posts : list AnalyzedPost)
  : list PostData :=
  map (fun p =>
         {| pd_title := title p;
            pd_body := [];
            pd_comments := [];
            pd_label := label (sentiment p) |})
      (firstn 30 analyzed_posts).

Definition generate_product_insights (g : generator)
    (analyzed_posts : list AnalyzedPost) (themes : list Theme) : json :=
  let baseline := rule_based_insights analyzed_posts themes in
  (* Try AI enhancement for deeper insights *)
  match ai g with
  | Some a =>
      let ai_insights :=
        generate_deep_insights json_loads a (insights_data analyzed_posts)
          (map name (firstn 5 themes)) in
      if truthy ai_insights
      then ai_insights   (* Merge with rule-based, prioritizing AI *)
      else baseline
  | None => baseline
  end.

Definition generate_full_report (g : generator) (now : pystr)
    (subreddit : pystr) (analyzed_posts : list AnalyzedPost)
    (themes : list Theme) (sentiment_dist : Distribution)
    (high_impact : list Issue) (analysis_mode : pystr)
    (processing_time_ms : Q) : InsightReport :=
  let executive_summary :=
    generate_executive_summary g subreddit analyzed_posts themes
      sentiment_dist in
  let product_insights :=
    generate_product_insights g analyzed_posts themes in
  (* Generate AI action items if available *)
  let '(action_items, ai_enhanced) :=
    match ai g with
    | Some a =>
        match generate_action_items json_loads a high_impact
                (map name themes) with
        | Returns items => (Some items, true)
        | Raises _ => (None, false)   (* [except Exception as e: print] *)
        end
    | None => (None, false)
    end in
  {| subreddit := subreddit;
     posts_analyzed := length analyzed_posts;
     analysis_mode := analysis_mode;
     timestamp := now;
     processing_time_ms := processing_time_ms;
     executive_summary := executive_summary;
     sentiment_distribution := sentiment_dist;
     themes := themes;
     product_insights := product_insights;
     high_impact_issues := high_impact;
     ai_enhanced := ai_enhanced;
     action_items := action_items |}.

End WithJson.
End ReportGenerator.

(** ** app.py *)

Module App.
Import TextProcessor NLPAnalyzer AIInsights ReportGenerator.

(** [run_analysis], without the progress display.  [fetched] is what
    [fetcher.fetch_posts] returned, [None] when it raised (every
    exception is caught and turns into [None]); [now] and
    [processing_time] are the clock readings. *)
Definition run_analysis (T : Unicode.tables) (analyzer : NLPAnalyzer.analyzer)
    (report_gen : generator) (json_loads : pystr -> option json)
    (fetched : option (list RedditPost)) (now : pystr) (processing_time : Q)
    (subreddit mode : pystr) : option InsightReport :=
  match fetched with
  | None => None
  | Some raw_posts =>
      (* Step 2: Process text (including comments) *)
      match process_posts T raw_posts with
      | [] => None   (* No valid posts found after processing. *)
      | processed_posts =>
          (* Step 3: Analyze sentiment *)
          let analyzed_posts := analyze_posts T analyzer processed_posts in
          let sentiment_dist :=
            calculate_sentiment_distribution_binary64 analyzed_posts in
          (* Step 4: Extract themes (if mode requires) *)
          let themes :=
            if contains (u "themes") mode
            then extract_themes T analyzed_posts else [] in
          (* Step 5: Get high-impact issues *)
          let high_impact := get_high_impact_issues analyzed_posts 3 in
          (* Step 6: Generate report (with AI if enabled) *)
          Some (generate_full_report json_loads report_gen now subreddit
                  analyzed_posts themes sentiment_dist high_impact mode
                  processing_time)
      end
  end.

End App.

(** ** Notions the properties are stated with *)

Module Spec.
Import TextProcessor NLPAnalyzer AIInsights ReportGenerator.

(** A generative capability that answers every prompt with the empty
    string. *)
Definition silent_ai : AI := {| generate := fun _ _ => [] |}.

(** Descending by key. *)
Definition desc {A} (key : A -> Z) (a b : A) : Prop := (key b <= key a)%Z.

(** Descending by key, and by increasing rank among equal keys. *)
Definition desc_then {A} (key : A -> Z) (rank : A -> nat) (a b : A) : Prop :=
  (key b < key a)%Z \/ (key a = key b /\ (rank a < rank b)%nat).

(** The position of a theme name in the taxonomy [THEME_KEYWORDS]. *)
Fixpoint index_of (n : pystr) (l : list pystr) : nat :=
  match l with
  | [] => O
  | x :: l' => if PyStr.eqb n x then O else S (index_of n l')
  end.

Definition taxonomy_rank (n : pystr) : nat :=
  index_of n (map fst THEME_KEYWORDS).

(** The exact percentage of the posts that carry a label. *)
Definition exact_pct (l : Label) (posts : list AnalyzedPost) : Q :=
  (inject_Z (Z.of_nat (count_label l posts))
   / inject_Z (Z.of_nat (length posts)) * 100)%Q.

(** The summed length of a list of strings, separators not counted. *)
Definition total_length (l : list pystr) : nat :=
  list_sum (map (@length N) l).

(** Greedy first-fit under a cap: going through the candidates in order
    with a running total, a candidate is kept, whole, when it is not empty
    and the total with it stays below the cap; otherwise it is dropped and
    the next one is tried. *)
Inductive first_fit (cap : nat) : nat -> list pystr -> list pystr -> Prop :=
| ff_done total : first_fit cap total [] []
| ff_keep total c l kept :
    c <> [] -> (total + length c < cap)%nat ->
    first_fit cap (total + length c) l kept ->
    first_fit cap total (c :: l) (c :: kept)
| ff_drop total c l kept :
    c = [] \/ (cap <= total + length c)%nat ->
    first_fit cap total l kept ->
    first_fit cap total (c :: l) kept.

(** [p] occurs in [s] as a substring. *)
Definition substring (p s : pystr) : Prop :=
  exists pre suf : pystr, s = pre ++ p ++ suf.

(** The number of occurrences of a keyword in a text: the positions at
    which it starts. *)
Fixpoint occurrences (kw s : pystr) : nat :=
  (if startswith kw s then 1 else 0)
  + match s with
    | [] => 0
    | _ :: s' => occurrences kw s'
    end.

(** The total number of occurrences of a theme's keywords in the posts,
    as the claim words the mention count. *)
Definition keyword_occurrences (T : Unicode.tables) (keywords : list pystr)
    (posts : list AnalyzedPost) : nat :=
  list_sum
    (map (fun p =>
            list_sum (map (fun kw => occurrences kw (theme_text T p))
                          keywords))
         posts).

(** The number of (post, keyword) pairs such that the keyword occurs at
    least once in the post's text: what the code adds up. *)
Definition keyword_hits (T : Unicode.tables) (keywords : list pystr)
    (posts : list AnalyzedPost) : nat :=
  list_sum (map (fun p => keyword_matches keywords (theme_text T p)) posts).

(** A post with other comments. *)
Definition with_comments (c : pystr) (p : AnalyzedPost) : AnalyzedPost :=
  {| post_id := post_id p; title := title p; body := body p;
     post_comments := c; post_score := post_score p;
     post_num_comments := post_num_comments p;
     sentiment := sentiment p; impact_score := impact_score p |}.

(** The external scorers answer within their documented range [-1, 1]. *)
Definition bounded_scorers (a : analyzer) : Prop :=
  forall text : pystr,
    match vader_analyzer a with
    | Some polarity_scores => (-1 <= polarity_scores text <= 1)%R
    | None => True
    end
    /\ match textblob_polarity a text with
       | Some tb_polarity => (-1 <= tb_polarity <= 1)%R
       | None => True
       end.

(** The passes of [clean_text], by name. *)
Definition strip_urls (s : pystr) : pystr := Re.sub URL_PATTERN [] s.
Definition blank_markdown (s : pystr) : pystr :=
  Re.sub MARKDOWN_PATTERN (u " ") s.
Definition blank_entities (T : Unicode.tables) (s : pystr) : pystr :=
  Re.sub (HTML_ENTITIES T) (u " ") s.
Definition strip_emoji (s : pystr) : pystr := Re.sub EMOJI_PATTERN [] s.
Definition strip_noise (T : Unicode.tables) (s : pystr) : pystr :=
  fold_left (fun cleaned pattern => Re.sub pattern [] cleaned)
            (REDDIT_NOISE T) s.
Definition normalize_whitespace (s : pystr) : pystr :=
  strip (Re.sub (Re.Plus Re.Space) (u " ") s).

(** The text after the first three passes: URLs removed, markdown
    characters and HTML entities blanked. *)
Definition blanked (T : Unicode.tables) (s : pystr) : pystr :=
  blank_entities T (blank_markdown (strip_urls s)).

(** No code point of the emoji ranges. *)
Definition emoji_free (s : pystr) : Prop :=
  Forall (fun c => is_emoji c = false) s.

(** The pattern matches nowhere in the text ([pattern.search] finds
    nothing, whatever stands before the text). *)
Definition pattern_free (r : Re.regex) (s : pystr) : Prop :=
  forall (prev : option N) (pre t : pystr),
    s = pre ++ t -> Re.match_at r prev t = None.

Definition url_free (s : pystr) : Prop := pattern_free URL_PATTERN s.
Definition entity_free (T : Unicode.tables) (s : pystr) : Prop :=
  pattern_free (HTML_ENTITIES T) s.

(** The text is empty or begins with white space. *)
Definition headspace (s : pystr) : Prop :=
  match s with
  | [] => True
  | c :: _ => isspace c = true
  end.

(** A class of characters without white space. *)
Definition solid_class (p : N -> bool) : Prop :=
  forall c : N, isspace c = true -> p c = false.

(** Patterns without anchors, whose repetitions are of one character
    class. *)
Inductive plain : Re.regex -> Prop :=
| plain_eps : plain Re.Eps
| plain_chr p : plain (Re.Chr p)
| plain_seq r1 r2 : plain r1 -> plain r2 -> plain (Re.Seq r1 r2)
| plain_alt r1 r2 : plain r1 -> plain r2 -> plain (Re.Alt r1 r2)
| plain_star p : plain (Re.Star (Re.Chr p)).

(** Plain patterns none of whose character classes has white space: a
    match of such a pattern is a run of non-blank characters. *)
Inductive solid : Re.regex -> Prop :=
| solid_eps : solid Re.Eps
| solid_chr p : solid_class p -> solid (Re.Chr p)
| solid_seq r1 r2 : solid r1 -> solid r2 -> solid (Re.Seq r1 r2)
| solid_alt r1 r2 : solid r1 -> solid r2 -> solid (Re.Alt r1 r2)
| solid_star p : solid_class p -> solid (Re.Star (Re.Chr p)).

(** Patterns every match of which takes at least one character. *)
Inductive consuming : Re.regex -> Prop :=
| consuming_chr p : consuming (Re.Chr p)
| consuming_seq r1 r2 : consuming r1 -> consuming (Re.Seq r1 r2)
| consuming_alt r1 r2 :
    consuming r1 -> consuming r2 -> consuming (Re.Alt r1 r2).

(** The character before what follows [pre], when [prev] is the one
    before [pre]. *)
Definition after (prev : option N) (pre : pystr) : option N :=
  fold_left (fun _ c => Some c) pre prev.

(** A substitution leaves white space (or nothing) wherever it replaces
    a match. *)
Definition gapped (r : Re.regex) (repl : pystr) : Prop :=
  forall (prev : option N) (s : pystr),
    Re.match_at r prev s <> None ->
    headspace (Re.sub_from r repl prev s 0).

(** The Unicode tables are sound for this program when no decimal digit
    is white space. *)
Definition digits_solid (T : Unicode.tables) : Prop :=
  solid_class (Unicode.isdecimal T).

(** White space in normal form: every white-space character is a space
    (U+0020) that stands between two other characters, neither of them
    white space. *)
Definition single_spaced (s : pystr) : Prop :=
  (forall c : N, In c s -> isspace c = true -> c = 32%N)
  /\ (forall a b : pystr, forall c d : N,
        s = a ++ c :: d :: b -> isspace c = true -> isspace d = false)
  /\ (forall (c : N) (t : pystr), s = c :: t -> isspace c = false)
  /\ (forall (c : N) (t : pystr), s = t ++ [c] -> isspace c = false).

(** Every white-space character is a space that is not followed by
    white space. *)
Fixpoint gaps_ok (s : pystr) : Prop :=
  match s with
  | [] => True
  | c :: s' =>
      (isspace c = true ->
       c = 32%N /\ match s' with
                   | [] => True
                   | d :: _ => isspace d = false
                   end)
      /\ gaps_ok s'
  end.

(** The text is empty or begins with a character that is not white
    space. *)
Definition headsolid (s : pystr) : Prop :=
  match s with
  | [] => True
  | c :: _ => isspace c = false
  end.

(** The text [aggregate_text] makes of one post. *)
Definition post_text (p : ProcessedPost) : pystr :=
  u "POST: " ++ combined_text p.

(** A post mentions a theme when at least one keyword occurs in its
    text. *)
Definition mentions (T : Unicode.tables) (keywords : list pystr)
    (p : AnalyzedPost) : bool :=
  (0 <? keyword_matches keywords (theme_text T p))%nat.

(** The number of posts that carry a label. *)
Definition labelled (l : Label) (posts : list AnalyzedPost) : nat :=
  length (filter (fun p => Label_eqb (label (sentiment p)) l) posts).

(** The engagement of a post: score plus comments. *)
Definition engagement (p : AnalyzedPost) : Z :=
  (post_score p + post_num_comments p)%Z.

(** The example a post contributes to a theme. *)
Definition example_of (p : AnalyzedPost) : pystr := prefix 70 (title p).

(** What the accumulator of a theme holds after [extract_themes] has read
    the posts, starting from [a]: the hits added up, the posts that
    mention the theme tallied by label, and their first titles as
    examples, up to two. *)
Definition acc_after (T : Unicode.tables) (keywords : list pystr)
    (posts : list AnalyzedPost) (a : ThemeAcc) : ThemeAcc :=
  let docs := filter (mentions T keywords) posts in
  {| acc_count := acc_count a + keyword_hits T keywords posts;
     acc_positive := acc_positive a + labelled positive docs;
     acc_neutral := acc_neutral a + labelled neutral docs;
     acc_negative := acc_negative a + labelled negative docs;
     acc_examples :=
       acc_examples a
       ++ firstn (2 - length (acc_examples a)) (map example_of docs) |}.

(** [v[key]] for a value that is an object. *)
Definition entry (key : string) (v : json) : option json :=
  match v with
  | JObj kv => lookup (u key) kv
  | _ => None
  end.

(** An issue whose impact score converts to a float: below the first
    integer that rounds to [2 ** 1024]. *)
Definition formattable (i : Issue) : Prop :=
  (Z.abs (issue_impact_score i) < 2 ^ 1024 - 2 ^ 970)%Z.

(** [ranked] is [l] in descending order of [key], elements of equal key
    in the order they have in [l]. *)
Definition ranked_by {A} (key : A -> Z) (l ranked : list A) : Prop :=
  Permutation ranked l
  /\ StronglySorted (desc key) ranked
  /\ forall k : Z,
       filter (fun a => key a =? k)%Z ranked
       = filter (fun a => key a =? k)%Z l.

(** The theme has the mood [m]. *)
Definition has_mood (m : Mood) (t : Theme) : bool :=
  match m, mood t with
  | mood_negative, mood_negative | mood_positive, mood_positive
  | mood_mixed, mood_mixed | mood_neutral, mood_neutral => true
  | _, _ => false
  end.

(** The posts that carry the label [l], in their order. *)
Definition with_label (l : Label) (posts : list AnalyzedPost)
  : list AnalyzedPost :=
  filter (fun p => Label_eqb (label (sentiment p)) l) posts.

(** The list, or the one sentence that stands in for an empty list. *)
Definition or_sentence (l : list pystr) (sentence : string) : list pystr :=
  match l with
  | [] => [u sentence]
  | _ => l
  end.

(** The bonus of a negative post in the impact score. *)
Definition negative_bonus (l : Label) : Z :=
  match l with negative => 10 | _ => 0 end.

End Spec.

(** * Properties *)

Unset Implicit Arguments.

Import TextProcessor NLPAnalyzer AIInsights ReportGenerator Spec.

(** ** Impact score *)

(** C3. Every analyzed post carries the score and comment count of the
    processed post it comes from, and its impact score is their sum plus
    exactly 10 when its label is negative and 0 otherwise; so the impact
    score is at least score + comments, with equality exactly when the
    label is not negative. *)
Theorem impact_score_formula (T : Unicode.tables) (a : analyzer)
    (processed_posts : list ProcessedPost) :
  Forall2
    (fun post p =>
       post_score p = score post
       /\ post_num_comments p = num_comments post
       /\ label (sentiment p)
          = label (analyze_sentiment T a (combined_text post))
       /\ impact_score p
          = (post_score p + post_num_comments p
             + negative_bonus (label (sentiment p)))%Z
       /\ (post_score p + post_num_comments p <= impact_score p)%Z
       /\ (impact_score p = (post_score p + post_num_comments p)%Z
           <-> label (sentiment p) <> negative))
    processed_posts (analyze_posts T a processed_posts).
Proof.
  induction processed_posts as [|post posts IH]; simpl; constructor; auto.
  unfold analyze_post; simpl.
  destruct (label (analyze_sentiment T a (combined_text post))); simpl;
    repeat split; try lia; try congruence; intros; exfalso; lia.
Qed.

(** ** The generative fall-backs of the report generator *)

Lemma rule_based_insights_not_empty (analyzed_posts : list AnalyzedPost)
    (themes : list Theme) :
  rule_based_insights analyzed_posts themes <> EMPTY_INSIGHTS.
Proof.
  unfold rule_based_insights, EMPTY_INSIGHTS, strings.
  intros H. injection H as _ _ _ _ H. discriminate H.
Qed.

(** The insights when the provider's answer holds no [{...}] text, or
    holds one that [json.loads] rejects. *)
Lemma deep_insights_unparsed (json_loads : pystr -> option json) (a : AI)
    (posts : list PostData) (themes : list pystr) :
  match Re.search JSON_OBJECT (generate a (insights_prompt posts themes) 400)
  with
  | Some t => json_loads t = None
  | None => True
  end ->
  generate_deep_insights json_loads a posts themes = EMPTY_INSIGHTS.
Proof.
  unfold generate_deep_insights.
  destruct (Re.search JSON_OBJECT _); [intros ->|]; reflexivity.
Qed.

(** C1 (the code at the failing inputs).  When the generative capability
    is configured and its answer is the empty string, or has no [{...}]
    text, or one that does not parse, [generate_product_insights] returns
    the structure of five empty lists, which is never the rule-based
    baseline. *)
Theorem product_insights_on_parse_failure
    (json_loads : pystr -> option json) (a : AI)
    (analyzed_posts : list AnalyzedPost) (themes : list Theme) :
  match Re.search JSON_OBJECT
          (generate a (insights_prompt (insights_data analyzed_posts)
                         (map name (firstn 5 themes))) 400)
  with
  | Some t => json_loads t = None
  | None => True
  end ->
  generate_product_insights json_loads {| ai := Some a |} analyzed_posts themes
  = EMPTY_INSIGHTS
  /\ generate_product_insights json_loads {| ai := Some a |}
       analyzed_posts themes
     <> rule_based_insights analyzed_posts themes.
Proof.
  intros H.
  assert (E : generate_product_insights json_loads {| ai := Some a |}
                analyzed_posts themes = EMPTY_INSIGHTS).
  { unfold generate_product_insights; cbn [ai].
    rewrite (deep_insights_unparsed json_loads a _ _ H). reflexivity. }
  split; [exact E|].
  rewrite E. intros H'. symmetry in H'.
  exact (rule_based_insights_not_empty _ _ H').
Qed.

(** The failing input of scenario D: one positive post, a provider that is
    configured and always answers with the empty string. *)
Lemma product_insights_on_parse_failure_witness :
  let post :=
    {| post_id := u "p1"; title := u "Love this camera, amazing quality";
       body := []; post_comments := []; post_score := 5%Z;
       post_num_comments := 2%Z;
       sentiment := {| label := positive; sent_score := 1%R;
                       raw_score := 5%R |};
       impact_score := 7%Z |} in
  generate_product_insights (fun _ => None) {| ai := Some silent_ai |}
    [post] []
  = EMPTY_INSIGHTS
  /\ generate_product_insights (fun _ => None) {| ai := Some silent_ai |}
       [post] []
     <> rule_based_insights [post] [].
Proof.
  intros post.
  apply (product_insights_on_parse_failure (fun _ => None) silent_ai
           [post] []).
  exact I.
Defined.

Lemma issues_text_spec (issues : list Issue) :
  match issues_text issues with
  | Py.Returns l => Forall formattable issues /\ map fst l = map issue_title issues
  | Py.Raises _ => ~ Forall formattable issues
  end.
Proof.
  induction issues as [|i issues IH]; cbn [issues_text].
  - split; [constructor|reflexivity].
  - unfold Py.float_of_int.
    destruct (Z.ltb_spec (Z.abs (issue_impact_score i)) (2 ^ 1024 - 2 ^ 970))
      as [L|L].
    + destruct (issues_text issues) as [l|e].
      * destruct IH as [IH1 IH2]. split; [constructor; assumption|].
        cbn [map fst]. now rewrite IH2.
      * intros H. inversion H; subst. contradiction.
    + intros H. inversion H as [|? ? Hi ?]; subst.
      unfold formattable in Hi. lia.
Qed.

Lemma action_items_returns (json_loads : pystr -> option json) (a : AI)
    (high_impact : list Issue) (themes : list pystr) :
  match generate_action_items json_loads a high_impact themes with
  | Py.Returns _ => Forall formattable (firstn 5 high_impact)
  | Py.Raises _ => ~ Forall formattable (firstn 5 high_impact)
  end.
Proof.
  unfold generate_action_items.
  pose proof (issues_text_spec (firstn 5 high_impact)) as H.
  destruct (issues_text (firstn 5 high_impact)); [exact (proj1 H)|exact H].
Qed.

(** C2, as the code has it.  The [ai_enhanced] flag of a report is true
    exactly when a generative capability is configured and the
    action-items step returned, which it does unless the impact score of
    one of the first five issues is too large for a float.  The action
    items are then what the step returned, and they are [None] when the
    flag is false.  What the parse gave plays no part: with a capability
    that always answers the empty string the action items are the empty
    list and the flag is true. *)
Theorem ai_enhanced_iff_configured (json_loads : pystr -> option json)
    (g : generator) (now subreddit : pystr)
    (analyzed_posts : list AnalyzedPost) (themes : list Theme)
    (sentiment_dist : Distribution) (high_impact : list Issue)
    (analysis_mode : pystr) (processing_time_ms : Q) :
  let report (g : generator) :=
    generate_full_report json_loads g now subreddit analyzed_posts themes
      sentiment_dist high_impact analysis_mode processing_time_ms in
  (ai_enhanced (report g) = true
   <-> ai g <> None /\ Forall formattable (firstn 5 high_impact))
  /\ (forall a : AI,
        ai g = Some a -> ai_enhanced (report g) = true ->
        exists items : json,
          generate_action_items json_loads a high_impact (map name themes)
          = Py.Returns items
          /\ action_items (report g) = Some items)
  /\ (ai_enhanced (report g) = false -> action_items (report g) = None)
  /\ (Forall formattable (firstn 5 high_impact) ->
      ai_enhanced (report {| ai := Some silent_ai |}) = true
      /\ action_items (report {| ai := Some silent_ai |}) = Some (JList [])).
Proof.
  intros report. unfold report, generate_full_report.
  split; [|split; [|split]].
  - destruct g as [[a|]]; cbn [ai].
    + pose proof (action_items_returns json_loads a high_impact
                    (map name themes)) as H.
      destruct (generate_action_items json_loads a high_impact
                  (map name themes)); cbn [ai_enhanced].
      * split; [intros _; split; [discriminate|exact H]|reflexivity].
      * split; [discriminate|intros [_ F]; contradiction].
    + cbn [ai_enhanced]. split; [discriminate|intros [F _]; congruence].
  - intros a Ha. rewrite Ha.
    destruct (generate_action_items json_loads a high_impact
                (map name themes)) as [items|e]; cbn [ai_enhanced action_items].
    + intros _. exists items. split; reflexivity.
    + discriminate.
  - destruct (ai g) as [a|]; [|reflexivity].
    destruct (generate_action_items json_loads a high_impact
                (map name themes)); cbn [ai_enhanced action_items];
      [discriminate|reflexivity].
  - intros F. cbn [ai].
    pose proof (action_items_returns json_loads silent_ai high_impact
                  (map name themes)) as H.
    unfold generate_action_items in *.
    destruct (issues_text (firstn 5 high_impact)); [|contradiction].
    cbn [silent_ai generate]. split; reflexivity.
Qed.

Lemma ai_enhanced_iff_configured_witness :
  let report :=
    generate_full_report (fun _ => None) {| ai := Some silent_ai |}
      (u "2026-01-01T00:00:00") (u "GooglePixel") [] []
      (calculate_sentiment_distribution_binary64 [])
      [{| issue_title := u "Battery drains overnight";
          issue_impact_score := 52; issue_score := 30; issue_comments := 12;
          issue_sentiment := negative |}]
      (u "sentiment+themes") 12 in
  ai_enhanced report = true /\ action_items report = Some (JList []).
Proof.
  intros report.
  apply (ai_enhanced_iff_configured (fun _ => None) {| ai := None |}
           (u "2026-01-01T00:00:00") (u "GooglePixel") [] []
           (calculate_sentiment_distribution_binary64 [])
           [{| issue_title := u "Battery drains overnight";
               issue_impact_score := 52; issue_score := 30;
               issue_comments := 12; issue_sentiment := negative |}]
           (u "sentiment+themes") 12).
  repeat constructor.
Defined.

(** C2, refuted as stated: with a capability that always answers the empty
    string the parse of the action items is the empty list, and the report
    is flagged [ai_enhanced] all the same. *)
Lemma ai_enhanced_with_empty_action_items :
  let report :=
    generate_full_report (fun _ => None) {| ai := Some silent_ai |}
      (u "2026-01-01T00:00:00") (u "GooglePixel") [] []
      (calculate_sentiment_distribution_binary64 []) []
      (u "sentiment+themes") 12 in
  action_items report = Some (JList []) /\ ai_enhanced report = true.
Proof. split; reflexivity. Qed.

(** ** The stable descending sort *)

Lemma firstn_incl {A} (n : nat) (l : list A) (x : A) :
  In x (firstn n l) -> In x l.
Proof.
  revert n; induction l as [|y l IH]; intros [|n]; simpl; try tauto.
  intros [H|H]; [left; exact H|right; exact (IH n H)].
Qed.

Section SortedDesc.
Context {A : Type} (key : A -> Z).

Lemma insert_desc_perm (x : A) (l : list A) :
  Permutation (Py.insert_desc key x l) (x :: l).
Proof.
  induction l as [|y l IH]; simpl; [reflexivity|].
  destruct (key y <=? key x)%Z; [reflexivity|].
  rewrite IH. apply perm_swap.
Qed.

Lemma sorted_desc_perm (l : list A) : Permutation (Py.sorted_desc key l) l.
Proof.
  induction l as [|x l IH]; simpl; [reflexivity|].
  unfold Py.sorted_desc in *; simpl.
  rewrite insert_desc_perm. now constructor.
Qed.

Lemma insert_desc_sorted (x : A) (l : list A) :
  StronglySorted (desc key) l -> StronglySorted (desc key) (Py.insert_desc key x l).
Proof.
  induction 1 as [|y l Hs IH Hy]; simpl.
  - repeat constructor.
  - destruct (key y <=? key x)%Z eqn:E.
    + apply Z.leb_le in E. constructor; [constructor; assumption|].
      constructor; [exact E|].
      eapply Forall_impl; [|exact Hy]. unfold desc; intros; lia.
    + apply Z.leb_gt in E. constructor; [exact IH|].
      eapply Permutation_Forall;
        [symmetry; apply insert_desc_perm|].
      constructor; [unfold desc; lia|exact Hy].
Qed.

Lemma sorted_desc_sorted (l : list A) :
  StronglySorted (desc key) (Py.sorted_desc key l).
Proof.
  induction l as [|x l IH]; [constructor|].
  apply insert_desc_sorted, IH.
Qed.

(** Stability: the elements of any one key keep their order. *)
Lemma insert_desc_filter (k : Z) (x : A) (l : list A) :
  filter (fun a => key a =? k)%Z (Py.insert_desc key x l)
  = filter (fun a => key a =? k)%Z (x :: l).
Proof.
  induction l as [|y l IH]; [reflexivity|].
  simpl in *. destruct (key y <=? key x)%Z eqn:E; [reflexivity|].
  apply Z.leb_gt in E. simpl. rewrite IH.
  destruct (key x =? k)%Z eqn:Ex, (key y =? k)%Z eqn:Ey; try reflexivity.
  apply Z.eqb_eq in Ex, Ey. lia.
Qed.

Lemma sorted_desc_stable (k : Z) (l : list A) :
  filter (fun a => key a =? k)%Z (Py.sorted_desc key l)
  = filter (fun a => key a =? k)%Z l.
Proof.
  induction l as [|x l IH]; [reflexivity|].
  change (Py.sorted_desc key (x :: l))
    with (Py.insert_desc key x (Py.sorted_desc key l)).
  rewrite insert_desc_filter. simpl. now rewrite IH.
Qed.

Lemma insert_desc_then (rank : A -> nat) (x : A) (l : list A) :
  Forall (fun y => (rank x < rank y)%nat) l ->
  StronglySorted (desc_then key rank) l ->
  StronglySorted (desc_then key rank) (Py.insert_desc key x l).
Proof.
  intros Hx Hs. induction Hs as [|y l Hs IH Hy]; simpl.
  - repeat constructor.
  - inversion Hx as [|? ? Hxy Hxl]; subst.
    destruct (key y <=? key x)%Z eqn:E.
    + apply Z.leb_le in E. constructor; [constructor; assumption|].
      constructor; [unfold desc_then; lia|].
      rewrite Forall_forall in *. intros z Hz.
      specialize (Hy z Hz). specialize (Hxl z Hz).
      unfold desc_then in *. lia.
    + apply Z.leb_gt in E. constructor; [apply IH; exact Hxl|].
      eapply Permutation_Forall;
        [symmetry; apply insert_desc_perm|].
      constructor; [unfold desc_then; lia|exact Hy].
Qed.

Lemma sorted_desc_then (rank : A -> nat) (l : list A) :
  StronglySorted (fun a b => (rank a < rank b)%nat) l ->
  StronglySorted (desc_then key rank) (Py.sorted_desc key l).
Proof.
  induction 1 as [|x l Hs IH Hx]; [constructor|].
  change (Py.sorted_desc key (x :: l))
    with (Py.insert_desc key x (Py.sorted_desc key l)).
  apply insert_desc_then; [|exact IH].
  eapply Permutation_Forall; [symmetry; apply sorted_desc_perm|exact Hx].
Qed.

End SortedDesc.

Lemma StronglySorted_firstn {A} (R : A -> A -> Prop) (n : nat) (l : list A) :
  StronglySorted R l -> StronglySorted R (firstn n l).
Proof.
  intros Hs. revert n.
  induction Hs as [|x l Hs IH Hx]; intros [|n]; simpl; try constructor.
  - apply IH.
  - rewrite Forall_forall in *. intros y Hy. apply Hx.
    eapply firstn_incl; eauto.
Qed.

(** ** High-impact ranking *)


(** ** Theme extraction *)

Lemma StronglySorted_map {A B} (R : B -> B -> Prop) (f : A -> B) (l : list A) :
  StronglySorted R (map f l) -> StronglySorted (fun a b => R (f a) (f b)) l.
Proof.
  induction l as [|x l IH]; simpl; intros H; [constructor|].
  inversion H as [|? ? Hs Hx]; subst. constructor; [apply IH, Hs|].
  rewrite Forall_forall in *. intros y Hy. apply Hx, in_map, Hy.
Qed.

Lemma StronglySorted_map_inv {A B} (R : B -> B -> Prop) (f : A -> B)
    (l : list A) :
  StronglySorted (fun a b => R (f a) (f b)) l -> StronglySorted R (map f l).
Proof.
  induction 1 as [|x l Hs IH Hx]; simpl; constructor; [exact IH|].
  rewrite Forall_forall in *. intros y Hy.
  apply in_map_iff in Hy as [z [<- Hz]]. apply Hx, Hz.
Qed.

Lemma StronglySorted_filter {A} (R : A -> A -> Prop) (f : A -> bool)
    (l : list A) :
  StronglySorted R l -> StronglySorted R (filter f l).
Proof.
  induction 1 as [|x l Hs IH Hx]; simpl; [constructor|].
  destruct (f x); [|exact IH]. constructor; [exact IH|].
  rewrite Forall_forall in *. intros y Hy.
  apply filter_In in Hy as [Hy _]. apply Hx, Hy.
Qed.

(** The loops of [extract_themes] never touch the names of the taxonomy. *)
Lemma theme_step_name (post : AnalyzedPost) (text : pystr)
    (e : pystr * list pystr * ThemeAcc) :
  fst (theme_step post text e) = fst e.
Proof.
  destruct e as [[theme keywords] a]. unfold theme_step.
  destruct (0 <? keyword_matches keywords text)%nat; reflexivity.
Qed.

Lemma theme_totals_names (T : Unicode.tables) (posts : list AnalyzedPost) :
  map fst (theme_totals T posts) = THEME_KEYWORDS.
Proof.
  unfold theme_totals.
  assert (G : forall st, map fst (fold_left (post_step T) posts st)
                         = map fst st).
  { induction posts as [|p posts IH]; intros st; simpl; [reflexivity|].
    rewrite IH. unfold post_step. rewrite map_map.
    apply map_ext. intros e. apply theme_step_name. }
  rewrite G, map_map. reflexivity.
Qed.

Lemma taxonomy_ranked :
  StronglySorted (fun a b => (taxonomy_rank a < taxonomy_rank b)%nat)
    (map fst THEME_KEYWORDS).
Proof.
  repeat (constructor; [|repeat constructor; vm_compute; lia]).
  constructor.
Qed.

Lemma theme_result_name (e : pystr * list pystr * ThemeAcc) :
  name (theme_result e) = fst (fst e).
Proof.
  destruct e as [[theme keywords] a]. unfold theme_result.
  destruct (0 <? _)%nat; [|reflexivity].
  destruct (Py.Qltb _ _); [reflexivity|].
  destruct (Py.Qltb _ _); reflexivity.
Qed.

Lemma theme_result_count (e : pystr * list pystr * ThemeAcc) :
  count (theme_result e) = acc_count (snd e).
Proof.
  destruct e as [[theme keywords] a]. unfold theme_result.
  destruct (0 <? _)%nat; [|reflexivity].
  destruct (Py.Qltb _ _); [reflexivity|].
  destruct (Py.Qltb _ _); reflexivity.
Qed.

(** C9. [extract_themes] returns the first six of the mentioned themes
    (those with a positive count; the others are left out), ordered by
    count descending, themes of equal count in taxonomy order. *)
Theorem extract_themes_ranking (T : Unicode.tables)
    (analyzed_posts : list AnalyzedPost) :
  let themes := extract_themes T analyzed_posts in
  (length themes <= 6)%nat
  /\ Forall (fun t => (0 < count t)%nat) themes
  /\ StronglySorted
       (desc_then (fun t => Z.of_nat (count t))
                  (fun t => taxonomy_rank (name t))) themes
  /\ exists ranked : list Theme,
       themes = firstn 6 ranked
       /\ Permutation (map name ranked)
            (map (fun e => fst (fst e))
               (filter (fun e => (0 <? acc_count (snd e))%nat)
                  (theme_totals T analyzed_posts))).
Proof.
  intros themes. unfold themes, extract_themes.
  set (mentioned := filter _ (theme_totals T analyzed_posts)).
  set (results := map theme_result mentioned).
  set (key := fun t : Theme => Z.of_nat (count t)).
  assert (Hperm := sorted_desc_perm key results).
  split; [apply firstn_le_length|].
  split.
  { rewrite Forall_forall. intros t Ht. apply firstn_incl in Ht.
    apply (Permutation_in _ Hperm) in Ht.
    apply in_map_iff in Ht as [e [<- He]].
    apply filter_In in He as [_ He]. rewrite theme_result_count.
    now apply Nat.ltb_lt in He. }
  split.
  { apply StronglySorted_firstn, sorted_desc_then.
    apply (StronglySorted_map
             (fun a b => (taxonomy_rank a < taxonomy_rank b)%nat) name).
    unfold results. rewrite map_map.
    rewrite (map_ext _ (fun e => fst (fst e)) theme_result_name).
    apply StronglySorted_map_inv, StronglySorted_filter.
    apply (StronglySorted_map
             (fun a b => (taxonomy_rank a < taxonomy_rank b)%nat)
             (fun e : pystr * list pystr * ThemeAcc => fst (fst e))).
    rewrite <- (map_map fst fst), theme_totals_names.
    exact taxonomy_ranked. }
  exists (Py.sorted_desc key results). split; [reflexivity|].
  rewrite Hperm. unfold results. rewrite map_map.
  rewrite (map_ext _ (fun e => fst (fst e)) theme_result_name).
  reflexivity.
Qed.

(** ** Sentiment distribution *)

Lemma round_half_even_near (y : Q) :
  (inject_Z (Py.round_half_even y) - (1 # 2) <= y
   /\ y <= inject_Z (Py.round_half_even y) + (1 # 2))%Q.
Proof.
  unfold Py.round_half_even.
  pose proof (Qfloor_le y) as Hlo. pose proof (Qlt_floor y) as Hhi.
  rewrite inject_Z_plus in Hhi.
  generalize dependent (Qfloor y). intros f Hlo Hhi.
  destruct (Qcompare_spec (y - inject_Z f) (1 # 2)) as [E|E|E];
    [destruct (Z.even f)| |];
    rewrite ?inject_Z_plus; change (inject_Z 1) with 1%Q in *; split; lra.
Qed.

(** *** The floats *)

Lemma pow2_pos (e : Z) : (0 < Py.pow2 e)%Q.
Proof. apply Qpower_0_lt. reflexivity. Qed.

Lemma pow2_le (a b : Z) : (a <= b)%Z -> (Py.pow2 a <= Py.pow2 b)%Q.
Proof. intros H. apply Qpower_le_compat_l; [exact H|discriminate]. Qed.

Lemma pow2_lt_inv (a b : Z) : (Py.pow2 a < Py.pow2 b)%Q -> (a < b)%Z.
Proof. intros H. apply (Qpower_lt_compat_l_inv 2); [exact H|reflexivity]. Qed.

Lemma pow2_succ (e : Z) : (Py.pow2 (e + 1) == 2 * Py.pow2 e)%Q.
Proof.
  unfold Py.pow2. rewrite Qpower_plus by discriminate.
  rewrite Qmult_comm. reflexivity.
Qed.

Lemma pow2_Z (n : Z) : (0 <= n)%Z -> (Py.pow2 n == inject_Z (2 ^ n))%Q.
Proof. intros H. unfold Py.pow2. rewrite Zpower_Qpower by exact H. reflexivity. Qed.

Lemma pow2_sub (a b : Z) : (Py.pow2 (a - b) == Py.pow2 a / Py.pow2 b)%Q.
Proof. unfold Py.pow2. apply Qpower_minus. discriminate. Qed.

Lemma inject_Z_pos (z : Z) : (0 < z)%Z -> (0 < inject_Z z)%Q.
Proof. intros H. unfold Qlt. simpl. lia. Qed.

(** The quotient of two positive integers against the powers of two
    around the difference of their bit lengths. *)
Lemma log2_quotient (n d : Z) :
  (0 < n)%Z -> (0 < d)%Z ->
  (Py.pow2 (Z.log2 n - Z.log2 d - 1) <= inject_Z n / inject_Z d
   /\ inject_Z n / inject_Z d < Py.pow2 (Z.log2 n - Z.log2 d + 1))%Q.
Proof.
  intros Hn Hd.
  destruct (Z.log2_spec n Hn) as [N1 N2]. destruct (Z.log2_spec d Hd) as [D1 D2].
  pose proof (Z.log2_nonneg n) as Ln. pose proof (Z.log2_nonneg d) as Ld.
  assert (Qd : (0 < inject_Z d)%Q) by (apply inject_Z_pos; exact Hd).
  replace (Z.log2 n - Z.log2 d - 1)%Z with (Z.log2 n - Z.succ (Z.log2 d))%Z
    by lia.
  replace (Z.log2 n - Z.log2 d + 1)%Z with (Z.succ (Z.log2 n) - Z.log2 d)%Z
    by lia.
  rewrite !pow2_sub, !pow2_Z by lia.
  assert (P1 : (0 < inject_Z (2 ^ Z.succ (Z.log2 d)))%Q)
    by (apply inject_Z_pos; lia).
  assert (P2 : (0 < inject_Z (2 ^ Z.log2 d))%Q)
    by (apply inject_Z_pos; lia).
  rewrite Zle_Qle in N1, D1. rewrite Zlt_Qlt in N2, D2.
  split.
  - apply Qle_shift_div_l; [exact Qd|].
    assert (E : (inject_Z (2 ^ Z.log2 n) / inject_Z (2 ^ Z.succ (Z.log2 d))
                 * inject_Z d
                 == inject_Z (2 ^ Z.log2 n)
                    * (inject_Z d / inject_Z (2 ^ Z.succ (Z.log2 d))))%Q)
      by (field; lra).
    rewrite E.
    assert (F : (inject_Z d / inject_Z (2 ^ Z.succ (Z.log2 d)) <= 1)%Q)
      by (apply Qle_shift_div_r; [exact P1|lra]).
    assert (G : (0 < inject_Z (2 ^ Z.log2 n))%Q)
      by (apply inject_Z_pos; lia).
    nra.
  - apply Qlt_shift_div_r; [exact Qd|].
    assert (E : (inject_Z (2 ^ Z.succ (Z.log2 n)) / inject_Z (2 ^ Z.log2 d)
                 * inject_Z d
                 == inject_Z (2 ^ Z.succ (Z.log2 n))
                    * (inject_Z d / inject_Z (2 ^ Z.log2 d)))%Q)
      by (field; lra).
    rewrite E.
    assert (F : (1 <= inject_Z d / inject_Z (2 ^ Z.log2 d))%Q)
      by (apply Qle_shift_div_l; [exact P2|lra]).
    assert (G : (0 < inject_Z (2 ^ Z.succ (Z.log2 n)))%Q)
      by (apply inject_Z_pos; lia).
    nra.
Qed.

Lemma Qabs_quotient (q : Q) :
  (Qabs q == inject_Z (Z.abs (Qnum q)) / inject_Z (Z.pos (Qden q)))%Q.
Proof.
  destruct q as [n d]. unfold Qabs. cbn [Qnum Qden].
  rewrite (Qmake_Qdiv (Z.abs n) d). reflexivity.
Qed.

Lemma ilog2_spec (q : Q) :
  ~ (q == 0)%Q ->
  (Py.pow2 (Py.ilog2 q) <= Qabs q /\ Qabs q < Py.pow2 (Py.ilog2 q + 1))%Q.
Proof.
  intros Hq. unfold Py.ilog2.
  assert (Hn : (0 < Z.abs (Qnum q))%Z).
  { destruct q as [[|n|n] d]; [exfalso; apply Hq; reflexivity|reflexivity..]. }
  pose proof (log2_quotient (Z.abs (Qnum q)) (Z.pos (Qden q)) Hn eq_refl)
    as [L U].
  rewrite <- Qabs_quotient in L, U.
  set (e := (Z.log2 (Z.abs (Qnum q)) - Z.log2 (Z.pos (Qden q)))%Z) in *.
  destruct (Qle_bool (Py.pow2 e) (Qabs q)) eqn:B.
  - apply Qle_bool_iff in B. split; assumption.
  - replace (e - 1 + 1)%Z with e by lia. split; [exact L|].
    apply Qnot_le_lt. intros H. apply Qle_bool_iff in H. congruence.
Qed.

Lemma round64_near (q : Q) (k : Z) :
  (-1021 <= k)%Z -> (Qabs q < Py.pow2 k)%Q ->
  (Qabs (Py.round64 q - q) <= Py.pow2 (k - 54))%Q.
Proof.
  intros Hk Hq. unfold Py.round64.
  destruct (Qeq_bool q 0) eqn:Z0.
  - apply Qeq_bool_iff in Z0. rewrite Z0.
    apply Qlt_le_weak. apply (Qle_lt_trans _ 0); [|apply pow2_pos].
    apply Qabs_Qle_condition. split; discriminate.
  - assert (Hn : ~ (q == 0)%Q).
    { intros H. apply Qeq_bool_iff in H. congruence. }
    destruct (ilog2_spec q Hn) as [L _].
    assert (Hi : (Py.ilog2 q < k)%Z)
      by (apply pow2_lt_inv; eapply Qle_lt_trans; eauto).
    set (e := Z.max (Py.ilog2 q - 52) (-1074)).
    assert (He : (e <= k - 53)%Z) by (unfold e; lia).
    pose proof (round_half_even_near (q / Py.pow2 e)) as [H1 H2].
    pose proof (pow2_pos e) as Pe.
    assert (Hs : (Py.pow2 (k - 54) == (1 # 2) * Py.pow2 (k - 53))%Q).
    { replace (k - 53)%Z with (k - 54 + 1)%Z by lia. rewrite pow2_succ.
      field. }
    pose proof (pow2_le e (k - 53) He) as Hle.
    set (r := inject_Z (Py.round_half_even (q / Py.pow2 e))) in *.
    assert (Hy : (q == q / Py.pow2 e * Py.pow2 e)%Q) by (field; lra).
    set (y := (q / Py.pow2 e)%Q) in *.
    assert (A1 : ((r - y) * Py.pow2 e <= (1 # 2) * Py.pow2 e)%Q)
      by (apply Qmult_le_compat_r; lra).
    assert (A2 : ((y - r) * Py.pow2 e <= (1 # 2) * Py.pow2 e)%Q)
      by (apply Qmult_le_compat_r; lra).
    rewrite Hs. apply Qabs_Qle_condition.
    set (pe := Py.pow2 e) in *. set (P := Py.pow2 (k - 53)) in *.
    clearbody pe P r y. clear Hs L Hq Hi He Hn Z0 Hk. split; lra.
Qed.

(** *** The percentages *)

Lemma count_labels (posts : list AnalyzedPost) :
  (count_label positive posts + count_label neutral posts
   + count_label negative posts = length posts)%nat.
Proof.
  unfold count_label. induction posts as [|p posts IH]; simpl; [reflexivity|].
  destruct (label (sentiment p)); simpl; lia.
Qed.

Lemma pow2_values :
  (Py.pow2 1 == 2 /\ Py.pow2 7 == 128
   /\ Py.pow2 (-53) == 1 # 9007199254740992
   /\ Py.pow2 (-47) == 1 # 140737488355328
   /\ Py.pow2 (-45) == 1 # 35184372088832)%Q.
Proof. repeat split; reflexivity. Qed.

Lemma Qabs_bound (x b : Q) : (Qabs x <= b <-> - b <= x /\ x <= b)%Q.
Proof. apply Qabs_Qle_condition. Qed.

(** One percentage of [calculate_sentiment_distribution], step by step:
    the float [x] before the rounding to one decimal, the number [d] of
    tenths that the rounding chooses, and the float returned. *)
Lemma float_percentage (c n : Z) :
  (0 <= c <= n)%Z -> (0 < n)%Z ->
  let share := (inject_Z c / inject_Z n)%Q in
  let x := Py.float_mul (Py.truediv c n) 100 in
  let d := Py.round_half_even (x * 10) in
  (Qabs (x - share * 100) <= 1 # 10000000000000)%Q
  /\ (Qabs (inject_Z d - x * 10) <= 1 # 2)%Q
  /\ (Qabs (Py.float_round1 x - inject_Z d / 10) <= Py.pow2 (-47))%Q.
Proof.
  intros Hc Hn share x d.
  destruct pow2_values as [V1 [V7 [V53 [V47 _]]]].
  assert (Qn : (0 < inject_Z n)%Q) by (apply inject_Z_pos; exact Hn).
  assert (Hs : (0 <= share /\ share <= 1)%Q).
  { unfold share. split.
    - apply Qle_shift_div_l; [exact Qn|]. rewrite Qmult_0_l.
      change 0%Q with (inject_Z 0). rewrite <- Zle_Qle. lia.
    - apply Qle_shift_div_r; [exact Qn|]. rewrite Qmult_1_l.
      rewrite <- Zle_Qle. lia. }
  (* the quotient *)
  assert (Hf : (Qabs (Py.truediv c n - share) <= Py.pow2 (-53))%Q).
  { unfold Py.truediv. fold share.
    apply (round64_near share 1); [lia|].
    rewrite V1. apply Qabs_Qlt_condition. split; lra. }
  rewrite V53 in Hf. apply Qabs_bound in Hf.
  set (f := Py.truediv c n) in *.
  (* the product *)
  assert (Hx : (Qabs (x - f * 100) <= Py.pow2 (-47))%Q).
  { unfold x, Py.float_mul. apply (round64_near (f * 100) 7); [lia|].
    rewrite V7. apply Qabs_Qlt_condition. split; lra. }
  rewrite V47 in Hx. apply Qabs_bound in Hx.
  assert (H1 : (Qabs (x - share * 100) <= 1 # 10000000000000)%Q)
    by (apply Qabs_bound; split; lra).
  split; [exact H1|]. apply Qabs_bound in H1.
  (* the tenths *)
  pose proof (round_half_even_near (x * 10)) as [D1 D2]. fold d in D1, D2.
  split; [apply Qabs_bound; split; lra|].
  (* the float of the decimal *)
  unfold Py.float_round1. fold d.
  apply (round64_near (inject_Z d / 10) 7); [lia|].
  rewrite V7. apply Qabs_Qlt_condition.
  split.
  - apply Qlt_shift_div_l; [reflexivity|]. lra.
  - apply Qlt_shift_div_r; [reflexivity|]. lra.
Qed.

(** Three shares of a whole: the percentages that the floats give add
    up to 100 within a tenth and the distance of three floats from the
    decimals they stand for. *)
Lemma three_float_percentages (a b c t : Z) :
  (0 <= a)%Z -> (0 <= b)%Z -> (0 <= c)%Z -> (0 < t)%Z -> (a + b + c = t)%Z ->
  let pct k := Py.float_round1 (Py.float_mul (Py.truediv k t) 100) in
  (Qabs (pct a + pct b + pct c - 100) <= (1 # 10) + 3 * Py.pow2 (-47))%Q.
Proof.
  intros Ha Hb Hc Ht Hsum pct.
  destruct pow2_values as [_ [_ [_ [V47 _]]]].
  destruct (float_percentage a t ltac:(lia) Ht) as [A1 [A2 A3]].
  destruct (float_percentage b t ltac:(lia) Ht) as [B1 [B2 B3]].
  destruct (float_percentage c t ltac:(lia) Ht) as [C1 [C2 C3]].
  cbv zeta in *. fold (pct a) in A3. fold (pct b) in B3. fold (pct c) in C3.
  set (xa := Py.float_mul (Py.truediv a t) 100) in *.
  set (xb := Py.float_mul (Py.truediv b t) 100) in *.
  set (xc := Py.float_mul (Py.truediv c t) 100) in *.
  set (da := Py.round_half_even (xa * 10)) in *.
  set (db := Py.round_half_even (xb * 10)) in *.
  set (dc := Py.round_half_even (xc * 10)) in *.
  assert (Hy : (inject_Z a / inject_Z t * 100 + inject_Z b / inject_Z t * 100
                + inject_Z c / inject_Z t * 100 == 100)%Q).
  { rewrite <- Hsum, !inject_Z_plus.
    assert (H : (~ inject_Z (a + b + c) == 0)%Q).
    { rewrite Hsum. change 0%Q with (inject_Z 0).
      rewrite inject_Z_injective. lia. }
    rewrite !inject_Z_plus in H. field. exact H. }
  set (ya := (inject_Z a / inject_Z t * 100)%Q) in *.
  set (yb := (inject_Z b / inject_Z t * 100)%Q) in *.
  set (yc := (inject_Z c / inject_Z t * 100)%Q) in *.
  rewrite V47 in *.
  apply Qabs_bound in A1, A2, A3, B1, B2, B3, C1, C2, C3.
  assert (Hk : (999 <= da + db + dc <= 1001)%Z).
  { assert (H1 : (inject_Z (da + db + dc) < 1002)%Q)
      by (rewrite !inject_Z_plus; lra).
    assert (H2 : (998 < inject_Z (da + db + dc))%Q)
      by (rewrite !inject_Z_plus; lra).
    unfold Qlt in H1, H2. simpl in H1, H2. lia. }
  assert (Hq : (inject_Z 999 <= inject_Z (da + db + dc)
                /\ inject_Z (da + db + dc) <= inject_Z 1001)%Q)
    by (rewrite <- !Zle_Qle; exact Hk).
  rewrite !inject_Z_plus in Hq.
  change (inject_Z 999) with 999%Q in Hq.
  change (inject_Z 1001) with 1001%Q in Hq.
  assert (Ea : (inject_Z da / 10 == (1 # 10) * inject_Z da)%Q) by field.
  assert (Eb : (inject_Z db / 10 == (1 # 10) * inject_Z db)%Q) by field.
  assert (Ec : (inject_Z dc / 10 == (1 # 10) * inject_Z dc)%Q) by field.
  rewrite Ea in A3. rewrite Eb in B3. rewrite Ec in C3.
  apply Qabs_bound. split; lra.
Qed.

(** C10, as the code has it.  For a batch with at least one post, each
    of the three percentages is the float nearest to a number of tenths
    that is within 0.05 of the exact share of its label (up to the error
    of the floats, below 10^-13), and the three add up to 100 within 0.1
    plus the distance of three floats from their tenths, 3 * 2^-47; for
    the empty batch all three are zero. *)
Theorem distribution_sums_near_100 (p : AnalyzedPost)
    (posts : list AnalyzedPost) :
  (let batch := p :: posts in
   let d := calculate_sentiment_distribution_binary64 batch in
   (Qabs (pct_positive d + pct_neutral d + pct_negative d - 100)
    <= (1 # 10) + 3 * Py.pow2 (-47))%Q
   /\ Forall (fun lv : Label * Q =>
                exists tenths : Z,
                  snd lv = Py.round64 (inject_Z tenths / 10)
                  /\ (Qabs (inject_Z tenths / 10 - exact_pct (fst lv) batch)
                      <= (1 # 20) + (1 # 10000000000000))%Q)
        [(positive, pct_positive d); (neutral, pct_neutral d);
         (negative, pct_negative d)])
  /\ (let d := calculate_sentiment_distribution_binary64 [] in
      (pct_positive d == 0 /\ pct_neutral d == 0 /\ pct_negative d == 0)%Q).
Proof.
  split; [|simpl; repeat split; reflexivity].
  intros batch d. subst d. unfold calculate_sentiment_distribution_binary64.
  cbn [batch pct_positive pct_neutral pct_negative]. fold batch.
  assert (Hn : (0 < Z.of_nat (length batch))%Z) by (unfold batch; simpl; lia).
  pose proof (count_labels batch) as Hsum.
  split.
  - apply three_float_percentages; try lia.
  - assert (H : forall l : Label,
              exists tenths : Z,
                Py.float_round1
                  (Py.float_mul
                     (Py.truediv (Z.of_nat (count_label l batch))
                        (Z.of_nat (length batch))) 100)
                = Py.round64 (inject_Z tenths / 10)
                /\ (Qabs (inject_Z tenths / 10 - exact_pct l batch)
                    <= (1 # 20) + (1 # 10000000000000))%Q).
    { intros l.
      assert (Hc : (0 <= Z.of_nat (count_label l batch)
                    <= Z.of_nat (length batch))%Z).
      { destruct l; lia. }
      destruct (float_percentage _ _ Hc Hn) as [A1 [A2 _]]. cbv zeta in A1, A2.
      eexists. split; [reflexivity|]. unfold exact_pct.
      set (x := Py.float_mul _ 100) in *.
      set (k := inject_Z (Py.round_half_even (x * 10))) in *.
      set (y := (inject_Z (Z.of_nat (count_label l batch))
                 / inject_Z (Z.of_nat (length batch)) * 100)%Q) in *.
      assert (E : (k / 10 == (1 # 10) * k)%Q) by field.
      rewrite E. apply Qabs_bound in A1, A2. apply Qabs_bound.
      split; lra. }
    repeat constructor; apply H.
Qed.

(** C10, refuted as stated: for one positive, one negative and one
    neutral post (scenario A of the specification) each percentage is the
    float 33.3, which is below 33.3, and the three add up to less than
    99.9. *)
Lemma distribution_misses_tolerance :
  let post := fun (t : string) (l : Label) =>
    {| post_id := []; title := u t; body := []; post_comments := [];
       post_score := 1%Z; post_num_comments := 0%Z;
       sentiment := {| label := l; sent_score := 0%R; raw_score := 0%R |};
       impact_score := 1%Z |} in
  let d :=
    calculate_sentiment_distribution_binary64
      [post "Love this camera, amazing quality"%string positive;
       post "Terrible battery, crashes constantly, waste of money"%string
         negative;
       post "Just unboxed my new phone"%string neutral] in
  (pct_positive d == 2343279181116211 # 70368744177664)%Q
  /\ (pct_positive d < 333 # 10)%Q
  /\ (1 # 10 < Qabs (pct_positive d + pct_neutral d + pct_negative d - 100))%Q.
Proof. vm_compute. repeat split; reflexivity. Qed.

(** ** The comment cap of [process_post] *)

Lemma comment_loop (T : Unicode.tables) (comments : list RedditComment)
    (texts : list pystr) (total count : nat) :
  exists kept : list pystr,
    fold_left (comment_step T) comments (texts, total, count)
    = (texts ++ kept, (total + total_length kept)%nat,
       (count + length kept)%nat)
    /\ first_fit MAX_COMMENTS_LENGTH total
         (map (fun c => clean_text T (c_body c)) comments) kept.
Proof.
  revert texts total count.
  induction comments as [|c comments IH]; intros texts total count.
  - exists []. simpl. rewrite app_nil_r, !Nat.add_0_r.
    split; [reflexivity|constructor].
  - cbn [fold_left].
    destruct (clean_text T (c_body c)) as [|x cleaned] eqn:E.
    + assert (S : comment_step T (texts, total, count) c
                  = (texts, total, count))
        by (unfold comment_step; rewrite E; reflexivity).
      rewrite S. destruct (IH texts total count) as [kept [H1 H2]].
      exists kept. split; [exact H1|].
      simpl. rewrite E. apply ff_drop; [left; reflexivity|exact H2].
    + destruct (total + length (x :: cleaned) <? MAX_COMMENTS_LENGTH)%nat
        eqn:F.
      * assert (S : comment_step T (texts, total, count) c
                    = (texts ++ [x :: cleaned],
                       (total + length (x :: cleaned))%nat, S count))
          by (unfold comment_step; rewrite E, F; reflexivity).
        rewrite S. apply Nat.ltb_lt in F.
        destruct (IH (texts ++ [x :: cleaned])
                     (total + length (x :: cleaned))%nat (Datatypes.S count))
          as [kept [H1 H2]].
        exists ((x :: cleaned) :: kept). split.
        -- rewrite H1. rewrite <- app_assoc. simpl app.
           unfold total_length. simpl. f_equal; [f_equal|]; lia.
        -- simpl map. rewrite E.
           apply ff_keep; [discriminate|exact F|exact H2].
      * assert (S : comment_step T (texts, total, count) c
                    = (texts, total, count))
          by (unfold comment_step; rewrite E, F; reflexivity).
        rewrite S. apply Nat.ltb_ge in F.
        destruct (IH texts total count) as [kept [H1 H2]].
        exists kept. split; [exact H1|].
        simpl map. rewrite E. apply ff_drop; [right; exact F|exact H2].
Qed.

Lemma first_fit_below (cap total : nat) (l kept : list pystr) :
  first_fit cap total l kept -> (total < cap)%nat ->
  (total + total_length kept < cap)%nat
  /\ (length kept <= total_length kept)%nat.
Proof.
  induction 1 as [total|total c l kept Hc Hlt Hff IH|total c l kept Hc Hff IH];
    intros Ht.
  - unfold total_length; simpl. lia.
  - destruct (IH Hlt) as [H1 H2]. unfold total_length in *. simpl.
    destruct c as [|x c]; [congruence|]. simpl in *. lia.
  - exact (IH Ht).
Qed.

Lemma length_join (sep : pystr) (l : list pystr) :
  length (join sep l)
  = (total_length l + length sep * (length l - 1))%nat.
Proof.
  unfold total_length.
  induction l as [|x [|y l] IH]; simpl in *; [lia|lia|].
  rewrite !length_app, IH. simpl. lia.
Qed.

(** C6, as the code has it.  The comments kept by [process_post] are the
    greedy first-fit selection of the cleaned comments under the cap of
    2000, whole and in order; their summed length, the separators not
    counted, is below 2000; [cleaned_comments] joins them with the
    3-character separator, which the cap does not count, so its length is
    that sum plus 3 per separator and at most 1999 + 3 * 1998. *)
Theorem comments_first_fit (T : Unicode.tables) (post : RedditPost) :
  exists kept : list pystr,
    first_fit MAX_COMMENTS_LENGTH 0
      (map (fun c => clean_text T (c_body c)) (r_comments post)) kept
    /\ cleaned_comments (process_post T post) = join (u " | ") kept
    /\ comment_count (process_post T post) = length kept
    /\ (total_length kept < MAX_COMMENTS_LENGTH)%nat
    /\ length (cleaned_comments (process_post T post))
       = (total_length kept + 3 * (length kept - 1))%nat
    /\ (length (cleaned_comments (process_post T post))
        <= 1999 + 3 * 1998)%nat.
Proof.
  destruct (comment_loop T (r_comments post) [] 0 0) as [kept [H1 H2]].
  exists kept.
  assert (Hc : cleaned_comments (process_post T post) = join (u " | ") kept
               /\ comment_count (process_post T post) = length kept).
  { unfold process_post.
    destruct (r_comments post) as [|c comments] eqn:E.
    - simpl in H1. injection H1 as <- _ _. split; reflexivity.
    - rewrite H1. split; reflexivity. }
  destruct Hc as [Hc1 Hc2].
  destruct (first_fit_below _ _ _ _ H2) as [H3 H4];
    [unfold MAX_COMMENTS_LENGTH; lia|].
  assert (Hlen : length (cleaned_comments (process_post T post))
                 = (total_length kept + 3 * (length kept - 1))%nat).
  { rewrite Hc1, length_join. reflexivity. }
  repeat split; try assumption.
  rewrite Hlen. unfold MAX_COMMENTS_LENGTH in H3. lia.
Qed.

(** C6, refuted as stated: two comments of 999 characters each are both
    kept (999 + 999 < 2000), and joined with the separator they make a
    [cleaned_comments] of 2001 characters. *)
Lemma comments_exceed_cap :
  let comment :=
    {| c_id := u "c"; c_body := repeat 97%N 999; c_score := 1%Z;
       c_author := u "a" |} in
  let post :=
    {| r_id := u "p"; r_title := u "Battery drain"; r_selftext := [];
       r_score := 1%Z; r_num_comments := 2%Z; r_created_utc := 0%Q;
       r_comments := [comment; comment] |} in
  length (cleaned_comments (process_post Unicode.ascii post)) = 2001%nat
  /\ comment_count (process_post Unicode.ascii post) = 2%nat.
Proof. vm_compute. split; reflexivity. Qed.

(** ** Mention counts *)

Lemma startswith_spec (p s : pystr) :
  startswith p s = true <-> exists suf, s = p ++ suf.
Proof.
  revert s. induction p as [|a p IH]; intros s; simpl.
  - split; [intros _; exists s; reflexivity|reflexivity].
  - destruct s as [|b s].
    + split; [discriminate|intros [suf H]; discriminate].
    + rewrite andb_true_iff, N.eqb_eq, IH. split.
      * intros [-> [suf ->]]. exists suf. reflexivity.
      * intros [suf H]. injection H as -> ->. split; [reflexivity|].
        exists suf. reflexivity.
Qed.

(** [kw in text] is the substring test. *)
Lemma contains_spec (p s : pystr) :
  contains p s = true <-> substring p s.
Proof.
  unfold substring. induction s as [|b s IH]; simpl.
  - rewrite orb_false_r, startswith_spec. split.
    + intros [suf H]. exists [], suf. exact H.
    + intros [[|x pre] [suf H]]; [exists suf; exact H|discriminate].
  - rewrite orb_true_iff, startswith_spec, IH. split.
    + intros [[suf H]|[pre [suf H]]].
      * exists [], suf. exact H.
      * exists (b :: pre), suf. rewrite H. reflexivity.
    + intros [[|x pre] [suf H]].
      * left. exists suf. exact H.
      * right. injection H as -> ->. exists pre, suf. reflexivity.
Qed.

Lemma theme_step_count (post : AnalyzedPost) (text : pystr)
    (e : pystr * list pystr * ThemeAcc) :
  acc_count (snd (theme_step post text e))
  = (acc_count (snd e) + keyword_matches (snd (fst e)) text)%nat.
Proof.
  destruct e as [[theme keywords] a]. unfold theme_step.
  destruct (0 <? keyword_matches keywords text)%nat eqn:E; simpl.
  - reflexivity.
  - apply Nat.ltb_ge in E. lia.
Qed.

Lemma theme_loop_counts (T : Unicode.tables) (posts : list AnalyzedPost)
    (st : list (pystr * list pystr * ThemeAcc)) :
  map (fun e => (fst e, acc_count (snd e))) (fold_left (post_step T) posts st)
  = map (fun e => (fst e,
                   (acc_count (snd e) + keyword_hits T (snd (fst e)) posts)%nat))
        st.
Proof.
  revert st. induction posts as [|p posts IH]; intros st; simpl.
  - apply map_ext. intros e. unfold keyword_hits. simpl. f_equal. lia.
  - rewrite IH. unfold post_step. rewrite map_map. apply map_ext.
    intros e. rewrite theme_step_name, theme_step_count.
    unfold keyword_hits. simpl. f_equal. lia.
Qed.

Lemma theme_totals_counts (T : Unicode.tables) (posts : list AnalyzedPost) :
  map (fun e => (fst e, acc_count (snd e))) (theme_totals T posts)
  = map (fun tk => (tk, keyword_hits T (snd tk) posts)) THEME_KEYWORDS.
Proof.
  unfold theme_totals. rewrite theme_loop_counts, map_map.
  apply map_ext. intros [n k]. reflexivity.
Qed.

Lemma theme_totals_comments (T : Unicode.tables) (c : pystr)
    (posts : list AnalyzedPost) :
  theme_totals T (map (with_comments c) posts) = theme_totals T posts.
Proof.
  unfold theme_totals. generalize (map (fun tk : pystr * list pystr =>
                                          (fst tk, snd tk, acc_init))
                                       THEME_KEYWORDS).
  induction posts as [|p posts IH]; intros st; simpl; [reflexivity|].
  rewrite IH. reflexivity.
Qed.

(** C5, as the code has it.  The mention count of every returned theme is
    the number of pairs of a post and a keyword of the theme such that the
    keyword occurs (at least once, as a substring) in the lower-cased
    title, space, body of the post: a keyword that is repeated in one post
    counts once for it.  Comments play no part. *)
Theorem theme_mention_count (T : Unicode.tables)
    (analyzed_posts : list AnalyzedPost) :
  Forall (fun t =>
            exists keywords : list pystr,
              In (name t, keywords) THEME_KEYWORDS
              /\ count t = keyword_hits T keywords analyzed_posts)
         (extract_themes T analyzed_posts)
  /\ (forall post : AnalyzedPost,
        theme_text T post
        = Unicode.lower T (title post ++ u " " ++ body post))
  /\ (forall keywords text,
        keyword_matches keywords text
        = length (filter (fun kw => contains kw text) keywords))
  /\ (forall kw text, contains kw text = true <-> substring kw text)
  /\ (forall c : pystr,
        extract_themes T (map (with_comments c) analyzed_posts)
        = extract_themes T analyzed_posts).
Proof.
  split; [|split; [reflexivity|split; [reflexivity|split]]].
  - rewrite Forall_forall. intros t Ht. unfold extract_themes in Ht.
    apply firstn_incl in Ht.
    apply (Permutation_in _ (sorted_desc_perm _ _)) in Ht.
    apply in_map_iff in Ht as [e [<- He]].
    apply filter_In in He as [He _].
    apply (in_map (fun e => (fst e, acc_count (snd e)))) in He.
    rewrite theme_totals_counts in He.
    apply in_map_iff in He as [[n k] [E Hk]]. simpl in E.
    exists k. rewrite theme_result_name, theme_result_count.
    injection E as E1 E2. rewrite <- E1. simpl. split; [exact Hk|].
    symmetry. exact E2.
  - exact contains_spec.
  - intros c. unfold extract_themes. rewrite theme_totals_comments.
    reflexivity.
Qed.

(** C5, refuted as stated: in a post titled "battery battery" the keyword
    occurs twice, and the theme's mention count is 1. *)
Lemma repeated_keyword_counts_once :
  let post :=
    {| post_id := u "p"; title := u "battery battery"; body := [];
       post_comments := []; post_score := 1%Z; post_num_comments := 0%Z;
       sentiment := {| label := neutral; sent_score := 0%R;
                       raw_score := 0%R |};
       impact_score := 1%Z |} in
  map (fun t => (name t, count t)) (extract_themes Unicode.ascii [post])
  = [(u "Battery & Power", 1%nat)]
  /\ option_map (fun keywords =>
                   keyword_occurrences Unicode.ascii keywords [post])
       (lookup (u "Battery & Power") THEME_KEYWORDS)
     = Some 2%nat.
Proof. vm_compute. split; reflexivity. Qed.

(** ** Confidence of a sentiment result *)

Lemma lookup_Forall {V} (P : V -> Prop) (k : pystr) (d : list (pystr * V))
    (v : V) :
  Forall (fun kv => P (snd kv)) d -> lookup k d = Some v -> P v.
Proof.
  induction 1 as [|[k' v'] d Hv Hd IH]; simpl; [discriminate|].
  destruct (PyStr.eqb k k'); [intros [= <-]; exact Hv|exact IH].
Qed.

Lemma lexicon_weights :
  Forall (fun kv => (-5 <= snd kv <= 5)%Z) SENTIMENT_LEXICON.
Proof.
  apply Forall_forall. intros kv Hkv.
  assert (H : forallb (fun kv => (-5 <=? snd kv)%Z && (snd kv <=? 5)%Z)
                SENTIMENT_LEXICON = true) by (vm_compute; reflexivity).
  rewrite forallb_forall in H. specialize (H kv Hkv).
  apply andb_true_iff in H as [H1 H2].
  apply Z.leb_le in H1, H2. lia.
Qed.

Lemma lexicon_loop_bound (words : list pystr) (score : Z) (n : nat) :
  let '(score', n') := fold_left lexicon_step words (score, n) in
  (n <= n')%nat
  /\ (Z.abs (score' - score) <= 5 * (Z.of_nat n' - Z.of_nat n))%Z.
Proof.
  revert score n.
  induction words as [|w words IH]; intros score n; cbn [fold_left].
  - split; lia.
  - unfold lexicon_step at 2. cbn [fst snd].
    destruct (lookup w SENTIMENT_LEXICON) as [v|] eqn:E.
    + pose proof (lookup_Forall (fun v => (-5 <= v <= 5)%Z) _ _ _
                    lexicon_weights E) as Hv.
      simpl in Hv.
      specialize (IH (score + v)%Z (S n)).
      destruct (fold_left lexicon_step words ((score + v)%Z, S n))
        as [score' n'].
      destruct IH as [H1 H2]. split; lia.
    + apply IH.
Qed.

Lemma lexicon_totals_bound (T : Unicode.tables) (text : pystr) :
  (Z.abs (fst (lexicon_totals T text))
   <= 5 * Z.of_nat (snd (lexicon_totals T text)))%Z.
Proof.
  unfold lexicon_totals.
  pose proof (lexicon_loop_bound
                (Re.findall (WORD T) (Unicode.lower T text)) 0%Z 0%nat) as H.
  destruct (fold_left lexicon_step _ (0%Z, 0%nat)) as [score n].
  cbn [fst snd]. destruct H as [_ H]. lia.
Qed.

Lemma lexicon_confidence (T : Unicode.tables) (text : pystr) :
  let r := analyze_sentiment_lexicon T text in
  let score := fst (lexicon_totals T text) in
  let n := snd (lexicon_totals T text) in
  (0 <= sent_score r)%R
  /\ (sent_score r * (5 * sqrt (INR n)) = Rabs (IZR score))%R
  /\ (sent_score r <= sqrt (INR n))%R.
Proof.
  intros r score n. subst r score n. unfold analyze_sentiment_lexicon.
  pose proof (lexicon_totals_bound T text) as Hb.
  destruct (lexicon_totals T text) as [score [|n]]; simpl fst in *;
    simpl snd in *; cbn [sent_score].
  - replace score with 0%Z by lia.
    rewrite Rabs_R0. simpl INR. rewrite sqrt_0. split; [lra|split; lra].
  - set (q := sqrt (INR (S n))).
    assert (Hn : (0 < INR (S n))%R) by (apply lt_0_INR; lia).
    assert (Hq : (0 < q)%R) by (apply sqrt_lt_R0; exact Hn).
    assert (Hqq : (q * q = INR (S n))%R) by (apply sqrt_sqrt; lra).
    assert (Hs : (Rabs (IZR score) <= 5 * INR (S n))%R).
    { rewrite <- abs_IZR, INR_IZR_INZ.
      replace 5%R with (IZR 5) by reflexivity.
      rewrite <- mult_IZR. apply IZR_le. exact Hb. }
    assert (E : (Rabs (IZR score / q) = Rabs (IZR score) / q)%R).
    { unfold Rdiv. rewrite Rabs_mult, (Rabs_right (/ q)); [reflexivity|].
      apply Rle_ge. left. apply Rinv_0_lt_compat. exact Hq. }
    rewrite E. split; [|split].
    + apply Rmult_le_pos; [|lra].
      apply Rmult_le_pos; [apply Rabs_pos|].
      left. apply Rinv_0_lt_compat. exact Hq.
    + field. lra.
    + apply (Rmult_le_reg_r (5 * q)); [lra|].
      replace (Rabs (IZR score) / q / 5 * (5 * q))%R
        with (Rabs (IZR score)) by (field; lra).
      replace (q * (5 * q))%R with (5 * (q * q))%R by ring.
      rewrite Hqq. exact Hs.
Qed.

Lemma ml_confidence (T : Unicode.tables) (a : analyzer) (text : pystr)
    (polarity_scores : pystr -> R) :
  bounded_scorers a -> vader_analyzer a = Some polarity_scores ->
  (0 <= sent_score (analyze_sentiment_ml T a text) <= 1)%R.
Proof.
  intros Hb Hv. unfold analyze_sentiment_ml. rewrite Hv.
  destruct (Hb text) as [H1 H2]. rewrite Hv in H1.
  destruct (textblob_ready a); [destruct (textblob_polarity a text)|];
    cbn [sent_score]; split; try apply Rabs_pos; apply Rabs_le; lra.
Qed.

(** C7 (the code at the failing inputs).  Under the lexicon strategy
    the confidence is |s| / (5 * sqrt n), for s the sum of the matched
    weights and n the number of matched words, and nothing keeps it
    within [0, 1]: whenever s * s > 25 * n it is greater than 1.  (The
    ensemble strategy, the other path, stays within [0, 1]:
    [ml_confidence].) *)
Theorem lexicon_confidence_exceeds_one (T : Unicode.tables) (a : analyzer)
    (text : pystr) :
  use_ml_models a = false \/ vader_analyzer a = None ->
  (25 * Z.of_nat (snd (lexicon_totals T text))
   < fst (lexicon_totals T text) * fst (lexicon_totals T text))%Z ->
  let r := analyze_sentiment T a text in
  (1 < sent_score r)%R
  /\ (sent_score r * (5 * sqrt (INR (snd (lexicon_totals T text))))
      = Rabs (IZR (fst (lexicon_totals T text))))%R.
Proof.
  intros Hs Hlt r.
  assert (E : r = analyze_sentiment_lexicon T text).
  { unfold r, analyze_sentiment.
    destruct Hs as [-> | ->]; [reflexivity|].
    destruct (use_ml_models a); reflexivity. }
  rewrite E. clear E r.
  destruct (lexicon_confidence T text) as [H0 [H1 _]]. cbv zeta in H0, H1.
  split; [|exact H1].
  set (s := fst (lexicon_totals T text)) in *.
  set (n := snd (lexicon_totals T text)) in *.
  set (c := sent_score (analyze_sentiment_lexicon T text)) in *.
  set (q := sqrt (INR n)) in *.
  assert (Hn : (0 <= INR n)%R) by apply pos_INR.
  assert (Hq : (0 <= q)%R) by apply sqrt_pos.
  assert (Hqq : (q * q = INR n)%R) by (apply sqrt_sqrt; exact Hn).
  assert (Hz : (25 * INR n < IZR s * IZR s)%R).
  { rewrite INR_IZR_INZ, <- !mult_IZR. apply IZR_lt. exact Hlt. }
  assert (Ha : (Rabs (IZR s) * Rabs (IZR s) = IZR s * IZR s)%R).
  { rewrite <- Rabs_mult. apply Rabs_right. nra. }
  pose proof (Rabs_pos (IZR s)) as Hp.
  set (m := Rabs (IZR s)) in *.
  destruct (Rle_or_lt c 1) as [L|L]; [exfalso|exact L].
  assert (Hm : (m <= 5 * q)%R) by nra.
  nra.
Qed.

(** The lexicon strategy on four words of weight 5. *)
Lemma lexicon_confidence_exceeds_one_witness :
  let r := analyze_sentiment Unicode.ascii lexicon_analyzer
             (u "Amazing, excellent, perfect, fantastic!") in
  (1 < sent_score r)%R.
Proof.
  intros r.
  apply (lexicon_confidence_exceeds_one Unicode.ascii lexicon_analyzer
           (u "Amazing, excellent, perfect, fantastic!")).
  - left. reflexivity.
  - vm_compute. reflexivity.
Defined.

(** The same text, evaluated: 20 / sqrt 4 = 10, a positive label with
    confidence 10 / 5 = 2. *)
Lemma lexicon_confidence_is_two :
  let r := analyze_sentiment Unicode.ascii lexicon_analyzer
             (u "Amazing, excellent, perfect, fantastic!") in
  label r = positive /\ sent_score r = 2%R.
Proof.
  assert (E : lexicon_totals Unicode.ascii
                (u "Amazing, excellent, perfect, fantastic!")
              = (20%Z, 4%nat)) by (vm_compute; reflexivity).
  cbv zeta. unfold analyze_sentiment, lexicon_analyzer.
  cbn [use_ml_models vader_analyzer].
  unfold analyze_sentiment_lexicon. rewrite E. cbn [label sent_score].
  assert (Hs : sqrt (INR 4) = 2%R).
  { replace (INR 4) with (2 * 2)%R by (simpl; ring).
    apply sqrt_square. lra. }
  rewrite Hs.
  replace (20 / 2)%R with 10%R by field.
  rewrite (Rabs_right 10) by lra.
  split; [|lra].
  unfold lexicon_label.
  destruct (Rlt_dec (1 / 2) 10) as [_|H]; [reflexivity|lra].
Qed.

(** ** The matcher *)

Section Matcher.
Import Re.

Lemma m_seq {A} (r1 r2 : regex) (prev : option N) (s : pystr)
    (k : option N -> pystr -> option A) :
  m (Seq r1 r2) prev s k = m r1 prev s (fun prev' s' => m r2 prev' s' k).
Proof. reflexivity. Qed.

Lemma m_chr {A} (p : N -> bool) (prev : option N) (s : pystr)
    (k : option N -> pystr -> option A) :
  m (Chr p) prev s k
  = match s with
    | c :: s' => if p c then k (Some c) s' else None
    | [] => None
    end.
Proof. reflexivity. Qed.

Lemma m_alt {A} (r1 r2 : regex) (prev : option N) (s : pystr)
    (k : option N -> pystr -> option A) :
  m (Alt r1 r2) prev s k
  = match m r1 prev s k with
    | Some x => Some x
    | None => m r2 prev s k
    end.
Proof. reflexivity. Qed.

Lemma star_chr_cons {A} (p : N -> bool) (prev : option N) (c : N) (s : pystr)
    (k : option N -> pystr -> option A) :
  m (Star (Chr p)) prev (c :: s) k
  = if p c then
      match m (Star (Chr p)) (Some c) s k with
      | Some x => Some x
      | None => k prev (c :: s)
      end
    else k prev (c :: s).
Proof.
  cbn [m length]. destruct (p c); [|reflexivity].
  assert (E : (length s <? S (length s))%nat = true)
    by (apply Nat.ltb_lt; lia).
  rewrite E. reflexivity.
Qed.

(** A successful match hands the continuation a suffix of the text. *)
Lemma m_inv {A} (r : regex) :
  forall (prev : option N) (s : pystr) (k : option N -> pystr -> option A)
         (x : A),
    m r prev s k = Some x ->
    exists prev' pre rest, s = pre ++ rest /\ k prev' rest = Some x.
Proof.
  induction r as [|p|r1 IH1 r2 IH2|r1 IH1 r2 IH2|r IH|w|];
    intros prev s k x H; cbn [m] in H.
  - exists prev, [], s. split; [reflexivity|exact H].
  - destruct s as [|c s]; [discriminate|].
    destruct (p c); [|discriminate].
    exists (Some c), [c], s. split; [reflexivity|exact H].
  - apply IH1 in H as [p1 [pre1 [rest1 [-> H]]]].
    apply IH2 in H as [p2 [pre2 [rest2 [-> H]]]].
    exists p2, (pre1 ++ pre2), rest2. rewrite app_assoc. split; [reflexivity|exact H].
  - destruct (m r1 prev s k) eqn:E.
    + injection H as ->. apply IH1 in E. exact E.
    + apply IH2 in H. exact H.
  - revert H. generalize (length s). intros n. revert prev s.
    induction n as [|n IHn]; intros prev s H.
    + exists prev, [], s. split; [reflexivity|exact H].
    + match type of H with
      | match ?M with _ => _ end = _ => destruct M eqn:E
      end.
      * injection H as ->. apply IH in E as [p1 [pre1 [rest1 [-> E]]]].
        destruct (length rest1 <? length (pre1 ++ rest1))%nat; [|discriminate].
        apply IHn in E as [p2 [pre2 [rest2 [-> E]]]].
        exists p2, (pre1 ++ pre2), rest2. rewrite app_assoc.
        split; [reflexivity|exact E].
      * exists prev, [], s. split; [reflexivity|exact H].
  - destruct (xorb _ _); [|discriminate].
    exists prev, [], s. split; [reflexivity|exact H].
  - destruct prev as [c|]; [destruct (c =? 10)%N; [|discriminate]|];
      [exists (Some c), [], s|exists (@None N), [], s];
      (split; [reflexivity|exact H]).
Qed.

Lemma m_ext {A} (r : regex) :
  forall (prev : option N) (s : pystr)
         (k1 k2 : option N -> pystr -> option A),
    (forall p t, k1 p t = k2 p t) -> m r prev s k1 = m r prev s k2.
Proof.
  induction r as [|p|r1 IH1 r2 IH2|r1 IH1 r2 IH2|r IH|w|];
    intros prev s k1 k2 Hk; cbn [m].
  - apply Hk.
  - destruct s as [|c s]; [reflexivity|]. destruct (p c); [apply Hk|reflexivity].
  - apply IH1. intros p t. apply IH2, Hk.
  - rewrite (IH1 prev s k1 k2 Hk), (IH2 prev s k1 k2 Hk). reflexivity.
  - generalize (length s). intros n. revert prev s.
    induction n as [|n IHn]; intros prev s; [apply Hk|].
    match goal with
    | |- match ?X with _ => _ end = match ?Y with _ => _ end =>
        assert (E : X = Y)
    end.
    { apply IH. intros p t.
      destruct (length t <? length s)%nat; [apply IHn|reflexivity]. }
    rewrite E, Hk. reflexivity.
  - destruct (xorb _ _); [apply Hk|reflexivity].
  - destruct prev as [c|]; [destruct (c =? 10)%N|]; try apply Hk; reflexivity.
Qed.

(** Success does not depend on what the continuation returns, only on
    where it succeeds. *)
Lemma m_mono {A B} (r : regex) :
  forall (prev : option N) (s : pystr)
         (k1 : option N -> pystr -> option A)
         (k2 : option N -> pystr -> option B) (x : A),
    (forall p t z, k1 p t = Some z -> exists y, k2 p t = Some y) ->
    m r prev s k1 = Some x -> exists y, m r prev s k2 = Some y.
Proof.
  induction r as [|p|r1 IH1 r2 IH2|r1 IH1 r2 IH2|r IH|w|];
    intros prev s k1 k2 x Hk H; cbn [m] in *.
  - eapply Hk, H.
  - destruct s as [|c s]; [discriminate|].
    destruct (p c); [eapply Hk, H|discriminate].
  - eapply IH1; [|exact H]. intros p t z Hz. eapply IH2; [exact Hk|exact Hz].
  - destruct (m r1 prev s k1) eqn:E1.
    + destruct (IH1 _ _ _ k2 _ Hk E1) as [y ->]. exists y. reflexivity.
    + destruct (IH2 _ _ _ k2 _ Hk H) as [y Hy].
      destruct (m r1 prev s k2) as [z|]; [exists z; reflexivity|].
      exists y. exact Hy.
  - revert H. generalize (length s). intros n. revert prev s x.
    induction n as [|n IHn]; intros prev s x H.
    + eapply Hk, H.
    + match type of H with
      | match ?M with _ => _ end = _ => destruct M eqn:E
      end.
      * injection H as ->.
        match goal with
        | |- exists y, match ?M with _ => _ end = _ =>
            assert (G : exists y, M = Some y)
        end.
        { eapply IH; [|exact E]. intros p t z Hz. cbv beta in *.
          destruct (length t <? length s)%nat; [|discriminate].
          eapply IHn, Hz. }
        destruct G as [y ->]. exists y. reflexivity.
      * destruct (Hk _ _ _ H) as [y Hy].
        match goal with
        | |- exists y, match ?M with _ => _ end = _ =>
            destruct M as [z|]
        end; [exists z; reflexivity|exists y; exact Hy].
  - destruct (xorb _ _); [eapply Hk, H|discriminate].
  - destruct prev as [c|]; [destruct (c =? 10)%N; [|discriminate]|];
      eapply Hk, H.
Qed.

(** Plain patterns do not look at the character before the match. *)
Lemma plain_prev {A} (r : regex) :
  plain r ->
  forall (p1 p2 : option N) (s : pystr)
         (k1 k2 : option N -> pystr -> option A),
    (forall q1 q2 t, k1 q1 t = k2 q2 t) ->
    m r p1 s k1 = m r p2 s k2.
Proof.
  induction 1 as [|p|r1 r2 _ IH1 _ IH2|r1 r2 _ IH1 _ IH2|p];
    intros p1 p2 s k1 k2 Hk.
  - apply Hk.
  - cbn [m]. destruct s as [|c s]; [reflexivity|].
    destruct (p c); [apply Hk|reflexivity].
  - cbn [m]. apply IH1. intros q1 q2 t. apply IH2, Hk.
  - cbn [m]. rewrite (IH1 p1 p2 s k1 k2 Hk), (IH2 p1 p2 s k1 k2 Hk).
    reflexivity.
  - revert p1 p2. induction s as [|c s IHs]; intros p1 p2.
    + apply Hk.
    + rewrite !star_chr_cons. rewrite (IHs (Some c) (Some c)).
      rewrite (Hk p1 p2). reflexivity.
Qed.

(** A solid pattern cannot match into white space, nor past it. *)
Lemma solid_app {A} (r : regex) :
  solid r ->
  forall (prev : option N) (a b : pystr)
         (k : option N -> pystr -> option A),
    headspace b ->
    m r prev (a ++ b) k = m r prev a (fun p a' => k p (a' ++ b)).
Proof.
  induction 1 as [|p Hp|r1 r2 _ IH1 _ IH2|r1 r2 _ IH1 _ IH2|p Hp];
    intros prev a b k Hb.
  - reflexivity.
  - cbn [m]. destruct a as [|c a]; [|reflexivity].
    destruct b as [|c b]; [reflexivity|]. simpl in *.
    rewrite (Hp c Hb). reflexivity.
  - cbn [m]. rewrite (IH1 prev a b _ Hb).
    apply m_ext. intros p t. apply IH2, Hb.
  - cbn [m]. rewrite (IH1 prev a b k Hb), (IH2 prev a b k Hb). reflexivity.
  - revert prev. induction a as [|c a IHa]; intros prev.
    + simpl app. destruct b as [|c b]; [reflexivity|]. simpl in Hb.
      rewrite star_chr_cons, (Hp c Hb). reflexivity.
    + simpl app. rewrite !star_chr_cons, IHa. reflexivity.
Qed.

(** A match of a plain pattern is still there when text is added after. *)
Lemma plain_app {A} (r : regex) :
  plain r ->
  forall (prev : option N) (a b : pystr)
         (k : option N -> pystr -> option A) (x : A),
    m r prev a (fun p a' => k p (a' ++ b)) = Some x ->
    exists y, m r prev (a ++ b) k = Some y.
Proof.
  induction 1 as [|p|r1 r2 _ IH1 _ IH2|r1 r2 _ IH1 _ IH2|p];
    intros prev a b k x H.
  - exists x. exact H.
  - cbn [m] in *. destruct a as [|c a]; [discriminate|]. simpl app. cbn [m].
    destruct (p c); [exists x; exact H|discriminate].
  - cbn [m] in *.
    destruct (m_mono r1 prev a
                (fun prev' s' => m r2 prev' s' (fun p a' => k p (a' ++ b)))
                (fun p a' => m r2 p (a' ++ b) k) x) as [y Hy];
      [|exact H|].
    + intros p t z Hz. eapply IH2, Hz.
    + exact (IH1 prev a b (fun p s' => m r2 p s' k) y Hy).
  - cbn [m] in *. destruct (m r1 prev a _) eqn:E1.
    + destruct (IH1 _ _ _ _ _ E1) as [y ->]. exists y. reflexivity.
    + destruct (IH2 _ _ _ _ _ H) as [y Hy].
      destruct (m r1 prev (a ++ b) k) as [z|]; [exists z; reflexivity|].
      exists y. exact Hy.
  - revert prev x H. induction a as [|c a IHa]; intros prev x H.
    + cbn [m length] in H. simpl app. destruct b as [|c b]; [exists x; exact H|].
      rewrite star_chr_cons. destruct (p c); [|exists x; exact H].
      destruct (m (Star (Chr p)) (Some c) b k) as [z|];
        [exists z; reflexivity|exists x; exact H].
    + simpl app. rewrite star_chr_cons in *. destruct (p c); [|exists x; exact H].
      destruct (m (Star (Chr p)) (Some c) a _) eqn:E.
      * destruct (IHa _ _ E) as [y ->]. exists y. reflexivity.
      * destruct (m (Star (Chr p)) (Some c) (a ++ b) k) as [z|];
          [exists z; reflexivity|exists x; exact H].
Qed.

Lemma solid_plain (r : regex) : solid r -> plain r.
Proof. induction 1; constructor; assumption. Qed.


(** What a greedy repetition of one class leaves, when nothing follows
    it in the pattern. *)
Lemma star_chr_final (p : N -> bool) (prev : option N) (s : pystr) :
  exists rest,
    match_at (Star (Chr p)) prev s = Some rest
    /\ match rest with
       | [] => True
       | c :: _ => p c = false
       end.
Proof.
  unfold match_at. revert prev. induction s as [|c s IH]; intros prev.
  - exists []. split; reflexivity.
  - rewrite star_chr_cons. destruct (p c) eqn:E.
    + destruct (IH (Some c)) as [rest [-> H]]. exists rest.
      split; [reflexivity|exact H].
    + exists (c :: s). split; [reflexivity|exact E].
Qed.

(** A match of a consuming pattern is not empty. *)
Lemma consuming_inv {A} (r : regex) :
  consuming r ->
  forall (prev : option N) (s : pystr) (k : option N -> pystr -> option A)
         (x : A),
    m r prev s k = Some x ->
    exists prev' pre rest,
      s = pre ++ rest /\ pre <> [] /\ k prev' rest = Some x.
Proof.
  induction 1 as [p|r1 r2 _ IH1|r1 r2 _ IH1 _ IH2]; intros prev s k x H;
    cbn [m] in H.
  - destruct s as [|c s]; [discriminate|].
    destruct (p c); [|discriminate].
    exists (Some c), [c], s. repeat split; [discriminate|exact H].
  - apply IH1 in H as [p1 [pre1 [rest1 [-> [Hne H]]]]].
    apply m_inv in H as [p2 [pre2 [rest2 [-> H]]]].
    exists p2, (pre1 ++ pre2), rest2. rewrite app_assoc.
    repeat split; [|exact H].
    destruct pre1; [congruence|discriminate].
  - destruct (m r1 prev s k) eqn:E.
    + injection H as ->. apply IH1 in E. exact E.
    + apply IH2 in H. exact H.
Qed.

End Matcher.

(** ** Substitution *)

Section Substitution.
Import Re.
Variables (r : regex) (repl : pystr).

Lemma sub_skip (n : nat) :
  forall (prev : option N) (pre rest : pystr),
    length pre = n ->
    sub_from r repl prev (pre ++ rest) n
    = sub_from r repl (after prev pre) rest 0.
Proof.
  induction n as [|n IH]; intros prev pre rest Hn.
  - destruct pre; [reflexivity|discriminate].
  - destruct pre as [|c pre]; [discriminate|]. injection Hn as Hn.
    simpl app. cbn [sub_from]. rewrite (IH (Some c) pre rest Hn).
    reflexivity.
Qed.

(** The substitution at a match that is not empty. *)
Lemma sub_match (prev : option N) (pre rest : pystr) :
  pre <> [] ->
  match_at r prev (pre ++ rest) = Some rest ->
  sub_from r repl prev (pre ++ rest) 0
  = repl ++ sub_from r repl (after prev pre) rest 0.
Proof.
  intros Hne H. destruct pre as [|c pre]; [congruence|].
  simpl app in *. cbn [sub_from]. rewrite H.
  assert (E : (length (c :: pre ++ rest) - length rest)%nat = S (length pre))
    by (cbn [length]; rewrite length_app; lia).
  rewrite E.
  rewrite (sub_skip (length pre) (Some c) pre rest eq_refl). reflexivity.
Qed.

Lemma sub_nomatch (prev : option N) (c : N) (s : pystr) :
  match_at r prev (c :: s) = None ->
  sub_from r repl prev (c :: s) 0 = c :: sub_from r repl (Some c) s 0.
Proof. intros H. cbn [sub_from]. rewrite H. reflexivity. Qed.

(** Every character of the result is one of the text or one of the
    replacement. *)
Lemma sub_Forall (P : N -> Prop) :
  Forall P repl ->
  forall (s : pystr) (prev : option N) (n : nat),
    Forall P s -> Forall P (sub_from r repl prev s n).
Proof.
  intros Hr. induction s as [|c s IH]; intros prev n Hs.
  - destruct n; cbn [sub_from]; [|constructor].
    destruct (match_at r prev []); [exact Hr|constructor].
  - inversion Hs as [|? ? Hc Hs']; subst.
    destruct n; cbn [sub_from]; [|apply IH, Hs'].
    destruct (match_at r prev (c :: s)).
    + destruct (length (c :: s) - length p)%nat.
      * apply Forall_app. split; [exact Hr|].
        constructor; [exact Hc|apply IH, Hs'].
      * apply Forall_app. split; [exact Hr|apply IH, Hs'].
    + constructor; [exact Hc|apply IH, Hs'].
Qed.

End Substitution.


Lemma lstrip_split (s : pystr) : exists w, s = w ++ lstrip s.
Proof.
  induction s as [|c s [w IH]]; [exists []; reflexivity|].
  simpl. destruct (isspace c); [|exists []; reflexivity].
  exists (c :: w). simpl. now rewrite <- IH.
Qed.

Lemma lstrip_Forall (P : N -> Prop) (s : pystr) :
  Forall P s -> Forall P (lstrip s).
Proof.
  induction 1 as [|c s Hc Hs IH]; simpl; [constructor|].
  destruct (isspace c); [exact IH|constructor; assumption].
Qed.

Lemma strip_Forall (P : N -> Prop) (s : pystr) :
  Forall P s -> Forall P (strip s).
Proof.
  intros H. unfold strip.
  apply Forall_rev, lstrip_Forall, Forall_rev, lstrip_Forall, H.
Qed.

(** ** Texts free of a solid pattern *)

Section Freedom.
Import Re.
Variable r0 : regex.
Hypothesis r0_solid : solid r0.
Hypothesis r0_nonempty : match_at r0 None [] = None.

Lemma solid_prev (p1 p2 : option N) (s : pystr) :
  match_at r0 p1 s = match_at r0 p2 s.
Proof.
  unfold match_at. apply plain_prev; [apply solid_plain, r0_solid|].
  reflexivity.
Qed.

Lemma solid_headspace (prev : option N) (s : pystr) :
  headspace s -> match_at r0 prev s = None.
Proof.
  intros Hs. destruct (match_at r0 prev s) as [x|] eqn:E; [|reflexivity].
  exfalso. unfold match_at in E. change s with ([] ++ s) in E.
  rewrite (solid_app r0 r0_solid prev [] s _ Hs) in E.
  destruct (m_mono r0 prev [] (fun _ a' => Some (a' ++ s))
              (fun _ rest => Some rest) x) as [y Hy]; [|exact E|].
  - intros p t z _. exists t. reflexivity.
  - fold (match_at r0 prev []) in Hy.
    rewrite (solid_prev prev None), r0_nonempty in Hy. discriminate.
Qed.

Lemma solid_cut (prev : option N) (a b : pystr) (x : pystr) :
  headspace b -> match_at r0 prev (a ++ b) = Some x ->
  exists y, match_at r0 prev a = Some y.
Proof.
  intros Hb E. unfold match_at in *.
  rewrite (solid_app r0 r0_solid prev a b _ Hb) in E.
  eapply m_mono; [|exact E]. intros p t z _. exists t. reflexivity.
Qed.

Lemma solid_extend (prev : option N) (a b : pystr) (x : pystr) :
  match_at r0 prev a = Some x ->
  exists y, match_at r0 prev (a ++ b) = Some y.
Proof.
  intros E. unfold match_at in *.
  destruct (m_mono r0 prev a (fun _ rest => Some rest)
              (fun p a' => Some (a' ++ b)) x) as [y Hy]; [|exact E|].
  - intros p t z _. exists (t ++ b). reflexivity.
  - exact (plain_app r0 (solid_plain r0 r0_solid) prev a b
             (fun _ rest => Some rest) y Hy).
Qed.

Lemma pattern_free_suffix (pre s : pystr) :
  pattern_free r0 (pre ++ s) -> pattern_free r0 s.
Proof.
  intros H prev pre' t ->. apply (H prev (pre ++ pre') t).
  now rewrite app_assoc.
Qed.

Lemma pattern_free_drop_blanks (s w : pystr) :
  pattern_free r0 (s ++ w) -> pattern_free r0 s.
Proof.
  intros H prev pre t ->.
  destruct (match_at r0 prev t) as [x|] eqn:E; [|reflexivity].
  destruct (solid_extend prev t w x E) as [y Hy].
  rewrite (H prev pre (t ++ w)) in Hy; [discriminate|].
  now rewrite app_assoc.
Qed.

Lemma pattern_free_strip (s : pystr) :
  pattern_free r0 s -> pattern_free r0 (strip s).
Proof.
  intros H. unfold strip.
  destruct (lstrip_split s) as [w1 E1].
  destruct (lstrip_split (rev (lstrip s))) as [w2 E2].
  apply (f_equal (@rev N)) in E2. rewrite rev_involutive, rev_app_distr in E2.
  apply (pattern_free_drop_blanks _ (rev w2)). rewrite <- E2.
  apply (pattern_free_suffix w1). rewrite <- E1. exact H.
Qed.

Section Pass.
Variables (r : regex) (repl : pystr).
Hypothesis r_gapped : gapped r repl.

(** What the pattern matches after the substitution, in front of the
    substituted text and into it, it matched before. *)
Lemma sub_reflects (s : pystr) :
  forall (prev q : option N) (p x : pystr),
    match_at r0 q (p ++ sub_from r repl prev s 0) = Some x ->
    exists y, match_at r0 q (p ++ s) = Some y.
Proof.
  induction s as [|c s IH]; intros prev q p x H.
  - destruct (match_at r prev []) eqn:M.
    + assert (Hg : headspace (sub_from r repl prev [] 0))
        by (apply r_gapped; congruence).
      destruct (solid_cut q p _ x Hg H) as [y Hy].
      eapply solid_extend, Hy.
    + cbn [sub_from] in H. rewrite M in H. exists x. exact H.
  - destruct (match_at r prev (c :: s)) eqn:M.
    + assert (Hg : headspace (sub_from r repl prev (c :: s) 0))
        by (apply r_gapped; congruence).
      destruct (solid_cut q p _ x Hg H) as [y Hy].
      eapply solid_extend, Hy.
    + rewrite (sub_nomatch r repl prev c s M) in H.
      change (p ++ c :: sub_from r repl (Some c) s 0)
        with (p ++ [c] ++ sub_from r repl (Some c) s 0) in H.
      rewrite app_assoc in H. apply IH in H.
      rewrite <- app_assoc in H. exact H.
Qed.

Hypothesis repl_blank : Forall (fun c => isspace c = true) repl.
Hypothesis r_consuming : consuming r.

(** The substitution of a gapped pattern by blanks puts no match of the
    solid pattern into a text where the solid pattern matches, if at all,
    only where the substituted one does. *)
Lemma sub_free (n : nat) :
  forall (s : pystr) (prev : option N),
    (length s <= n)%nat ->
    (forall q pre t, s = pre ++ t ->
                     match_at r q t = None -> match_at r0 q t = None) ->
    pattern_free r0 (sub_from r repl prev s 0).
Proof.
  induction n as [|n IH]; intros s prev Hlen Hsrc q pre' t Hout.
  - destruct s; [|simpl in Hlen; lia].
    destruct (match_at r prev []) eqn:M.
    + apply (consuming_inv r r_consuming) in M
        as [? [pre [rest [E [Hne _]]]]].
      destruct pre; [congruence|discriminate].
    + cbn [sub_from] in Hout. rewrite M in Hout.
      destruct pre'; [|discriminate]. simpl in Hout. subst t.
      apply solid_headspace. exact I.
  - destruct (match_at r prev s) as [rest|] eqn:M.
    + pose proof M as M'.
      apply (consuming_inv r r_consuming) in M'
        as [? [pre [rest' [E [Hne [= ->]]]]]].
      subst s. rewrite (sub_match r repl prev pre rest Hne M) in Hout.
      assert (Hrest : pattern_free r0
                        (sub_from r repl (after prev pre) rest 0)).
      { apply IH.
        - rewrite length_app in Hlen. destruct pre; [congruence|].
          simpl in Hlen. lia.
        - intros q' pre2 t2 -> Hm. apply (Hsrc q' (pre ++ pre2) t2); [|exact Hm].
          now rewrite app_assoc. }
      apply app_eq_app in Hout as [l [[E1 E2]|[E1 E2]]].
      * destruct l as [|c l].
        -- simpl in E2. subst t. apply (Hrest q [] _ eq_refl).
        -- subst t. apply solid_headspace. simpl.
           rewrite E1 in repl_blank. apply Forall_app in repl_blank as [_ Hl].
           now inversion Hl.
      * apply (Hrest q l t E2).
    + destruct s as [|c s].
      * cbn [sub_from] in Hout. rewrite M in Hout.
        destruct pre'; [|discriminate]. simpl in Hout. subst t.
        apply solid_headspace. exact I.
      * rewrite (sub_nomatch r repl prev c s M) in Hout.
        destruct pre' as [|c' pre'].
        -- simpl in Hout. subst t.
           destruct (match_at r0 q (c :: sub_from r repl (Some c) s 0))
             as [x|] eqn:F; [|reflexivity].
           exfalso.
           destruct (sub_reflects s (Some c) q [c] x F) as [y Hy].
           simpl in Hy. rewrite (solid_prev q prev) in Hy.
           rewrite (Hsrc prev [] (c :: s) eq_refl M) in Hy. discriminate.
        -- injection Hout as <- Hout.
           refine (IH s (Some c) _ _ q pre' t Hout).
           ++ simpl in Hlen. lia.
           ++ intros q' pre2 t2 -> Hm.
              apply (Hsrc q' (c :: pre2) t2 eq_refl Hm).
Qed.

End Pass.
End Freedom.

(** A replacement that begins with white space leaves a gap. *)
Lemma gapped_blank (r : Re.regex) (sp : N) (repl : pystr) :
  isspace sp = true -> gapped r (sp :: repl).
Proof.
  intros Hsp prev s H. destruct s as [|c s]; cbn [Re.sub_from].
  - destruct (Re.match_at r prev []); [exact Hsp|congruence].
  - destruct (Re.match_at r prev (c :: s)); [|congruence].
    destruct (length (c :: s) - length p)%nat; exact Hsp.
Qed.

(** ** The patterns of the cleaner *)

Lemma solid_exactly (c : N) : isspace c = false -> solid_class (Re.exactly c).
Proof.
  intros Hc x Hx. unfold Re.exactly.
  destruct (N.eqb_spec c x); [subst; congruence|reflexivity].
Qed.

Lemma solid_nonspace : solid_class (fun c => negb (isspace c)).
Proof. intros c ->. reflexivity. Qed.

Lemma solid_az_ci : solid_class Re.az_ci.
Proof.
  intros c H. apply not_true_is_false. intros F.
  unfold isspace, Re.az_ci in *.
  repeat rewrite ?orb_true_iff, ?andb_true_iff, ?N.leb_le, ?N.eqb_eq in H.
  repeat rewrite ?orb_true_iff, ?andb_true_iff, ?N.leb_le, ?N.eqb_eq in F.
  lia.
Qed.

Lemma solid_lit (l : pystr) :
  Forall (fun c => isspace c = false) l -> solid (Re.lit_with Re.exactly l).
Proof.
  induction 1 as [|c l Hc Hl IH]; [constructor|].
  destruct l as [|d l]; simpl.
  - constructor. apply solid_exactly, Hc.
  - constructor; [constructor; apply solid_exactly, Hc|exact IH].
Qed.

Lemma consuming_lit (f : N -> N -> bool) (c : N) (l : pystr) :
  consuming (Re.lit_with f (c :: l)).
Proof. destruct l; simpl; repeat constructor. Qed.

Ltac solid_literal :=
  apply solid_lit; repeat constructor.

Lemma URL_solid : solid URL_PATTERN.
Proof.
  unfold URL_PATTERN, Re.Opt, Re.Plus, Re.NonSpace, Re.lit.
  repeat (first [solid_literal | apply solid_nonspace | constructor]).
Qed.

Lemma URL_consuming : consuming URL_PATTERN.
Proof.
  unfold URL_PATTERN, Re.lit. repeat constructor; apply consuming_lit.
Qed.

Lemma HTML_solid (T : Unicode.tables) :
  digits_solid T -> solid (HTML_ENTITIES T).
Proof.
  intros HT. unfold HTML_ENTITIES, Re.Plus, Re.lit.
  repeat (first [solid_literal | apply solid_az_ci | exact HT | constructor]).
Qed.

Lemma HTML_consuming (T : Unicode.tables) : consuming (HTML_ENTITIES T).
Proof.
  unfold HTML_ENTITIES, Re.lit. repeat constructor; apply consuming_lit.
Qed.

(** What [\S+] leaves at the end of a URL match is empty or begins with
    white space. *)
Lemma plus_chr_final (p : N -> bool) (prev : option N) (s rest : pystr) :
  Re.m (Re.Plus (Re.Chr p)) prev s (fun _ t => Some t) = Some rest ->
  match rest with
  | [] => True
  | c :: _ => p c = false
  end.
Proof.
  unfold Re.Plus. rewrite m_seq, m_chr. destruct s as [|c s]; [discriminate|].
  destruct (p c); [|discriminate]. intros H.
  destruct (star_chr_final p (Some c) s) as [rest' [E Hrest]].
  unfold Re.match_at in E. rewrite E in H. injection H as <-. exact Hrest.
Qed.

Lemma nonspace_final (prev : option N) (s rest : pystr) :
  Re.m (Re.Plus Re.NonSpace) prev s (fun _ t => Some t) = Some rest ->
  headspace rest.
Proof.
  intros H. apply plus_chr_final in H. destruct rest as [|c rest]; [exact I|].
  simpl. now apply negb_false_iff in H.
Qed.

Lemma URL_rest (prev : option N) (s rest : pystr) :
  Re.match_at URL_PATTERN prev s = Some rest -> headspace rest.
Proof.
  unfold Re.match_at, URL_PATTERN. rewrite m_alt.
  match goal with
  | |- match ?M with _ => _ end = _ -> _ => destruct M as [x|] eqn:E
  end.
  - intros [= ->].
    rewrite (m_seq (Re.lit "http")) in E.
    apply m_inv in E as [p1 [pre1 [rest1 [_ E]]]].
    rewrite (m_seq (Re.Opt (Re.lit "s"))) in E.
    apply m_inv in E as [p2 [pre2 [rest2 [_ E]]]].
    rewrite (m_seq (Re.lit "://")) in E.
    apply m_inv in E as [p3 [pre3 [rest3 [_ E]]]].
    eapply nonspace_final, E.
  - intros E'. rewrite (m_seq (Re.lit "www.")) in E'.
    apply m_inv in E' as [p1 [pre1 [rest1 [_ E']]]].
    eapply nonspace_final, E'.
Qed.

Lemma URL_gapped : gapped URL_PATTERN [].
Proof.
  intros prev s H.
  destruct (Re.match_at URL_PATTERN prev s) as [rest|] eqn:M; [|congruence].
  pose proof (URL_rest prev s rest M) as Hrest.
  apply (consuming_inv _ URL_consuming) in M as M'.
  destruct M' as [? [pre [rest' [-> [Hne [= ->]]]]]].
  rewrite (sub_match URL_PATTERN [] prev pre rest Hne M). simpl app.
  pose proof (solid_headspace URL_PATTERN URL_solid eq_refl
                (after prev pre) rest Hrest) as Hn.
  destruct rest as [|c rest].
  - cbn [Re.sub_from]. rewrite Hn. exact I.
  - rewrite (sub_nomatch URL_PATTERN [] _ c rest Hn). exact Hrest.
Qed.

(** ** The passes and the two solid patterns *)

Section Passes.
Variable r0 : Re.regex.
Hypothesis r0_solid : solid r0.
Hypothesis r0_nonempty : Re.match_at r0 None [] = None.

(** Blanking the matches of any consuming pattern keeps a text free of
    the solid pattern. *)
Lemma blank_keeps_free (r : Re.regex) (s : pystr) :
  consuming r -> pattern_free r0 s ->
  pattern_free r0 (Re.sub r (u " ") s).
Proof.
  intros Hr Hs. unfold Re.sub.
  apply (sub_free r0 r0_solid r0_nonempty r (u " ")
           (gapped_blank r 32%N [] eq_refl)
           ltac:(repeat constructor) Hr (length s) s None (le_n _)).
  intros q pre t E _. exact (Hs q pre t E).
Qed.

(** Substituting the matches of the solid pattern itself, by blanks or by
    nothing when its matches end at white space, leaves none. *)
Lemma own_pass_free (repl : pystr) (s : pystr) :
  consuming r0 -> gapped r0 repl ->
  Forall (fun c => isspace c = true) repl ->
  pattern_free r0 (Re.sub r0 repl s).
Proof.
  intros Hc Hg Hb. unfold Re.sub.
  apply (sub_free r0 r0_solid r0_nonempty r0 repl Hg Hb Hc
           (length s) s None (le_n _)).
  intros q pre t _ H. exact H.
Qed.

Lemma normalize_keeps_free (s : pystr) :
  pattern_free r0 s -> pattern_free r0 (normalize_whitespace s).
Proof.
  intros H. unfold normalize_whitespace.
  apply (pattern_free_strip r0 r0_solid).
  apply blank_keeps_free; [|exact H].
  unfold Re.Plus, Re.Space. repeat constructor.
Qed.

End Passes.

Lemma blanked_url_free (T : Unicode.tables) (s : pystr) :
  url_free (blanked T s).
Proof.
  unfold url_free, blanked, blank_entities, blank_markdown, strip_urls.
  apply (blank_keeps_free _ URL_solid eq_refl); [apply HTML_consuming|].
  apply (blank_keeps_free _ URL_solid eq_refl); [constructor|].
  apply (own_pass_free _ URL_solid eq_refl);
    [apply URL_consuming|apply URL_gapped|constructor].
Qed.

Lemma blanked_entity_free (T : Unicode.tables) (s : pystr) :
  digits_solid T -> entity_free T (blanked T s).
Proof.
  intros HT. unfold entity_free, blanked, blank_entities.
  apply (own_pass_free _ (HTML_solid T HT) eq_refl);
    [apply HTML_consuming|apply gapped_blank; reflexivity
    |repeat constructor].
Qed.

(** ** Emoji *)

Lemma EMOJI_match (prev : option N) (c : N) (s : pystr) :
  if is_emoji c
  then exists rest,
         Re.match_at EMOJI_PATTERN prev (c :: s) = Some rest
         /\ (length rest <= length s)%nat
  else Re.match_at EMOJI_PATTERN prev (c :: s) = None.
Proof.
  unfold Re.match_at, EMOJI_PATTERN, Re.Plus. rewrite m_seq, m_chr.
  destruct (is_emoji c); [|reflexivity].
  destruct (star_chr_final is_emoji (Some c) s) as [rest [E _]].
  exists rest. split; [exact E|].
  apply m_inv in E as [_ [pre [rest' [-> [= ->]]]]].
  rewrite length_app. lia.
Qed.

Lemma strip_emoji_from (s : pystr) :
  forall (prev : option N) (n : nat),
    emoji_free (Re.sub_from EMOJI_PATTERN [] prev s n).
Proof.
  induction s as [|c s IH]; intros prev n.
  - destruct n; cbn [Re.sub_from]; [|constructor].
    destruct (Re.match_at EMOJI_PATTERN prev []); constructor.
  - destruct n; cbn [Re.sub_from]; [|apply IH].
    pose proof (EMOJI_match prev c s) as H.
    destruct (is_emoji c) eqn:E.
    + destruct H as [rest [-> Hlen]].
      destruct (length (c :: s) - length rest)%nat eqn:D;
        [cbn [length] in D; lia|].
      simpl app. apply IH.
    + rewrite H. constructor; [exact E|apply IH].
Qed.

Lemma sub_emoji_free (r : Re.regex) (repl s : pystr) :
  emoji_free repl -> emoji_free s -> emoji_free (Re.sub r repl s).
Proof. intros Hr Hs. apply sub_Forall; assumption. Qed.

Lemma strip_noise_emoji_free (T : Unicode.tables) (s : pystr) :
  emoji_free s -> emoji_free (strip_noise T s).
Proof.
  unfold strip_noise. revert s.
  induction (REDDIT_NOISE T) as [|r l IH]; intros s Hs; simpl; [exact Hs|].
  apply IH, sub_emoji_free; [constructor|exact Hs].
Qed.

Lemma normalize_emoji_free (s : pystr) :
  emoji_free s -> emoji_free (normalize_whitespace s).
Proof.
  intros Hs. unfold normalize_whitespace.
  apply strip_Forall, sub_emoji_free; [repeat constructor|exact Hs].
Qed.

Lemma clean_text_passes (T : Unicode.tables) (text : pystr) :
  clean_text T text
  = normalize_whitespace (strip_noise T (strip_emoji (blanked T text))).
Proof. destruct text; reflexivity. Qed.

Lemma ascii_digits_solid : digits_solid Unicode.ascii.
Proof.
  intros c H. apply not_true_is_false. intros F.
  unfold isspace in H. simpl in F.
  repeat rewrite ?orb_true_iff, ?andb_true_iff, ?N.leb_le, ?N.eqb_eq in H.
  repeat rewrite ?andb_true_iff, ?N.leb_le in F.
  lia.
Qed.

Lemma truncated_emoji_free (s : pystr) :
  emoji_free s ->
  emoji_free (if (MAX_BODY_LENGTH <? length s)%nat
              then prefix MAX_BODY_LENGTH s ++ u "..." else s).
Proof.
  intros H. destruct (MAX_BODY_LENGTH <? length s)%nat; [|exact H].
  apply Forall_app. split; [|repeat constructor].
  unfold prefix. apply Forall_forall. intros c Hc.
  apply firstn_incl in Hc. revert c Hc. apply Forall_forall, H.
Qed.

Lemma clean_text_emoji_free (T : Unicode.tables) (text : pystr) :
  emoji_free (clean_text T text).
Proof.
  rewrite clean_text_passes.
  apply normalize_emoji_free, strip_noise_emoji_free.
  unfold strip_emoji, Re.sub. apply strip_emoji_from.
Qed.

Lemma process_post_title (T : Unicode.tables) (post : RedditPost) :
  cleaned_title (process_post T post) = clean_text T (r_title post).
Proof.
  unfold process_post. destruct (r_comments post); [reflexivity|].
  destruct (fold_left _ _ _) as [[? ?] ?]. reflexivity.
Qed.

Lemma process_post_body (T : Unicode.tables) (post : RedditPost) :
  cleaned_body (process_post T post)
  = let cleaned_body := clean_text T (r_selftext post) in
    if (MAX_BODY_LENGTH <? length cleaned_body)%nat
    then prefix MAX_BODY_LENGTH cleaned_body ++ u "..."
    else cleaned_body.
Proof.
  unfold process_post. destruct (r_comments post); [reflexivity|].
  destruct (fold_left _ _ _) as [[? ?] ?]. reflexivity.
Qed.





(** * Further properties *)

(** ** Processing a post *)

(** X1. The cleaned body of a processed post is the cleaned self-text
    when that has at most 1000 characters, and otherwise its first 1000
    characters followed by three dots: it never has more than 1003
    characters. *)
Theorem cleaned_body_truncation (T : Unicode.tables) (post : RedditPost) :
  let cleaned := clean_text T (r_selftext post) in
  let body := cleaned_body (process_post T post) in
  (length body <= 1003)%nat
  /\ ((length cleaned <= 1000)%nat -> body = cleaned)
  /\ ((1000 < length cleaned)%nat ->
      body = firstn 1000 cleaned ++ u "..." /\ length body = 1003%nat).
Proof.
  intros cleaned body. subst body. rewrite process_post_body.
  fold cleaned. cbv zeta. unfold MAX_BODY_LENGTH, prefix.
  destruct (1000 <? length cleaned)%nat eqn:E.
  - apply Nat.ltb_lt in E.
    assert (L : length (firstn 1000 cleaned ++ u "...") = 1003%nat).
    { rewrite length_app, length_firstn, Nat.min_l by lia. reflexivity. }
    split; [lia|]. split; [lia|]. intros _. split; [reflexivity|exact L].
  - apply Nat.ltb_ge in E. split; [lia|]. split; [reflexivity|lia].
Qed.

Lemma process_post_has_content (T : Unicode.tables) (post : RedditPost) :
  has_content (process_post T post)
  = (5 <? length (clean_text T (r_title post)))%nat.
Proof.
  unfold process_post. destruct (r_comments post); [reflexivity|].
  destruct (fold_left _ _ _) as [[? ?] ?]. reflexivity.
Qed.

Lemma filter_map_swap {A B} (f : A -> B) (p : B -> bool) (l : list A) :
  filter p (map f l) = map f (filter (fun x => p (f x)) l).
Proof.
  induction l as [|x l IH]; [reflexivity|]. simpl.
  destruct (p (f x)); simpl; now rewrite IH.
Qed.

Lemma process_posts_filter (T : Unicode.tables) (posts : list RedditPost) :
  process_posts T posts
  = map (process_post T)
      (filter (fun post => (5 <? length (clean_text T (r_title post)))%nat)
         posts).
Proof.
  unfold process_posts. rewrite filter_map_swap. f_equal.
  apply filter_ext. intros post. apply process_post_has_content.
Qed.

Lemma process_posts_titled (T : Unicode.tables) (posts : list RedditPost)
    (p : ProcessedPost) :
  In p (process_posts T posts) ->
  exists post, p = process_post T post /\ (5 < length (cleaned_title p))%nat.
Proof.
  rewrite process_posts_filter. intros Hp.
  apply in_map_iff in Hp as [post [<- Hpost]].
  apply filter_In in Hpost as [_ Hpost]. exists post.
  split; [reflexivity|]. rewrite process_post_title.
  now apply Nat.ltb_lt in Hpost.
Qed.

(** X2. [process_posts] keeps, in their order, exactly the posts whose
    cleaned title has more than 5 characters, each processed on its own;
    so every post it returns has content, and it never returns more posts
    than it was given. *)
Theorem process_posts_keeps_titled (T : Unicode.tables)
    (posts : list RedditPost) :
  process_posts T posts
  = map (process_post T)
      (filter (fun post => (5 <? length (clean_text T (r_title post)))%nat)
         posts)
  /\ Forall (fun p => has_content p = true
                      /\ (5 < length (cleaned_title p))%nat)
       (process_posts T posts)
  /\ (length (process_posts T posts) <= length posts)%nat.
Proof.
  split; [apply process_posts_filter|]. split.
  - apply Forall_forall. intros p Hp.
    destruct (process_posts_titled T posts p Hp) as [post [-> Hlen]].
    rewrite process_post_has_content. rewrite process_post_title in Hlen.
    split; [now apply Nat.ltb_lt|]. now rewrite process_post_title.
  - rewrite process_posts_filter, length_map. apply filter_length_le.
Qed.

(** ** White space after cleaning *)

(** Induction along a substitution by a consuming pattern. *)
Lemma sub_induction (r : Re.regex) (repl : pystr)
    (P : pystr -> pystr -> Prop) :
  consuming r ->
  P [] [] ->
  (forall prev c s,
      Re.match_at r prev (c :: s) = None ->
      P s (Re.sub_from r repl (Some c) s 0) ->
      P (c :: s) (c :: Re.sub_from r repl (Some c) s 0)) ->
  (forall prev pre rest,
      pre <> [] ->
      Re.match_at r prev (pre ++ rest) = Some rest ->
      P rest (Re.sub_from r repl (after prev pre) rest 0) ->
      P (pre ++ rest) (repl ++ Re.sub_from r repl (after prev pre) rest 0)) ->
  forall (s : pystr) (prev : option N), P s (Re.sub_from r repl prev s 0).
Proof.
  intros Hr Hnil Hskip Hmatch s.
  assert (G : forall n s prev, (length s <= n)%nat ->
                               P s (Re.sub_from r repl prev s 0)).
  { clear s. induction n as [|n IH]; intros s prev Hlen.
    - destruct s; [|simpl in Hlen; lia].
      cbn [Re.sub_from].
      destruct (Re.match_at r prev []) eqn:M; [|exact Hnil].
      apply (consuming_inv r Hr) in M as [? [pre [rest [E [Hne _]]]]].
      destruct pre; [congruence|discriminate].
    - destruct (Re.match_at r prev s) as [rest|] eqn:M.
      + pose proof M as M'.
        apply (consuming_inv r Hr) in M'
          as [? [pre [rest' [E [Hne [= ->]]]]]].
        subst s. rewrite (sub_match r repl prev pre rest Hne M).
        apply (Hmatch prev pre rest Hne M). apply IH.
        rewrite length_app in Hlen. destruct pre; [congruence|].
        simpl in Hlen. lia.
      + destruct s as [|c s].
        * cbn [Re.sub_from]. rewrite M. exact Hnil.
        * rewrite (sub_nomatch r repl prev c s M).
          apply (Hskip prev c s M). apply IH. simpl in Hlen. lia. }
  intros prev. apply (G (length s)). lia.
Qed.

Lemma spaces_match (prev : option N) (c : N) (s : pystr) :
  if isspace c
  then exists rest,
         Re.match_at (Re.Plus Re.Space) prev (c :: s) = Some rest
         /\ headsolid rest
  else Re.match_at (Re.Plus Re.Space) prev (c :: s) = None.
Proof.
  unfold Re.match_at, Re.Plus, Re.Space. rewrite m_seq, m_chr.
  destruct (isspace c); [|reflexivity].
  destruct (star_chr_final isspace (Some c) s) as [rest [E H]].
  exists rest. split; [exact E|]. destruct rest; [exact I|exact H].
Qed.

Lemma spaces_match_rest (prev : option N) (s rest : pystr) :
  Re.match_at (Re.Plus Re.Space) prev s = Some rest -> headsolid rest.
Proof.
  destruct s as [|c s]; [discriminate|].
  pose proof (spaces_match prev c s) as H.
  destruct (isspace c).
  - destruct H as [rest' [-> H]]. intros [= <-]. exact H.
  - rewrite H. discriminate.
Qed.

Lemma collapse_gaps (s : pystr) (prev : option N) :
  let out := Re.sub_from (Re.Plus Re.Space) (u " ") prev s 0 in
  gaps_ok out /\ (headsolid s -> headsolid out).
Proof.
  apply (sub_induction (Re.Plus Re.Space) (u " ")
           (fun s out => gaps_ok out /\ (headsolid s -> headsolid out))).
  - unfold Re.Plus, Re.Space. repeat constructor.
  - split; [exact I|trivial].
  - intros prev' c t M [IH1 IH2].
    pose proof (spaces_match prev' c t) as H.
    destruct (isspace c) eqn:E.
    + destruct H as [rest [H _]]. congruence.
    + split; [|intros _; exact E].
      simpl. split; [congruence|exact IH1].
  - intros prev' pre rest Hne M [IH1 IH2].
    pose proof (spaces_match_rest _ _ _ M) as Hrest.
    specialize (IH2 Hrest).
    split.
    + simpl. split; [|exact IH1]. intros _. split; [reflexivity|].
      destruct (Re.sub_from _ _ _ rest 0); [exact I|exact IH2].
    + intros Hs. exfalso. destruct pre as [|c pre]; [congruence|].
      simpl in Hs, M. pose proof (spaces_match prev' c (pre ++ rest)) as H.
      rewrite Hs in H. congruence.
Qed.

Lemma lstrip_blanks (s : pystr) :
  exists w, s = w ++ lstrip s /\ Forall (fun c => isspace c = true) w.
Proof.
  induction s as [|c s [w [IH1 IH2]]]; [exists []; split; [reflexivity|constructor]|].
  simpl. destruct (isspace c) eqn:E.
  - exists (c :: w). simpl. split; [now rewrite <- IH1|constructor; assumption].
  - exists []. split; [reflexivity|constructor].
Qed.

Lemma lstrip_headsolid (s : pystr) : headsolid (lstrip s).
Proof.
  induction s as [|c s IH]; [exact I|]. simpl.
  destruct (isspace c) eqn:E; [exact IH|exact E].
Qed.

Lemma lstrip_solid (s : pystr) : headsolid s -> lstrip s = s.
Proof. destruct s as [|c s]; [reflexivity|]. simpl. now intros ->. Qed.

(** What [strip] returns: the text without the blanks at its two ends. *)
Lemma strip_split (s : pystr) :
  exists w1 w2,
    s = w1 ++ strip s ++ w2
    /\ Forall (fun c => isspace c = true) w1
    /\ Forall (fun c => isspace c = true) w2
    /\ headsolid (strip s) /\ headsolid (rev (strip s)).
Proof.
  unfold strip.
  destruct (lstrip_blanks s) as [w1 [E1 H1]].
  destruct (lstrip_blanks (rev (lstrip s))) as [w2 [E2 H2]].
  set (x := rev (lstrip (rev (lstrip s)))).
  assert (Ex : lstrip s = x ++ rev w2).
  { apply (f_equal (@rev N)) in E2.
    rewrite rev_involutive, rev_app_distr in E2. exact E2. }
  exists w1, (rev w2). repeat split.
  - rewrite <- Ex. exact E1.
  - exact H1.
  - apply Forall_rev, H2.
  - pose proof (lstrip_headsolid s) as Hh. rewrite Ex in Hh.
    destruct x; [exact I|exact Hh].
  - unfold x. rewrite rev_involutive. apply lstrip_headsolid.
Qed.

Lemma gaps_ok_suffix (a b : pystr) : gaps_ok (a ++ b) -> gaps_ok b.
Proof. induction a as [|c a IH]; [trivial|]. intros [_ H]. apply IH, H. Qed.

Lemma gaps_ok_prefix (a b : pystr) : gaps_ok (a ++ b) -> gaps_ok a.
Proof.
  induction a as [|c a IH]; [intros _; exact I|].
  simpl. intros [H1 H2]. split; [|apply IH, H2].
  intros Hc. destruct (H1 Hc) as [E H]. split; [exact E|].
  destruct a; [exact I|exact H].
Qed.

Lemma gaps_single_spaced (s : pystr) :
  gaps_ok s -> headsolid s -> headsolid (rev s) -> single_spaced s.
Proof.
  intros Hg Hh Hr. repeat split.
  - intros c Hc Hs. apply in_split in Hc as [a [b ->]].
    apply gaps_ok_suffix in Hg. simpl in Hg. now destruct Hg as [Hg _], (Hg Hs).
  - intros a b c d -> Hc. apply gaps_ok_suffix in Hg. simpl in Hg.
    destruct Hg as [Hg _]. now destruct (Hg Hc).
  - intros c t ->. exact Hh.
  - intros c t ->. rewrite rev_app_distr in Hr. exact Hr.
Qed.

Lemma normalize_single_spaced (s : pystr) :
  single_spaced (normalize_whitespace s).
Proof.
  unfold normalize_whitespace.
  destruct (collapse_gaps s None) as [Hg _]. cbv zeta in Hg.
  fold (Re.sub (Re.Plus Re.Space) (u " ") s) in Hg.
  destruct (strip_split (Re.sub (Re.Plus Re.Space) (u " ") s))
    as [w1 [w2 [E [_ [_ [Hh Hr]]]]]].
  rewrite E in Hg. apply gaps_ok_suffix, gaps_ok_prefix in Hg.
  apply gaps_single_spaced; assumption.
Qed.

Lemma clean_text_spaced (T : Unicode.tables) (text : pystr) :
  single_spaced (clean_text T text).
Proof. rewrite clean_text_passes. apply normalize_single_spaced. Qed.

(** X3. Cleaned text has its white space in normal form: the only
    white-space character left is the space U+0020, which never stands
    first or last and is never followed by another one. *)
Theorem clean_text_single_spaced (T : Unicode.tables) (text : pystr)
    (post : RedditPost) :
  single_spaced (clean_text T text)
  /\ single_spaced (cleaned_title (process_post T post)).
Proof.
  split; [apply clean_text_spaced|].
  rewrite process_post_title. apply clean_text_spaced.
Qed.

Lemma lstrip_all_blank (s : pystr) :
  Forall (fun c => isspace c = true) s -> lstrip s = [].
Proof.
  induction 1 as [|c s Hc _ IH]; [reflexivity|]. simpl. now rewrite Hc.
Qed.

Lemma blank_sub (r : Re.regex) (repl s : pystr) :
  Forall (fun c => isspace c = true) repl ->
  Forall (fun c => isspace c = true) s ->
  Forall (fun c => isspace c = true) (Re.sub r repl s).
Proof. intros Hr Hs. apply sub_Forall; assumption. Qed.

(** X4. A text made of white space only cleans to the empty string. *)
Theorem clean_text_blank (T : Unicode.tables) (text : pystr) :
  Forall (fun c => isspace c = true) text -> clean_text T text = [].
Proof.
  intros H. rewrite clean_text_passes.
  assert (Hb : Forall (fun c => isspace c = true)
                 (strip_noise T (strip_emoji (blanked T text)))).
  { unfold strip_noise.
    assert (G : forall l s, Forall (fun c => isspace c = true) s ->
                Forall (fun c => isspace c = true)
                  (fold_left (fun cleaned pattern => Re.sub pattern [] cleaned)
                     l s)).
    { induction l as [|r l IH]; intros s Hs; [exact Hs|].
      simpl. apply IH, blank_sub; [constructor|exact Hs]. }
    apply G. unfold strip_emoji, blanked, blank_entities, blank_markdown,
      strip_urls.
    repeat (apply blank_sub; [repeat constructor|]). exact H. }
  unfold normalize_whitespace, strip.
  rewrite (lstrip_all_blank (Re.sub _ _ _)); [reflexivity|].
  apply blank_sub; [repeat constructor|exact Hb].
Qed.

Lemma clean_text_blank_witness :
  clean_text Unicode.ascii [32; 9; 10; 160; 32]%N = [].
Proof.
  apply (clean_text_blank Unicode.ascii [32; 9; 10; 160; 32]%N).
  repeat constructor.
Defined.

(** ** The combined text *)

Lemma process_post_combined (T : Unicode.tables) (post : RedditPost) :
  let p := process_post T post in
  combined_text p
  = strip (cleaned_title p ++ u " " ++ cleaned_title p ++ u " "
           ++ cleaned_body p ++ u " " ++ cleaned_comments p).
Proof.
  unfold process_post. destruct (r_comments post); [reflexivity|].
  destruct (fold_left _ _ _) as [[? ?] ?]. reflexivity.
Qed.

(** A prefix that ends with a character that is not white space survives
    [strip], when the text does not begin with white space. *)
Lemma strip_keeps_prefix (p q : pystr) :
  p <> [] -> headsolid p -> headsolid (rev p) ->
  exists rest, strip (p ++ q) = p ++ rest.
Proof.
  intros Hne Hh Hr.
  destruct (strip_split (p ++ q)) as [w1 [w2 [E [H1 [H2 _]]]]].
  assert (W : w1 = []).
  { destruct w1 as [|c w1]; [reflexivity|]. exfalso.
    destruct p as [|d p]; [congruence|]. simpl in E, Hh.
    injection E as -> _. inversion H1; congruence. }
  subst w1. simpl in E.
  apply app_eq_app in E as [l [[E1 E2]|[E1 E2]]].
  - destruct l as [|c l]; [exists []; rewrite app_nil_r in *; now symmetry|].
    exfalso. (* p = strip ++ l, w2 = l ++ q : l is blank and ends p *)
    rewrite E2 in H2. apply Forall_app in H2 as [Hl _].
    rewrite E1, rev_app_distr in Hr.
    destruct (rev (c :: l)) as [|e l'] eqn:R.
    + apply (f_equal (@length N)) in R. rewrite length_rev in R. discriminate.
    + simpl in Hr. assert (He : In e (c :: l)).
      { apply in_rev. rewrite R. left. reflexivity. }
      rewrite Forall_forall in Hl. rewrite (Hl e He) in Hr. discriminate.
  - exists l. exact E1.
Qed.

(** X5. The combined text of every post that [process_posts] returns
    begins with the cleaned title, a space, and the cleaned title again
    (the title is weighted twice), and neither begins nor ends with white
    space. *)
Theorem combined_text_doubles_title (T : Unicode.tables)
    (posts : list RedditPost) :
  Forall (fun p =>
            (exists rest,
               combined_text p
               = cleaned_title p ++ u " " ++ cleaned_title p ++ rest)
            /\ headsolid (combined_text p)
            /\ headsolid (rev (combined_text p)))
         (process_posts T posts).
Proof.
  rewrite Forall_forall. intros p Hp.
  destruct (process_posts_titled T posts p Hp) as [post [-> Hlen]].
  rewrite process_post_combined. cbv zeta.
  set (t := cleaned_title (process_post T post)) in *.
  assert (St : single_spaced t).
  { unfold t. rewrite process_post_title. apply clean_text_spaced. }
  destruct St as [_ [_ [S3 S4]]].
  split.
  - rewrite (app_assoc t), (app_assoc (t ++ u " ")).
    destruct (strip_keeps_prefix ((t ++ u " ") ++ t)
                (u " " ++ cleaned_body (process_post T post) ++ u " "
                   ++ cleaned_comments (process_post T post)))
      as [rest Hrest].
    + destruct t; [simpl in Hlen; lia|discriminate].
    + destruct t as [|c t']; [simpl in Hlen; lia|]. simpl.
      apply (S3 c t' eq_refl).
    + rewrite rev_app_distr.
      destruct (rev t) as [|c t'] eqn:R.
      * apply (f_equal (@length N)) in R. rewrite length_rev in R.
        simpl in R. lia.
      * simpl. apply (S4 c (rev t')).
        apply (f_equal (@rev N)) in R. rewrite rev_involutive in R.
        exact R.
    + rewrite Hrest. exists rest. now rewrite <- !app_assoc.
  - destruct (strip_split (t ++ u " " ++ t ++ u " "
                ++ cleaned_body (process_post T post) ++ u " "
                ++ cleaned_comments (process_post T post)))
      as [_ [_ [_ [_ [_ [Hh Hr]]]]]].
    split; assumption.
Qed.

(** ** Aggregating posts *)

Lemma aggregate_loop_cons (max_chars : Z) (post : ProcessedPost)
    (posts : list ProcessedPost) (texts : list pystr) (total count : nat) :
  aggregate_loop max_chars (post :: posts) (texts, total, count)
  = if (max_chars <? Z.of_nat (total + length (post_text post)))%Z
    then (texts, total, count)
    else aggregate_loop max_chars posts
           (texts ++ [post_text post],
            (total + length (post_text post))%nat, S count).
Proof. reflexivity. Qed.

Lemma aggregate_loop_prefix (max_chars : Z) (posts : list ProcessedPost) :
  forall (texts : list pystr) (total count : nat),
  exists k : nat,
    (k <= length posts)%nat
    /\ aggregate_loop max_chars posts (texts, total, count)
       = (texts ++ map post_text (firstn k posts),
          (total + total_length (map post_text (firstn k posts)))%nat,
          (count + k)%nat)
    /\ (k = 0%nat
        \/ (Z.of_nat (total + total_length (map post_text (firstn k posts)))
            <= max_chars)%Z)
    /\ match nth_error posts k with
       | Some next =>
           (max_chars
            < Z.of_nat (total + total_length (map post_text (firstn k posts))
                        + length (post_text next)))%Z
       | None => True
       end.
Proof.
  induction posts as [|post posts IH]; intros texts total count.
  - exists 0%nat. simpl. rewrite app_nil_r, !Nat.add_0_r.
    repeat split; auto.
  - rewrite aggregate_loop_cons.
    destruct (max_chars <? Z.of_nat (total + length (post_text post)))%Z eqn:E.
    + apply Z.ltb_lt in E. exists 0%nat.
      unfold total_length. cbn [firstn map nth_error]. simpl (list_sum []).
      rewrite app_nil_r, !Nat.add_0_r.
      split; [lia|]. split; [reflexivity|]. split; [left; reflexivity|exact E].
    + apply Z.ltb_ge in E.
      destruct (IH (texts ++ [post_text post])
                   (total + length (post_text post))%nat (S count))
        as [k [Hk [Heq [Hfit Hnext]]]].
      exists (S k). cbn [firstn map nth_error length].
      assert (Et : total_length (post_text post :: map post_text (firstn k posts))
                   = (length (post_text post)
                      + total_length (map post_text (firstn k posts)))%nat)
        by reflexivity.
      rewrite Et. split; [lia|]. split; [|split].
      * rewrite Heq, <- app_assoc. simpl app. f_equal; [f_equal|]; lia.
      * right. destruct Hfit as [->|Hfit].
        -- unfold total_length. cbn [firstn map]. simpl (list_sum []). lia.
        -- lia.
      * destruct (nth_error posts k); [|exact I]. lia.
Qed.

(** X6. [aggregate_text] takes the posts from the front and stops at the
    first one that does not fit: the aggregate is the join of the texts of
    the first k posts, k is the count it returns, the summed length of
    these texts is within [max_chars] (the separators are not counted),
    and when a post is left the next one would have gone past
    [max_chars]. *)
Theorem aggregate_text_prefix (posts : list ProcessedPost) (max_chars : Z) :
  exists k : nat,
    let texts := map post_text (firstn k posts) in
    (k <= length posts)%nat
    /\ aggregate_text posts max_chars = (join [10; 10]%N texts, k)
    /\ (k = 0%nat \/ (Z.of_nat (total_length texts) <= max_chars)%Z)
    /\ match nth_error posts k with
       | Some next =>
           (max_chars
            < Z.of_nat (total_length texts + length (post_text next)))%Z
       | None => True
       end.
Proof.
  destruct (aggregate_loop_prefix max_chars posts [] 0 0)
    as [k [Hk [Heq [Hfit Hnext]]]].
  exists k. cbv zeta. split; [exact Hk|]. split; [|split].
  - unfold aggregate_text. rewrite Heq. reflexivity.
  - exact Hfit.
  - exact Hnext.
Qed.

(** ** Sentiment labels *)

Lemma half_lt_ratio (s : Z) (n : nat) :
  (0 < n)%nat ->
  ((1 / 2 < IZR s / sqrt (INR n))%R
   <-> (0 < s)%Z /\ (Z.of_nat n < 4 * s * s)%Z).
Proof.
  intros Hn. set (q := sqrt (INR n)).
  assert (Hn' : (0 < INR n)%R) by (apply lt_0_INR; exact Hn).
  assert (Hq : (0 < q)%R) by (apply sqrt_lt_R0; exact Hn').
  assert (Hqq : (q * q = INR n)%R) by (apply sqrt_sqrt; lra).
  assert (E : (1 / 2 < IZR s / q)%R <-> (q < 2 * IZR s)%R).
  { split; intros H.
    - apply (Rmult_lt_compat_r (2 * q)) in H; [|lra].
      replace (IZR s / q * (2 * q))%R with (2 * IZR s)%R in H by (field; lra).
      lra.
    - apply (Rmult_lt_reg_r (2 * q)); [lra|].
      replace (IZR s / q * (2 * q))%R with (2 * IZR s)%R by (field; lra).
      lra. }
  rewrite E. rewrite INR_IZR_INZ in Hqq. split.
  - intros H. assert (Hs : (0 < IZR s)%R) by lra.
    split; [apply lt_IZR; exact Hs|].
    apply lt_IZR. rewrite <- Hqq, !mult_IZR. nra.
  - intros [Hs Hlt]. apply IZR_lt in Hs, Hlt.
    rewrite <- Hqq, !mult_IZR in Hlt. nra.
Qed.

Lemma ratio_lt_neg_half (s : Z) (n : nat) :
  (0 < n)%nat ->
  ((IZR s / sqrt (INR n) < - (1 / 2))%R
   <-> (s < 0)%Z /\ (Z.of_nat n < 4 * s * s)%Z).
Proof.
  intros Hn. pose proof (half_lt_ratio (- s) n Hn) as H.
  rewrite opp_IZR in H.
  replace (- IZR s / sqrt (INR n))%R with (- (IZR s / sqrt (INR n)))%R in H
    by (unfold Rdiv; ring).
  replace (4 * - s * - s)%Z with (4 * s * s)%Z in H by ring.
  split.
  - intros G. destruct H as [H _]. destruct H as [H1 H2]; [lra|].
    split; [lia|exact H2].
  - intros [G1 G2]. destruct H as [_ H].
    assert (G : (1 / 2 < - (IZR s / sqrt (INR n)))%R)
      by (apply H; split; [lia|exact G2]).
    lra.
Qed.

(** X7. The label of the lexicon strategy, without the square root: with
    s the sum of the matched weights and n the number of matched words,
    the label is positive when s > 0 and 4 s^2 > n, negative when s < 0
    and 4 s^2 > n, and neutral otherwise; a text without a lexicon word is
    neutral with confidence and raw score 0. *)
Theorem lexicon_label_exact (T : Unicode.tables) (text : pystr) :
  let r := analyze_sentiment_lexicon T text in
  let s := fst (lexicon_totals T text) in
  let n := snd (lexicon_totals T text) in
  label r
  = (if ((0 <? s) && (Z.of_nat n <? 4 * s * s))%Z then positive
     else if ((s <? 0) && (Z.of_nat n <? 4 * s * s))%Z then negative
     else neutral)
  /\ (n = 0%nat ->
      label r = neutral /\ sent_score r = 0%R /\ raw_score r = 0%R).
Proof.
  intros r s n. subst r s n. unfold analyze_sentiment_lexicon.
  pose proof (lexicon_totals_bound T text) as Hb.
  destruct (lexicon_totals T text) as [s [|n]]; cbn [fst snd] in *;
    cbn [label sent_score raw_score].
  - assert (s = 0%Z) by lia. subst s. split.
    + unfold lexicon_label.
      destruct (Rlt_dec (1 / 2) 0); [lra|].
      destruct (Rlt_dec 0 (- (1 / 2))); [lra|reflexivity].
    + intros _. unfold lexicon_label.
      destruct (Rlt_dec (1 / 2) 0); [lra|].
      destruct (Rlt_dec 0 (- (1 / 2))); [lra|].
      rewrite Rabs_R0. repeat split; lra.
  - split; [|discriminate].
    pose proof (half_lt_ratio s (S n) ltac:(lia)) as Hp.
    pose proof (ratio_lt_neg_half s (S n) ltac:(lia)) as Hm.
    unfold lexicon_label.
    destruct (Rlt_dec (1 / 2) (IZR s / sqrt (INR (S n)))) as [P|P].
    + apply Hp in P as [P1 P2].
      apply Z.ltb_lt in P1, P2. now rewrite P1, P2.
    + destruct ((0 <? s)%Z && (Z.of_nat (S n) <? 4 * s * s)%Z) eqn:F.
      { exfalso. apply P, Hp. apply andb_true_iff in F as [F1 F2].
        apply Z.ltb_lt in F1, F2. split; assumption. }
      destruct (Rlt_dec (IZR s / sqrt (INR (S n))) (- (1 / 2))) as [M|M].
      * apply Hm in M as [M1 M2].
        apply Z.ltb_lt in M1, M2. now rewrite M1, M2.
      * destruct ((s <? 0)%Z && (Z.of_nat (S n) <? 4 * s * s)%Z) eqn:G;
          [|reflexivity].
        exfalso. apply M, Hm. apply andb_true_iff in G as [G1 G2].
        apply Z.ltb_lt in G1, G2. split; assumption.
Qed.

(** X8. Under either strategy the label is decided by the raw score
    that the result reports.  With the ensemble (the ML option on and
    VADER loaded; also after the blend with TextBlob) the label is
    positive exactly when the raw score is at least 0.05, negative exactly
    when it is at most -0.05, and neutral strictly between the two, and
    the confidence is the absolute raw score.  Otherwise the result is
    that of the lexicon strategy: positive exactly when the raw score is
    above 0.5, negative exactly when it is below -0.5, neutral from -0.5
    to 0.5. *)
Theorem label_follows_raw_score (T : Unicode.tables) (a : analyzer)
    (text : pystr) :
  let r := analyze_sentiment T a text in
  match use_ml_models a, vader_analyzer a with
  | true, Some _ =>
      (label r = positive <-> (5 / 100 <= raw_score r)%R)
      /\ (label r = negative <-> (raw_score r <= - (5 / 100))%R)
      /\ (label r = neutral
          <-> (- (5 / 100) < raw_score r /\ raw_score r < 5 / 100)%R)
      /\ sent_score r = Rabs (raw_score r)
  | _, _ =>
      (label r = positive <-> (1 / 2 < raw_score r)%R)
      /\ (label r = negative <-> (raw_score r < - (1 / 2))%R)
      /\ (label r = neutral
          <-> (- (1 / 2) <= raw_score r /\ raw_score r <= 1 / 2)%R)
      /\ r = analyze_sentiment_lexicon T text
  end.
Proof.
  intros r.
  assert (Hc : forall x : R,
            (compound_label x = positive <-> (5 / 100 <= x)%R)
            /\ (compound_label x = negative <-> (x <= - (5 / 100))%R)
            /\ (compound_label x = neutral
                <-> (- (5 / 100) < x /\ x < 5 / 100)%R)).
  { intros x. unfold compound_label.
    destruct (Rle_dec (5 / 100) x); [|destruct (Rle_dec x (- (5 / 100)))];
      repeat split; intros; try discriminate; try reflexivity; lra. }
  assert (Hl : forall x : R,
            (lexicon_label x = positive <-> (1 / 2 < x)%R)
            /\ (lexicon_label x = negative <-> (x < - (1 / 2))%R)
            /\ (lexicon_label x = neutral
                <-> (- (1 / 2) <= x /\ x <= 1 / 2)%R)).
  { intros x. unfold lexicon_label.
    destruct (Rlt_dec (1 / 2) x); [|destruct (Rlt_dec x (- (1 / 2)))];
      repeat split; intros; try discriminate; try reflexivity; lra. }
  assert (Hlex : let r := analyze_sentiment_lexicon T text in
                 label r = lexicon_label (raw_score r)).
  { unfold analyze_sentiment_lexicon.
    destruct (lexicon_totals T text) as [s n]. reflexivity. }
  cbv zeta in Hlex.
  unfold r, analyze_sentiment.
  destruct (use_ml_models a), (vader_analyzer a) as [f|] eqn:Hv;
    try (rewrite Hlex;
         destruct (Hl (raw_score (analyze_sentiment_lexicon T text)))
           as [L1 [L2 L3]];
         repeat split; tauto).
  unfold analyze_sentiment_ml. rewrite Hv.
  destruct (textblob_ready a); [destruct (textblob_polarity a text)|];
    cbn [label raw_score sent_score];
    match goal with
    | |- context [compound_label ?x] => destruct (Hc x) as [C1 [C2 C3]]
    end; repeat split; tauto.
Qed.

(** ** The accumulators of the themes *)

Lemma labelled_cons (l : Label) (p : AnalyzedPost)
    (posts : list AnalyzedPost) :
  labelled l (p :: posts)
  = ((if Label_eqb (label (sentiment p)) l then 1 else 0)
     + labelled l posts)%nat.
Proof.
  unfold labelled. cbn [filter].
  destruct (Label_eqb (label (sentiment p)) l); reflexivity.
Qed.

Lemma keyword_hits_cons (T : Unicode.tables) (keywords : list pystr)
    (p : AnalyzedPost) (posts : list AnalyzedPost) :
  keyword_hits T keywords (p :: posts)
  = (keyword_matches keywords (theme_text T p)
     + keyword_hits T keywords posts)%nat.
Proof. reflexivity. Qed.

Lemma theme_step_after (T : Unicode.tables) (p : AnalyzedPost)
    (posts : list AnalyzedPost) (e : pystr * list pystr * ThemeAcc) :
  let e' := theme_step p (theme_text T p) e in
  fst e' = fst e
  /\ acc_after T (snd (fst e)) posts (snd e')
     = acc_after T (snd (fst e)) (p :: posts) (snd e).
Proof.
  destruct e as [[theme keywords] [c pos neu neg ex]]. cbn [fst snd].
  unfold theme_step, acc_after. rewrite keyword_hits_cons. cbn [filter].
  change (0 <? keyword_matches keywords (theme_text T p))%nat
    with (mentions T keywords p).
  destruct (mentions T keywords p) eqn:M.
  - cbn [fst snd acc_count acc_positive acc_neutral acc_negative
         acc_examples tally].
    split; [reflexivity|]. rewrite !labelled_cons. cbn [map].
    f_equal; try lia.
    fold (example_of p).
    destruct (length ex <? 2)%nat eqn:L.
    + apply Nat.ltb_lt in L. rewrite length_app. cbn [length].
      replace (2 - length ex)%nat with (S (2 - (length ex + 1))) by lia.
      cbn [firstn]. rewrite <- app_assoc. reflexivity.
    + apply Nat.ltb_ge in L.
      replace (2 - length ex)%nat with 0%nat by lia. reflexivity.
  - cbn [fst snd acc_count acc_positive acc_neutral acc_negative
         acc_examples].
    split; [reflexivity|]. unfold mentions in M. apply Nat.ltb_ge in M.
    f_equal; lia.
Qed.

Lemma acc_after_nil (T : Unicode.tables) (keywords : list pystr)
    (a : ThemeAcc) :
  acc_after T keywords [] a = a.
Proof.
  destruct a as [c pos neu neg ex]. unfold acc_after, keyword_hits, labelled.
  cbn [filter map length acc_count acc_positive acc_neutral acc_negative
       acc_examples].
  simpl (list_sum []). rewrite !Nat.add_0_r, firstn_nil, app_nil_r.
  reflexivity.
Qed.

Lemma theme_loop_after (T : Unicode.tables) (posts : list AnalyzedPost) :
  forall st : list (pystr * list pystr * ThemeAcc),
    fold_left (post_step T) posts st
    = map (fun e => (fst e, acc_after T (snd (fst e)) posts (snd e))) st.
Proof.
  induction posts as [|p posts IH]; intros st.
  - simpl. rewrite <- (map_id st) at 1. apply map_ext.
    intros [[theme keywords] a]. cbn [fst snd]. now rewrite acc_after_nil.
  - cbn [fold_left]. rewrite IH. unfold post_step. rewrite map_map.
    apply map_ext. intros e.
    destruct (theme_step_after T p posts e) as [E1 E2].
    cbv zeta in E1, E2. rewrite E1, E2. reflexivity.
Qed.

Lemma theme_totals_after (T : Unicode.tables) (posts : list AnalyzedPost) :
  theme_totals T posts
  = map (fun tk => (fst tk, snd tk, acc_after T (snd tk) posts acc_init))
        THEME_KEYWORDS.
Proof.
  unfold theme_totals. rewrite theme_loop_after, map_map. reflexivity.
Qed.

Lemma labelled_total (posts : list AnalyzedPost) :
  (labelled positive posts + labelled neutral posts
   + labelled negative posts = length posts)%nat.
Proof.
  induction posts as [|p posts IH]; [reflexivity|].
  rewrite !labelled_cons. destruct (label (sentiment p)); simpl; lia.
Qed.

Lemma keyword_hits_mentions (T : Unicode.tables) (keywords : list pystr)
    (posts : list AnalyzedPost) :
  (length (filter (mentions T keywords) posts)
   <= keyword_hits T keywords posts)%nat
  /\ ((0 < keyword_hits T keywords posts)%nat
      <-> filter (mentions T keywords) posts <> []).
Proof.
  induction posts as [|p posts [IH1 IH2]].
  - split; [apply Nat.le_refl|]. unfold keyword_hits. simpl.
    split; [lia|congruence].
  - rewrite keyword_hits_cons. cbn [filter].
    destruct (mentions T keywords p) eqn:M; unfold mentions in M.
    + apply Nat.ltb_lt in M. cbn [length]. split; [lia|].
      split; [discriminate|lia].
    + apply Nat.ltb_ge in M. split; [lia|].
      rewrite <- IH2. lia.
Qed.

(** The themes that [extract_themes] returns, one by one. *)
Lemma extract_themes_In (T : Unicode.tables) (posts : list AnalyzedPost)
    (t : Theme) :
  In t (extract_themes T posts) ->
  exists theme keywords,
    In (theme, keywords) THEME_KEYWORDS
    /\ t = theme_result (theme, keywords,
                         acc_after T keywords posts acc_init)
    /\ (0 < keyword_hits T keywords posts)%nat.
Proof.
  intros Ht. unfold extract_themes in Ht. apply firstn_incl in Ht.
  apply (Permutation_in _ (sorted_desc_perm _ _)) in Ht.
  apply in_map_iff in Ht as [e [<- He]].
  apply filter_In in He as [He Hc]. rewrite theme_totals_after in He.
  apply in_map_iff in He as [[theme keywords] [<- Hk]].
  exists theme, keywords. cbn [fst snd] in *.
  split; [exact Hk|]. split; [reflexivity|].
  apply Nat.ltb_lt in Hc. unfold acc_after in Hc. simpl in Hc. exact Hc.
Qed.

Lemma half_share (a n : nat) :
  (0 < n)%nat ->
  Py.Qltb (1 # 2) (inject_Z (Z.of_nat a) / inject_Z (Z.of_nat n))
  = (n <? 2 * a)%nat.
Proof.
  intros Hn.
  assert (Hq : (0 < inject_Z (Z.of_nat n))%Q).
  { unfold Qlt. simpl. lia. }
  assert (E : ((1 # 2) < inject_Z (Z.of_nat a) / inject_Z (Z.of_nat n))%Q
              <-> (n < 2 * a)%nat).
  { rewrite <- (Qmult_lt_r _ _ _ Hq).
    assert (Ed : (inject_Z (Z.of_nat a) / inject_Z (Z.of_nat n)
                  * inject_Z (Z.of_nat n) == inject_Z (Z.of_nat a))%Q).
    { field. intros H. rewrite H in Hq. discriminate Hq. }
    rewrite Ed. unfold Qlt. cbn [Qnum Qden Qmult inject_Z]. lia. }
  unfold Py.Qltb.
  destruct (Qle_bool (inject_Z (Z.of_nat a) / inject_Z (Z.of_nat n)) (1 # 2))
    eqn:B; cbn [negb]; symmetry.
  - apply Qle_bool_iff in B. apply Nat.ltb_ge.
    destruct (Nat.lt_ge_cases n (2 * a)) as [L|L]; [|exact L].
    apply E in L. exfalso. apply (Qlt_not_le _ _ L B).
  - apply Nat.ltb_lt, E. apply Qnot_le_lt. intros H.
    apply Qle_bool_iff in H. congruence.
Qed.

Lemma theme_result_mood (e : pystr * list pystr * ThemeAcc) :
  let a := snd e in
  let n := (acc_positive a + acc_neutral a + acc_negative a)%nat in
  mood (theme_result e)
  = if (0 <? n)%nat then
      if (n <? 2 * acc_negative a)%nat then mood_negative
      else if (n <? 2 * acc_positive a)%nat then mood_positive
      else mood_mixed
    else mood_neutral.
Proof.
  destruct e as [[theme keywords] [c pos neu neg ex]].
  cbn [snd]. unfold theme_result.
  cbn [acc_count acc_positive acc_neutral acc_negative acc_examples].
  destruct (0 <? pos + neu + neg)%nat eqn:H; [|reflexivity].
  apply Nat.ltb_lt in H. rewrite !half_share by exact H.
  destruct (pos + neu + neg <? 2 * neg)%nat; [reflexivity|].
  destruct (pos + neu + neg <? 2 * pos)%nat; reflexivity.
Qed.

Lemma theme_result_examples (e : pystr * list pystr * ThemeAcc) :
  examples (theme_result e) = acc_examples (snd e).
Proof.
  destruct e as [[theme keywords] [c pos neu neg ex]].
  cbn [snd]. unfold theme_result.
  cbn [acc_count acc_positive acc_neutral acc_negative acc_examples].
  destruct (0 <? pos + neu + neg)%nat; [|reflexivity].
  destruct (Py.Qltb _ _); [reflexivity|].
  destruct (Py.Qltb _ _); reflexivity.
Qed.

(** X9. The mood of a returned theme is decided by the posts that
    mention it, that is, the posts whose lower-cased title and body hold
    one of its keywords.  There is at least one such post; the mood is
    negative when more than half of them are negative, else positive
    when more than half of them are positive, else mixed.  The fourth
    mood of the code, for a theme without tallied posts, is never
    returned. *)
Theorem theme_mood (T : Unicode.tables) (analyzed_posts : list AnalyzedPost) :
  Forall (fun t =>
            exists keywords : list pystr,
              In (name t, keywords) THEME_KEYWORDS
              /\ let docs := filter (mentions T keywords) analyzed_posts in
                 docs <> []
                 /\ mood t
                    = (if (length docs <? 2 * labelled negative docs)%nat
                       then mood_negative
                       else if (length docs <? 2 * labelled positive docs)%nat
                       then mood_positive
                       else mood_mixed)
                 /\ mood t <> mood_neutral)
         (extract_themes T analyzed_posts).
Proof.
  apply Forall_forall. intros t Ht.
  apply extract_themes_In in Ht as [theme [keywords [Hk [-> Hc]]]].
  exists keywords. rewrite theme_result_name. cbn [fst snd].
  split; [exact Hk|]. cbv zeta.
  pose proof (keyword_hits_mentions T keywords analyzed_posts) as [_ Hd].
  apply Hd in Hc.
  set (docs := filter (mentions T keywords) analyzed_posts) in *.
  assert (Hn : (0 < length docs)%nat).
  { destruct docs; [congruence|simpl; lia]. }
  split; [exact Hc|].
  assert (E : mood (theme_result (theme, keywords,
                                  acc_after T keywords analyzed_posts acc_init))
              = (if (length docs <? 2 * labelled negative docs)%nat
                 then mood_negative
                 else if (length docs <? 2 * labelled positive docs)%nat
                 then mood_positive
                 else mood_mixed)).
  { rewrite theme_result_mood. cbn [snd]. unfold acc_after. fold docs.
    cbn [acc_positive acc_neutral acc_negative acc_init Nat.add].
    rewrite labelled_total.
    apply Nat.ltb_lt in Hn. rewrite Hn. reflexivity. }
  split; [exact E|]. rewrite E.
  destruct (length docs <? 2 * labelled negative docs)%nat; [discriminate|].
  destruct (length docs <? 2 * labelled positive docs)%nat; discriminate.
Qed.

(** X10. The examples of a returned theme are the titles, cut to 70
    characters, of the first two posts that mention it, in the order of
    the posts: one or two examples, none longer than 70 characters. *)
Theorem theme_examples (T : Unicode.tables)
    (analyzed_posts : list AnalyzedPost) :
  Forall (fun t =>
            exists keywords : list pystr,
              In (name t, keywords) THEME_KEYWORDS
              /\ examples t
                 = firstn 2 (map example_of
                               (filter (mentions T keywords) analyzed_posts))
              /\ (1 <= length (examples t) <= 2)%nat
              /\ Forall (fun e => (length e <= 70)%nat) (examples t))
         (extract_themes T analyzed_posts).
Proof.
  apply Forall_forall. intros t Ht.
  apply extract_themes_In in Ht as [theme [keywords [Hk [-> Hc]]]].
  exists keywords. rewrite theme_result_name, theme_result_examples.
  cbn [fst snd]. split; [exact Hk|].
  pose proof (keyword_hits_mentions T keywords analyzed_posts) as [_ Hd].
  apply Hd in Hc.
  set (docs := filter (mentions T keywords) analyzed_posts) in *.
  assert (E : acc_examples (acc_after T keywords analyzed_posts acc_init)
              = firstn 2 (map example_of docs)) by reflexivity.
  rewrite E. split; [reflexivity|]. split.
  - rewrite length_firstn, length_map.
    destruct docs; [congruence|]. cbn [length]. lia.
  - apply Forall_forall. intros e He. apply firstn_incl in He.
    apply in_map_iff in He as [p [<- _]].
    unfold example_of, prefix. rewrite length_firstn. lia.
Qed.

Lemma NoDup_take {A} (n : nat) (l : list A) : NoDup l -> NoDup (firstn n l).
Proof.
  intros H. revert n.
  induction H as [|x l Hx H IH]; intros [|n]; cbn [firstn]; try constructor.
  - intros Hin. apply Hx. eapply firstn_incl; eauto.
  - apply IH.
Qed.

Lemma NoDup_map_filter {A B} (g : A -> B) (f : A -> bool) (l : list A) :
  NoDup (map g l) -> NoDup (map g (filter f l)).
Proof.
  induction l as [|x l IH]; cbn [map filter]; intros H; [constructor|].
  inversion H as [|? ? Hx Hl]; subst.
  destruct (f x); [|now apply IH].
  cbn [map]. constructor; [|now apply IH].
  intros Hin. apply Hx. apply in_map_iff in Hin as [y [E Hy]].
  apply filter_In in Hy as [Hy _]. apply in_map_iff. now exists y.
Qed.

Lemma taxonomy_NoDup : NoDup (map fst THEME_KEYWORDS).
Proof.
  pose proof taxonomy_ranked as H.
  induction H as [|x l H IH Hx]; constructor; [|exact IH].
  intros Hin. rewrite Forall_forall in Hx. specialize (Hx x Hin). lia.
Qed.

Lemma existsb_filter {A} (f : A -> bool) (l : list A) :
  existsb f l = true <-> filter f l <> [].
Proof.
  induction l as [|x l IH]; cbn [existsb filter].
  - split; [discriminate|congruence].
  - destruct (f x); cbn [orb]; [|exact IH].
    split; [discriminate|reflexivity].
Qed.

Lemma filter_map_length {A B} (g : A -> B) (p : B -> bool) (q : A -> bool)
    (l : list A) :
  (forall x, In x l -> p (g x) = q x) ->
  length (filter p (map g l)) = length (filter q l).
Proof.
  induction l as [|x l IH]; intros H; [reflexivity|].
  cbn [map filter]. rewrite (H x (or_introl eq_refl)).
  destruct (q x); cbn [length]; rewrite IH; auto using in_cons.
Qed.

(** X11. [extract_themes] returns as many themes as the taxonomy has
    themes that some post mentions, six at most, and no theme twice; it
    returns none exactly when no post mentions any theme. *)
Theorem extract_themes_number (T : Unicode.tables)
    (analyzed_posts : list AnalyzedPost) :
  let themes := extract_themes T analyzed_posts in
  let mentioned :=
    filter (fun tk => existsb (mentions T (snd tk)) analyzed_posts)
           THEME_KEYWORDS in
  length themes = Nat.min 6 (length mentioned)
  /\ NoDup (map name themes)
  /\ (themes = []
      <-> forall theme keywords post,
            In (theme, keywords) THEME_KEYWORDS -> In post analyzed_posts ->
            mentions T keywords post = false).
Proof.
  intros themes mentioned.
  assert (Hlen : length themes = Nat.min 6 (length mentioned)).
  { unfold themes, extract_themes. rewrite length_firstn.
    rewrite (Permutation_length (sorted_desc_perm _ _)), length_map.
    f_equal. rewrite theme_totals_after. unfold mentioned.
    apply filter_map_length. intros [theme keywords] _. cbn [fst snd].
    pose proof (keyword_hits_mentions T keywords analyzed_posts) as [_ Hd].
    unfold acc_after. cbn [acc_count acc_init Nat.add].
    destruct (existsb (mentions T keywords) analyzed_posts) eqn:E.
    - apply Nat.ltb_lt, Hd, existsb_filter, E.
    - apply Nat.ltb_ge.
      destruct (Nat.lt_ge_cases 0 (keyword_hits T keywords analyzed_posts))
        as [L|L]; [|exact L].
      apply Hd, existsb_filter in L. congruence. }
  split; [exact Hlen|]. split.
  - unfold themes, extract_themes. rewrite <- firstn_map.
    apply NoDup_take.
    apply (Permutation_NoDup
             (Permutation_sym
                (Permutation_map name (sorted_desc_perm _ _)))).
    rewrite map_map.
    rewrite (map_ext (fun e => name (theme_result e))
                     (fun e => fst (fst e)) theme_result_name).
    apply NoDup_map_filter.
    rewrite <- (map_map fst fst), theme_totals_names.
    exact taxonomy_NoDup.
  - split.
    + intros E theme keywords post Hk Hp.
      rewrite E in Hlen. cbn [length] in Hlen.
      assert (Hm : mentioned = []).
      { destruct mentioned; [reflexivity|]. cbn [length] in Hlen. lia. }
      destruct (mentions T keywords post) eqn:M; [|reflexivity].
      assert (Hin : In (theme, keywords) mentioned).
      { apply filter_In. split; [exact Hk|]. cbn [snd].
        apply existsb_exists. now exists post. }
      rewrite Hm in Hin. destruct Hin.
    + intros H.
      assert (Hm : mentioned = []).
      { destruct mentioned as [|[theme keywords] l] eqn:E; [reflexivity|].
        assert (Hin : In (theme, keywords) mentioned)
          by (rewrite E; left; reflexivity).
        apply filter_In in Hin as [Hk Hx]. cbn [snd] in Hx.
        apply existsb_exists in Hx as [post [Hp Hx]].
        rewrite (H theme keywords post Hk Hp) in Hx. discriminate. }
      rewrite Hm in Hlen. cbn [length] in Hlen.
      destruct themes; [reflexivity|]. cbn [length] in Hlen. lia.
Qed.

(** ** The high-impact issues *)

Lemma sorted_desc_head {A} (key : A -> Z) (l : list A) (x : A)
    (rest : list A) :
  Py.sorted_desc key l = x :: rest ->
  In x l /\ forall y, In y l -> (key y <= key x)%Z.
Proof.
  intros E. pose proof (sorted_desc_perm key l) as P.
  pose proof (sorted_desc_sorted key l) as S. rewrite E in P, S.
  split.
  - apply (Permutation_in _ P). left. reflexivity.
  - intros y Hy. apply (Permutation_in _ (Permutation_sym P)) in Hy.
    destruct Hy as [<-|Hy]; [lia|].
    apply StronglySorted_inv in S as [_ S].
    rewrite Forall_forall in S. exact (S y Hy).
Qed.

(** X12. The high-impact issues, for any [top_n], also a negative one
    (which a slice counts from the end): their number, what each one is
    made from (a post of the input, its title cut to 100 characters),
    and that the first one has the largest impact score of the input. *)
Theorem high_impact_issues_shape (analyzed_posts : list AnalyzedPost)
    (top_n : Z) :
  let issues := get_high_impact_issues analyzed_posts top_n in
  length issues
  = (if (0 <=? top_n)%Z
     then Nat.min (Z.to_nat top_n) (length analyzed_posts)
     else length analyzed_posts - Z.to_nat (- top_n))%nat
  /\ Forall (fun i =>
               (length (issue_title i) <= 100)%nat
               /\ exists p, In p analyzed_posts
                            /\ issue_title i = prefix 100 (title p)
                            /\ issue_impact_score i = impact_score p
                            /\ issue_score i = post_score p
                            /\ issue_comments i = post_num_comments p
                            /\ issue_sentiment i = label (sentiment p))
            issues
  /\ (forall i rest p,
        issues = i :: rest -> In p analyzed_posts ->
        (impact_score p <= issue_impact_score i)%Z).
Proof.
  intros issues. unfold issues, get_high_impact_issues.
  set (ranked := Py.sorted_desc impact_score analyzed_posts).
  assert (Hlen : length ranked = length analyzed_posts)
    by (apply Permutation_length, sorted_desc_perm).
  assert (Hin : forall p n, In p (slice_to n ranked) -> In p analyzed_posts).
  { intros p n Hp.
    apply (Permutation_in _ (sorted_desc_perm impact_score analyzed_posts)).
    fold ranked. unfold slice_to in Hp.
    destruct (0 <=? n)%Z; eapply firstn_incl; exact Hp. }
  split; [|split].
  - rewrite length_map. unfold slice_to.
    destruct (0 <=? top_n)%Z; rewrite length_firstn, Hlen; lia.
  - apply Forall_forall. intros i Hi.
    apply in_map_iff in Hi as [p [<- Hp]]. split.
    + unfold issue_of, prefix. cbn [issue_title]. rewrite length_firstn. lia.
    + exists p. split; [exact (Hin p top_n Hp)|]. repeat split.
  - intros i rest p E Hp.
    destruct (slice_to top_n ranked) as [|q qs] eqn:S; [discriminate|].
    cbn [map] in E. injection E as <- _. cbn [issue_of issue_impact_score].
    destruct ranked as [|r rs] eqn:R.
    { unfold slice_to in S. destruct (0 <=? top_n)%Z;
        rewrite firstn_nil in S; discriminate. }
    assert (q = r).
    { unfold slice_to in S.
      destruct (0 <=? top_n)%Z;
        [destruct (Z.to_nat top_n)
        |destruct (length (r :: rs) - Z.to_nat (- top_n))%nat];
        cbn [firstn] in S; congruence. }
    subst q. apply (sorted_desc_head impact_score analyzed_posts r rs R).
    exact Hp.
Qed.

(** ** The JSON text in an answer of the provider *)

Section JsonSpan.
Import Re.

(** What is tried after [[\s\S]*]: the closing brace. *)
Let closing : option N -> pystr -> option pystr :=
  fun prev' s' => m (lit "}") prev' s' (fun _ rest => Some rest).

Lemma closing_cons (prev : option N) (c : N) (s : pystr) :
  closing prev (c :: s) = if (125 =? c)%N then Some s else None.
Proof. reflexivity. Qed.

Lemma star_any_none (s : pystr) :
  forall prev, ~ In 125%N s -> m (Star Any) prev s closing = None.
Proof.
  induction s as [|c s IH]; intros prev H; [reflexivity|].
  unfold Any. rewrite star_chr_cons. fold Any.
  rewrite IH by (intros G; apply H; right; exact G).
  rewrite closing_cons.
  destruct (N.eqb_spec 125 c) as [E|E]; [|reflexivity].
  exfalso. apply H. left. symmetry. exact E.
Qed.

Lemma star_any_last (b c : pystr) :
  forall prev,
    ~ In 125%N c -> m (Star Any) prev (b ++ 125%N :: c) closing = Some c.
Proof.
  induction b as [|x b IH]; intros prev H.
  - cbn [app]. unfold Any. rewrite star_chr_cons. fold Any.
    rewrite star_any_none by exact H. reflexivity.
  - cbn [app]. unfold Any. rewrite star_chr_cons. fold Any.
    rewrite IH by exact H. reflexivity.
Qed.

Lemma star_any_some (s : pystr) :
  forall prev, In 125%N s -> m (Star Any) prev s closing <> None.
Proof.
  induction s as [|x s IH]; intros prev H; [destruct H|].
  unfold Any. rewrite star_chr_cons. fold Any. cbn beta iota.
  destruct (in_dec N.eq_dec 125%N s) as [G|G].
  - specialize (IH (Some x) G).
    destruct (m (Star Any) (Some x) s closing); congruence.
  - rewrite star_any_none by exact G.
    destruct H as [->|H]; [|contradiction]. discriminate.
Qed.

Lemma json_object_at (prev : option N) (s : pystr) :
  match_at AIInsights.JSON_OBJECT prev s
  = match s with
    | c :: t => if (123 =? c)%N then m (Star Any) (Some c) t closing else None
    | [] => None
    end.
Proof. destruct s as [|c t]; reflexivity. Qed.

Lemma length_cut (a c : pystr) :
  firstn (length (a ++ c) - length c) (a ++ c) = a.
Proof.
  rewrite length_app, Nat.add_sub.
  rewrite firstn_app, Nat.sub_diag, firstn_all. cbn [firstn].
  apply app_nil_r.
Qed.

Lemma search_json_span (a b c : pystr) :
  forall prev,
    ~ In 123%N a -> ~ In 125%N c ->
    search_from AIInsights.JSON_OBJECT prev (a ++ 123%N :: b ++ 125%N :: c)
    = Some (123%N :: b ++ [125%N]).
Proof.
  induction a as [|x a IH]; intros prev Ha Hc.
  - cbn [app].
    assert (E : search_from AIInsights.JSON_OBJECT prev
                  (123%N :: b ++ 125%N :: c)
                = match match_at AIInsights.JSON_OBJECT prev
                          (123%N :: b ++ 125%N :: c) with
                  | Some rest =>
                      Some (firstn (length (123%N :: b ++ 125%N :: c)
                                    - length rest)
                                   (123%N :: b ++ 125%N :: c))
                  | None => search_from AIInsights.JSON_OBJECT (Some 123%N)
                              (b ++ 125%N :: c)
                  end) by reflexivity.
    rewrite E, json_object_at. cbn [N.eqb Pos.eqb].
    rewrite star_any_last by exact Hc. f_equal.
    replace (123%N :: b ++ 125%N :: c)
      with ((123%N :: b ++ [125%N]) ++ c)
      by (cbn [app]; rewrite <- app_assoc; reflexivity).
    apply length_cut.
  - cbn [app].
    assert (E : search_from AIInsights.JSON_OBJECT prev
                  (x :: a ++ 123%N :: b ++ 125%N :: c)
                = match match_at AIInsights.JSON_OBJECT prev
                          (x :: a ++ 123%N :: b ++ 125%N :: c) with
                  | Some rest =>
                      Some (firstn (length (x :: a ++ 123%N :: b ++ 125%N :: c)
                                    - length rest)
                                   (x :: a ++ 123%N :: b ++ 125%N :: c))
                  | None => search_from AIInsights.JSON_OBJECT (Some x)
                              (a ++ 123%N :: b ++ 125%N :: c)
                  end) by reflexivity.
    rewrite E, json_object_at.
    destruct (N.eqb_spec 123 x) as [G|G].
    { exfalso. apply Ha. left. symmetry. exact G. }
    apply IH; [|exact Hc]. intros G'. apply Ha. right. exact G'.
Qed.

Lemma search_json_some (a b c : pystr) :
  forall prev,
    search_from AIInsights.JSON_OBJECT prev (a ++ 123%N :: b ++ 125%N :: c)
    <> None.
Proof.
  induction a as [|x a IH]; intros prev.
  - cbn [app search_from]. rewrite json_object_at. cbn [N.eqb Pos.eqb].
    pose proof (star_any_some (b ++ 125%N :: c) (Some 123%N)) as H.
    destruct (m (Star Any) (Some 123%N) (b ++ 125%N :: c) closing).
    + discriminate.
    + exfalso. apply H; [|reflexivity]. apply in_or_app. right. left.
      reflexivity.
  - cbn [app search_from].
    destruct (match_at AIInsights.JSON_OBJECT prev _); [discriminate|].
    apply IH.
Qed.

Lemma search_json_none (s : pystr) :
  forall prev,
    (forall a b c, s <> a ++ 123%N :: b ++ 125%N :: c) ->
    search_from AIInsights.JSON_OBJECT prev s = None.
Proof.
  induction s as [|x s IH]; intros prev H; [reflexivity|].
  cbn [search_from]. rewrite json_object_at.
  assert (Hs : search_from AIInsights.JSON_OBJECT (Some x) s = None).
  { apply IH. intros a b c E. apply (H (x :: a) b c). rewrite E.
    reflexivity. }
  destruct (N.eqb_spec 123 x) as [G|G]; [|exact Hs].
  rewrite star_any_none; [exact Hs|].
  intros G'. apply in_split in G' as [b [c E]].
  apply (H [] b c). cbn [app]. congruence.
Qed.

End JsonSpan.

(** X13. The text that [generate_deep_insights] and
    [generate_action_items] hand to [json.loads]: the answer from its
    first opening brace to its last closing brace, when a closing brace
    follows an opening one; there is no such text exactly when no
    closing brace follows an opening one. *)
Theorem json_object_span :
  (forall a b c : pystr,
     ~ In 123%N a -> ~ In 125%N c ->
     Re.search JSON_OBJECT (a ++ u "{" ++ b ++ u "}" ++ c)
     = Some (u "{" ++ b ++ u "}"))
  /\ (forall s : pystr,
        Re.search JSON_OBJECT s = None
        <-> ~ exists a b c : pystr, s = a ++ u "{" ++ b ++ u "}" ++ c).
Proof.
  split.
  - intros a b c Ha Hc. apply search_json_span; assumption.
  - intros s. split.
    + intros H [a [b [c E]]]. subst s.
      exact (search_json_some a b c None H).
    + intros H. apply search_json_none. intros a b c E.
      apply H. exists a, b, c. exact E.
Qed.

(** ** The report generator and the provider *)

(** X14. When the answer of the provider holds a [{...}] text that
    [json.loads] accepts, [generate_deep_insights] returns the parsed
    value as it is, and [generate_product_insights] returns it when it is
    truthy; a parsed value that is falsy (the empty object [{}], for one)
    gives the rule-based insights. *)
Theorem product_insights_from_answer (json_loads : pystr -> option json)
    (a : AI) (analyzed_posts : list AnalyzedPost) (themes : list Theme)
    (pre b post : pystr) (v : json) :
  generate a (insights_prompt (insights_data analyzed_posts)
                (map name (firstn 5 themes))) 400
  = pre ++ u "{" ++ b ++ u "}" ++ post ->
  ~ In 123%N pre -> ~ In 125%N post ->
  json_loads (u "{" ++ b ++ u "}") = Some v ->
  generate_deep_insights json_loads a (insights_data analyzed_posts)
    (map name (firstn 5 themes)) = v
  /\ generate_product_insights json_loads {| ai := Some a |}
       analyzed_posts themes
     = if truthy v then v else rule_based_insights analyzed_posts themes.
Proof.
  intros E Hpre Hpost Hv.
  assert (G : generate_deep_insights json_loads a
                (insights_data analyzed_posts) (map name (firstn 5 themes))
              = v).
  { unfold generate_deep_insights. rewrite E.
    change (pre ++ u "{" ++ b ++ u "}" ++ post)
      with (pre ++ 123%N :: b ++ 125%N :: post).
    unfold Re.search.
    rewrite (search_json_span pre b post None Hpre Hpost).
    change (123%N :: b ++ [125%N]) with (u "{" ++ b ++ u "}").
    rewrite Hv. reflexivity. }
  split; [exact G|].
  unfold generate_product_insights. cbn [ai]. rewrite G. reflexivity.
Qed.

Lemma product_insights_from_answer_witness :
  let a := {| generate := fun _ _ => u "Sure: {} was all." |} in
  let json_loads := fun _ : pystr => Some (JObj []) in
  generate_deep_insights json_loads a (insights_data [])
    (map name (firstn 5 [])) = JObj []
  /\ generate_product_insights json_loads {| ai := Some a |} [] []
     = rule_based_insights [] [].
Proof.
  intros a json_loads.
  apply (product_insights_from_answer json_loads a [] []
           (u "Sure: ") [] (u " was all.") (JObj [])).
  - reflexivity.
  - simpl. intuition discriminate.
  - simpl. intuition discriminate.
  - reflexivity.
Defined.

Lemma firstn_firstn_le {A} (i j : nat) (l : list A) :
  (i <= j)%nat -> firstn i (firstn j l) = firstn i l.
Proof. intros H. rewrite firstn_firstn. f_equal. lia. Qed.

(** X15. What the provider is asked about the insights: the titles, cut
    to 80 characters, of the first eight negative and the first eight
    positive posts among the first 30 posts of the batch, and the names of
    the first five themes. *)
Theorem insights_prompt_data (analyzed_posts : list AnalyzedPost)
    (themes : list Theme) :
  let cut := fun p : AnalyzedPost => prefix 80 (title p) in
  let among := fun l : Label =>
    firstn 8 (filter (fun p => Label_eqb (label (sentiment p)) l)
                     (firstn 30 analyzed_posts)) in
  insights_prompt (insights_data analyzed_posts) (map name (firstn 5 themes))
  = InsightsPrompt (map cut (among negative)) (map cut (among positive))
      (map name (firstn 5 themes)).
Proof.
  intros cut among. unfold insights_prompt, insights_data.
  rewrite !filter_map_swap. cbn [pd_label].
  rewrite <- !firstn_map, !map_map. cbn [pd_title].
  rewrite firstn_firstn_le by lia.
  unfold among, cut. rewrite <- !firstn_map. reflexivity.
Qed.

(** X16. The executive summary when a provider is configured and there
    is at least one post.  The provider is asked about the first twelve
    posts only, with titles cut to 100, bodies to 150 and comments to 200
    characters; its answer is the summary when it is longer than 50
    characters, and otherwise the summary is the rule-based one, the
    same as without a provider. *)
Theorem executive_summary_with_provider (a : AI) (subreddit : pystr)
    (p : AnalyzedPost) (posts : list AnalyzedPost) (themes : list Theme)
    (sentiment_dist : Distribution) :
  let batch := p :: posts in
  let asked :=
    map (fun p => {| pd_title := prefix 100 (title p);
                     pd_body := prefix 150 (body p);
                     pd_comments := prefix 200 (post_comments p);
                     pd_label := label (sentiment p) |})
        (firstn 12 batch) in
  let answer := generate a (SummaryPrompt subreddit asked sentiment_dist) 400 in
  generate_executive_summary {| ai := Some a |} subreddit batch themes
    sentiment_dist
  = if (50 <? length answer)%nat then answer
    else generate_executive_summary {| ai := None |} subreddit batch themes
           sentiment_dist.
Proof.
  intros batch asked answer.
  unfold generate_executive_summary, batch. cbn [ai].
  unfold AIInsights.generate_executive_summary.
  rewrite <- firstn_map, map_map. cbn [pd_title pd_body pd_comments pd_label].
  rewrite firstn_map, firstn_firstn_le by lia.
  assert (E : forall q : AnalyzedPost,
            {| pd_title := prefix 100 (title q);
               pd_body := prefix 150 (prefix 200 (body q));
               pd_comments := prefix 200 (prefix 300 (post_comments q));
               pd_label := label (sentiment q) |}
            = {| pd_title := prefix 100 (title q);
                 pd_body := prefix 150 (body q);
                 pd_comments := prefix 200 (post_comments q);
                 pd_label := label (sentiment q) |}).
  { intros q. unfold prefix. rewrite !firstn_firstn_le by lia. reflexivity. }
  rewrite (map_ext _ _ E). reflexivity.
Qed.

(** ** The highlights of the summary and of the insights *)

Lemma max_by_sorted {A} (key : A -> Z) (l : list A) :
  Py.max_by key l = hd_error (Py.sorted_desc key l).
Proof.
  induction l as [|x l IH]; [reflexivity|].
  cbn [Py.max_by Py.sorted_desc fold_right]. fold (Py.sorted_desc key l).
  rewrite IH. destruct (Py.sorted_desc key l) as [|y rest]; [reflexivity|].
  cbn [hd_error Py.insert_desc].
  destruct (Z.ltb_spec (key x) (key y)) as [L|L];
    destruct (Z.leb_spec (key y) (key x)) as [G|G]; try lia; reflexivity.
Qed.

Lemma join_substring (sep x : pystr) (l : list pystr) :
  In x l -> substring x (join sep l).
Proof.
  induction l as [|y [|z l] IH]; intros H.
  - destruct H.
  - destruct H as [->|[]]. exists [], []. cbn [join app].
    now rewrite app_nil_r.
  - destruct H as [->|H].
    + exists [], (sep ++ join sep (z :: l)). reflexivity.
    + destruct (IH H) as [pre [suf E]].
      exists (y ++ sep ++ pre), suf.
      change (join sep (y :: z :: l)) with (y ++ sep ++ join sep (z :: l)).
      rewrite E, <- !app_assoc. reflexivity.
Qed.

Lemma top_of_label (key : AnalyzedPost -> Z) (l : Label)
    (posts : list AnalyzedPost) (q : AnalyzedPost) :
  In q posts -> label (sentiment q) = l ->
  exists top rest,
    Py.sorted_desc key
      (filter (fun p => Label_eqb (label (sentiment p)) l) posts)
    = top :: rest
    /\ Py.max_by key
         (filter (fun p => Label_eqb (label (sentiment p)) l) posts)
       = Some top
    /\ In top posts /\ label (sentiment top) = l
    /\ forall p, In p posts -> label (sentiment p) = l ->
                 (key p <= key top)%Z.
Proof.
  intros Hq Hl.
  set (chosen := filter (fun p => Label_eqb (label (sentiment p)) l) posts).
  assert (Hin : forall p, In p chosen
                          <-> In p posts /\ label (sentiment p) = l).
  { intros p. unfold chosen. rewrite filter_In.
    destruct (label (sentiment p)), l; cbn [Label_eqb];
      intuition congruence. }
  destruct (Py.sorted_desc key chosen) as [|top rest] eqn:E.
  { exfalso. assert (H : In q chosen) by (apply Hin; auto).
    apply (Permutation_in _ (Permutation_sym (sorted_desc_perm key chosen)))
      in H.
    rewrite E in H. destruct H. }
  exists top, rest. split; [reflexivity|].
  split; [rewrite max_by_sorted, E; reflexivity|].
  destruct (sorted_desc_head key chosen top rest E) as [H1 H2].
  apply Hin in H1 as [H1 H1']. repeat split; [exact H1|exact H1'|].
  intros p Hp Hpl. apply H2, Hin. auto.
Qed.

(** X17. The highlights agree.  When the batch has a negative post, the
    concern that the rule-based summary quotes and the first frustration
    of the rule-based insights are titles of one and the same post (cut
    to 60 and to 100 characters): a negative post of the batch whose
    impact score no negative post exceeds.  When the batch has a positive
    post, the praise that the summary quotes and the first of the likes
    are titles of one positive post (cut to 50 and to 100 characters)
    whose score no positive post exceeds. *)
Theorem highlights_agree (subreddit : pystr)
    (analyzed_posts : list AnalyzedPost) (themes : list Theme)
    (sentiment_dist : Distribution) :
  let summary :=
    generate_executive_summary {| ai := None |} subreddit analyzed_posts
      themes sentiment_dist in
  let insights := rule_based_insights analyzed_posts themes in
  (forall q, In q analyzed_posts -> label (sentiment q) = negative ->
     exists top others,
       In top analyzed_posts /\ label (sentiment top) = negative
       /\ (forall p, In p analyzed_posts -> label (sentiment p) = negative ->
                     (impact_score p <= impact_score top)%Z)
       /\ substring (u "Notable concerns include: " ++ quote
                       ++ prefix 60 (title top) ++ u "..." ++ quote) summary
       /\ entry "frustrations" insights
          = Some (strings (prefix 100 (title top) :: others)))
  /\ (forall q, In q analyzed_posts -> label (sentiment q) = positive ->
        exists top others,
          In top analyzed_posts /\ label (sentiment top) = positive
          /\ (forall p, In p analyzed_posts ->
                        label (sentiment p) = positive ->
                        (post_score p <= post_score top)%Z)
          /\ substring (u "Users appreciate certain aspects, as shown in: "
                          ++ quote ++ prefix 50 (title top) ++ u "..."
                          ++ quote) summary
          /\ entry "likes" insights
             = Some (strings (prefix 100 (title top) :: others))).
Proof.
  intros summary insights. split; intros q Hq Hl.
  - destruct (top_of_label impact_score negative analyzed_posts q Hq Hl)
      as [top [rest [Es [Em [Hin [Hlab Hmax]]]]]].
    exists top, (map (fun p => prefix 100 (title p)) (firstn 2 rest)).
    repeat split; try assumption.
    + unfold summary, generate_executive_summary. cbn [ai].
      destruct analyzed_posts as [|p0 posts]; [destruct Hq|].
      unfold rule_based_summary. rewrite Em.
      apply join_substring. apply in_or_app. right.
      apply in_or_app. right. apply in_or_app. left. left. reflexivity.
    + unfold insights, rule_based_insights, entry. rewrite Es.
      reflexivity.
  - destruct (top_of_label post_score positive analyzed_posts q Hq Hl)
      as [top [rest [Es [Em [Hin [Hlab Hmax]]]]]].
    exists top, (map (fun p => prefix 100 (title p)) (firstn 2 rest)).
    repeat split; try assumption.
    + unfold summary, generate_executive_summary. cbn [ai].
      destruct analyzed_posts as [|p0 posts]; [destruct Hq|].
      unfold rule_based_summary. rewrite Em.
      apply join_substring. apply in_or_app. right.
      apply in_or_app. right. apply in_or_app. right.
      apply in_or_app. left. left. reflexivity.
    + unfold insights, rule_based_insights, entry. rewrite Es.
      reflexivity.
Qed.

(** ** The interpretation of a distribution *)

Lemma Qltb_true (x y : Q) : (x < y)%Q -> Py.Qltb x y = true.
Proof.
  intros H. unfold Py.Qltb. destruct (Qle_bool y x) eqn:B; [|reflexivity].
  apply Qle_bool_iff in B. exfalso. exact (Qlt_not_le _ _ H B).
Qed.

Lemma Qltb_false (x y : Q) : (y <= x)%Q -> Py.Qltb x y = false.
Proof.
  intros H. unfold Py.Qltb. apply Qle_bool_iff in H. now rewrite H.
Qed.

Lemma round1_above (k : Z) (x : Q) :
  (inject_Z (10 * k) + (1 # 2) < x * 10)%Q ->
  Py.Qltb (inject_Z k) (Py.round1 x) = true.
Proof.
  intros H. apply Qltb_true. unfold Py.round1.
  pose proof (round_half_even_near (x * 10)) as [_ H2].
  apply Qlt_shift_div_l; [reflexivity|].
  rewrite inject_Z_mult in H. change (inject_Z 10) with 10%Q in H. lra.
Qed.

Lemma round1_below (k : Z) (x : Q) :
  (x * 10 < inject_Z (10 * k) + (1 # 2))%Q ->
  Py.Qltb (inject_Z k) (Py.round1 x) = false.
Proof.
  intros H. apply Qltb_false. unfold Py.round1.
  pose proof (round_half_even_near (x * 10)) as [H1 _].
  apply Qle_shift_div_r; [reflexivity|].
  assert (L : (Py.round_half_even (x * 10) < 10 * k + 1)%Z).
  { rewrite Zlt_Qlt, inject_Z_plus, inject_Z_mult.
    change (inject_Z 10) with 10%Q. rewrite inject_Z_mult in H.
    change (inject_Z 10) with 10%Q in H.
    change (inject_Z 1) with 1%Q. lra. }
  assert (L' : (Py.round_half_even (x * 10) <= 10 * k)%Z) by lia.
  rewrite Zle_Qle, inject_Z_mult in L'.
  change (inject_Z 10) with 10%Q in L'. lra.
Qed.

Lemma share_times_ten (c n : nat) :
  (0 < n)%nat ->
  (inject_Z (Z.of_nat c) / inject_Z (Z.of_nat n) * 100 * 10
   == inject_Z (1000 * Z.of_nat c) / inject_Z (Z.of_nat n))%Q.
Proof.
  intros Hn. rewrite inject_Z_mult. change (inject_Z 1000) with 1000%Q.
  field. intros H. apply (f_equal Qnum) in H || idtac.
  assert (G : (0 < inject_Z (Z.of_nat n))%Q) by (unfold Qlt; simpl; lia).
  rewrite H in G. discriminate G.
Qed.

Lemma share_above (k : Z) (c n : nat) :
  (0 < n)%nat ->
  ((20 * k + 1) * Z.of_nat n < 2000 * Z.of_nat c)%Z ->
  Py.Qltb (inject_Z k)
    (Py.round1 (inject_Z (Z.of_nat c) / inject_Z (Z.of_nat n) * 100))
  = true.
Proof.
  intros Hn H. apply round1_above. rewrite share_times_ten by exact Hn.
  apply Qlt_shift_div_l; [unfold Qlt; simpl; lia|].
  unfold Qlt, Qplus, Qmult, inject_Z. cbn [Qnum Qden]. lia.
Qed.

Lemma share_below (k : Z) (c n : nat) :
  (0 < n)%nat ->
  (2000 * Z.of_nat c < (20 * k + 1) * Z.of_nat n)%Z ->
  Py.Qltb (inject_Z k)
    (Py.round1 (inject_Z (Z.of_nat c) / inject_Z (Z.of_nat n) * 100))
  = false.
Proof.
  intros Hn H. apply round1_below. rewrite share_times_ten by exact Hn.
  apply Qlt_shift_div_r; [unfold Qlt; simpl; lia|].
  unfold Qlt, Qplus, Qmult, inject_Z. cbn [Qnum Qden]. lia.
Qed.


(** ** The pipeline *)

Lemma distribution_binary64_total (p : AnalyzedPost)
    (posts : list AnalyzedPost) :
  let d := calculate_sentiment_distribution_binary64 (p :: posts) in
  (Qabs (pct_positive d + pct_neutral d + pct_negative d - 100)
   <= (1 # 10) + 3 * Py.pow2 (-47))%Q.
Proof.
  intros d. subst d. unfold calculate_sentiment_distribution_binary64.
  cbn [pct_positive pct_neutral pct_negative].
  pose proof (count_labels (p :: posts)) as Hsum.
  apply three_float_percentages; try lia.
  simpl length. lia.
Qed.

Lemma sorted_desc_ranked {A} (key : A -> Z) (l : list A) :
  ranked_by key l (Py.sorted_desc key l).
Proof.
  split; [apply sorted_desc_perm|].
  split; [apply sorted_desc_sorted|].
  intros k. apply sorted_desc_stable.
Qed.

(** X19. The pipeline of [run_analysis].  It gives no report exactly
    when the fetch failed or no fetched post has a cleaned title of more
    than 5 characters.  A report counts the posts with such a title (at
    least one), which are the posts analyzed.  Its percentages add up to
    100 within 0.1 and the error of three floats.  Its issues are made
    from the first three of the analyzed posts in descending order of
    impact score (posts of equal score in their order), or from all when
    there are fewer, each with a title of 6 to 100 characters.  It has
    at most six themes, and none when the mode does not contain the word
    themes.  It is marked as enhanced exactly when a provider is
    configured and the impact score of every issue converts to a
    float. *)
Theorem run_analysis_report (T : Unicode.tables)
    (analyzer : NLPAnalyzer.analyzer) (report_gen : generator)
    (json_loads : pystr -> option json)
    (fetched : option (list RedditPost)) (now : pystr) (processing_time : Q)
    (subreddit mode : pystr) :
  let kept :=
    match fetched with
    | Some raw_posts =>
        filter (fun post => (5 <? length (clean_text T (r_title post)))%nat)
               raw_posts
    | None => []
    end in
  let analyzed := analyze_posts T analyzer (map (process_post T) kept) in
  match App.run_analysis T analyzer report_gen json_loads fetched now
          processing_time subreddit mode with
  | None => kept = []
  | Some report =>
      posts_analyzed report = length kept
      /\ (1 <= posts_analyzed report)%nat
      /\ (let d := sentiment_distribution report in
          Qabs (pct_positive d + pct_neutral d + pct_negative d - 100)
          <= (1 # 10) + 3 * Py.pow2 (-47))%Q
      /\ (exists ranked : list AnalyzedPost,
            ranked_by impact_score analyzed ranked
            /\ high_impact_issues report = map issue_of (firstn 3 ranked))
      /\ length (high_impact_issues report)
         = Nat.min 3 (posts_analyzed report)
      /\ Forall (fun i => (6 <= length (issue_title i) <= 100)%nat)
           (high_impact_issues report)
      /\ (length (ReportGenerator.themes report) <= 6)%nat
      /\ (contains (u "themes") mode = false ->
          ReportGenerator.themes report = [])
      /\ (ai_enhanced report = true
          <-> ai report_gen <> None
              /\ Forall formattable (high_impact_issues report))
  end.
Proof.
  intros kept analyzed. unfold App.run_analysis.
  destruct fetched as [raw_posts|]; [|reflexivity].
  pose proof (process_posts_filter T raw_posts) as E. fold kept in E.
  pose proof (process_posts_titled T raw_posts) as Ht.
  destruct (process_posts T raw_posts) as [|p0 processed] eqn:P.
  { destruct kept; [reflexivity|discriminate E]. }
  set (batch := p0 :: processed) in *.
  assert (Ea : analyzed = analyze_posts T analyzer batch)
    by (unfold analyzed; rewrite <- E; reflexivity).
  clearbody analyzed. subst analyzed.
  set (analyzed := analyze_posts T analyzer batch).
  assert (Hlen : length analyzed = length kept).
  { unfold analyzed, analyze_posts. rewrite length_map, E, length_map.
    reflexivity. }
  assert (Hpos : (1 <= length kept)%nat).
  { rewrite <- Hlen. unfold analyzed, batch. simpl. lia. }
  set (issues := get_high_impact_issues analyzed 3).
  assert (Hslice : issues
                   = map issue_of
                       (firstn 3 (Py.sorted_desc impact_score analyzed)))
    by reflexivity.
  assert (Hhigh : length issues = Nat.min 3 (length kept)).
  { rewrite Hslice, length_map, length_firstn,
      (Permutation_length (sorted_desc_perm _ _)), Hlen. reflexivity. }
  assert (Htitles : Forall (fun i => (6 <= length (issue_title i) <= 100)%nat)
                      issues).
  { rewrite Hslice. apply Forall_forall. intros i Hi.
    apply in_map_iff in Hi as [q [<- Hq]]. apply firstn_incl in Hq.
    apply (Permutation_in _ (sorted_desc_perm impact_score analyzed)) in Hq.
    apply in_map_iff in Hq as [pp [<- Hpp]].
    destruct (Ht pp Hpp) as [post [_ L]].
    unfold issue_of, analyze_post, prefix. cbn [issue_title title].
    rewrite length_firstn. lia. }
  assert (Hdist : (let d := calculate_sentiment_distribution_binary64 analyzed in
                   Qabs (pct_positive d + pct_neutral d + pct_negative d - 100)
                   <= (1 # 10) + 3 * Py.pow2 (-47))%Q).
  { unfold analyzed, batch, analyze_posts. cbn [map].
    apply distribution_binary64_total. }
  assert (Hthemes : (length (if contains (u "themes") mode
                             then extract_themes T analyzed else [])
                     <= 6)%nat).
  { destruct (contains (u "themes") mode).
    - unfold extract_themes. apply firstn_le_length.
    - simpl. lia. }
  assert (Hfive : firstn 5 issues = issues).
  { apply firstn_all2. rewrite Hhigh. lia. }
  assert (Hflag : forall themes : list pystr,
            match ai report_gen with
            | Some a =>
                match generate_action_items json_loads a issues themes with
                | Py.Returns _ => true
                | Py.Raises _ => false
                end
            | None => false
            end = true
            <-> ai report_gen <> None /\ Forall formattable issues).
  { intros themes. destruct (ai report_gen) as [a|].
    - pose proof (action_items_returns json_loads a issues themes) as H.
      rewrite Hfive in H.
      destruct (generate_action_items json_loads a issues themes).
      + split; [intros _; split; [discriminate|exact H]|reflexivity].
      + split; [discriminate|intros [_ F]; contradiction].
    - split; [discriminate|intros [F _]; congruence]. }
  unfold generate_full_report. fold analyzed issues.
  set (themes := if contains (u "themes") mode
                 then extract_themes T analyzed else []) in *.
  specialize (Hflag (map name themes)).
  destruct (ai report_gen) as [a|];
    [destruct (generate_action_items json_loads a issues (map name themes))|];
    cbn [posts_analyzed sentiment_distribution high_impact_issues
         ReportGenerator.themes ai_enhanced];
    (split; [exact Hlen|]); (split; [rewrite Hlen; exact Hpos|]);
    (split; [exact Hdist|]);
    (split; [exists (Py.sorted_desc impact_score analyzed);
             split; [apply sorted_desc_ranked|exact Hslice]|]);
    (split; [rewrite Hlen; exact Hhigh|]);
    (split; [exact Htitles|]);
    (split; [exact Hthemes|]);
    (split; [unfold themes; intros ->; reflexivity|exact Hflag]).
Qed.

Lemma issues_text_formattable (issues : list Issue) :
  Forall formattable issues ->
  issues_text issues
  = Py.Returns
      (map (fun i => (issue_title i,
                      Py.round64 (inject_Z (issue_impact_score i))))
           issues).
Proof.
  induction 1 as [|i issues Hi _ IH]; [reflexivity|].
  cbn [issues_text map]. unfold Py.float_of_int.
  unfold formattable in Hi. apply Z.ltb_lt in Hi. rewrite Hi, IH.
  reflexivity.
Qed.

(** X20. The action items.  When the impact score of each of the first
    five issues converts to a float, the provider is asked about these
    issues (title, and impact score as a float) and the first three
    themes; if its answer holds a [{...}] text that [json.loads] turns
    into an object, the action items are the value the object has for
    the key items, whatever it is, and the empty list when it has none;
    if the text parses to anything else, they are the empty list.  When
    one of these impact scores does not convert, the call raises
    [OverflowError], whatever the provider would answer. *)
Theorem action_items_from_answer (json_loads : pystr -> option json)
    (a : AI) (high_impact_issues : list Issue) (themes : list pystr)
    (pre b post : pystr) (v : json) :
  Forall formattable (firstn 5 high_impact_issues) ->
  generate a (ActionsPrompt
                (map (fun i => (issue_title i,
                                Py.round64 (inject_Z (issue_impact_score i))))
                     (firstn 5 high_impact_issues))
                (firstn 3 themes)) 300
  = pre ++ u "{" ++ b ++ u "}" ++ post ->
  ~ In 123%N pre -> ~ In 125%N post ->
  json_loads (u "{" ++ b ++ u "}") = Some v ->
  generate_action_items json_loads a high_impact_issues themes
  = Py.Returns match entry "items" v with
               | Some items => items
               | None => JList []
               end
  /\ forall others : list Issue,
       ~ Forall formattable (firstn 5 others) ->
       generate_action_items json_loads a others themes
       = Py.Raises Py.OverflowError.
Proof.
  intros F E Hpre Hpost Hv. split.
  - unfold generate_action_items.
    rewrite (issues_text_formattable _ F), E.
    change (pre ++ u "{" ++ b ++ u "}" ++ post)
      with (pre ++ 123%N :: b ++ 125%N :: post).
    unfold Re.search. rewrite (search_json_span pre b post None Hpre Hpost).
    change (123%N :: b ++ [125%N]) with (u "{" ++ b ++ u "}").
    rewrite Hv. destruct v; reflexivity.
  - intros others Ho. unfold generate_action_items.
    pose proof (issues_text_spec (firstn 5 others)) as H.
    destruct (issues_text (firstn 5 others)) as [l|[]];
      [destruct H; contradiction|reflexivity].
Qed.

(** An answer with the object [{"items": [1]}] between two sentences,
    and a parser that knows this one text. *)
Lemma action_items_from_answer_witness :
  let object := u "{" ++ quote ++ u "items" ++ quote ++ u ": [1]}" in
  let a := {| generate := fun _ _ => u "Plan: " ++ object ++ u " Done." |} in
  let json_loads := fun t : pystr =>
    if PyStr.eqb t object
    then Some (JObj [(u "items", JList [JNum 1])]) else None in
  let issue := {| issue_title := u "Battery drains overnight";
                  issue_impact_score := 52; issue_score := 30;
                  issue_comments := 12; issue_sentiment := negative |} in
  generate_action_items json_loads a [issue] [u "Battery & Power"]
  = Py.Returns (JList [JNum 1]).
Proof.
  intros object a json_loads issue.
  apply (action_items_from_answer json_loads a [issue] [u "Battery & Power"]
           (u "Plan: ") (quote ++ u "items" ++ quote ++ u ": [1]")
           (u " Done.") (JObj [(u "items", JList [JNum 1])])).
  - repeat constructor.
  - reflexivity.
  - simpl. intuition discriminate.
  - simpl. intuition discriminate.
  - reflexivity.
Defined.

(** X21. The rule-based insights have five entries, in the order likes,
    frustrations, worsening, improving, opportunities.  The likes are the
    titles, cut to 100 characters, of the first three positive posts in
    descending order of score (posts of equal score in their order), or
    of all when there are fewer; the frustrations are the same of the
    negative posts in descending order of impact score; worsening and
    improving list the names of the themes of negative and of positive
    mood, in the order of the themes.  Each of the four lists is replaced
    by one fixed sentence when it would be empty, so that none of the
    five lists is empty. *)
Theorem rule_based_insights_shape (analyzed_posts : list AnalyzedPost)
    (themes : list Theme) :
  let cut := fun p : AnalyzedPost => prefix 100 (title p) in
  exists liked disliked : list AnalyzedPost,
    ranked_by post_score (with_label positive analyzed_posts) liked
    /\ ranked_by impact_score (with_label negative analyzed_posts) disliked
    /\ let likes :=
         or_sentence (map cut (firstn 3 liked))
           "No strongly positive posts in this sample" in
       let frustrations :=
         or_sentence (map cut (firstn 3 disliked))
           "No significant frustrations detected" in
       let worsening :=
         or_sentence (map name (filter (has_mood mood_negative) themes))
           "No clear worsening trends detected" in
       let improving :=
         or_sentence (map name (filter (has_mood mood_positive) themes))
           "No clear improving trends detected" in
       rule_based_insights analyzed_posts themes
       = JObj [(u "likes", strings likes);
               (u "frustrations", strings frustrations);
               (u "worsening", strings worsening);
               (u "improving", strings improving);
               (u "opportunities",
                strings
                  [u "Increase sample size for better opportunity detection"])]
       /\ likes <> [] /\ frustrations <> []
       /\ worsening <> [] /\ improving <> []
       /\ (length likes <= 3)%nat /\ (length frustrations <= 3)%nat
       /\ (with_label positive analyzed_posts <> [] ->
           length likes
           = Nat.min 3 (length (with_label positive analyzed_posts))
           /\ Forall (fun t => (length t <= 100)%nat) likes)
       /\ (with_label negative analyzed_posts <> [] ->
           length frustrations
           = Nat.min 3 (length (with_label negative analyzed_posts))
           /\ Forall (fun t => (length t <= 100)%nat) frustrations).
Proof.
  intros cut.
  set (pos := with_label positive analyzed_posts).
  set (neg := with_label negative analyzed_posts).
  exists (Py.sorted_desc post_score pos), (Py.sorted_desc impact_score neg).
  split; [apply sorted_desc_ranked|]. split; [apply sorted_desc_ranked|].
  assert (Hm : forall m : Mood,
            (m = mood_negative \/ m = mood_positive) ->
            filter (has_mood m) themes
            = filter (fun t => match m, mood t with
                               | mood_negative, mood_negative
                               | mood_positive, mood_positive => true
                               | _, _ => false
                               end) themes).
  { intros m [-> | ->]; apply filter_ext; intros t; unfold has_mood;
      destruct (mood t); reflexivity. }
  assert (Hcut : forall l, Forall (fun t => (length t <= 100)%nat)
                             (map cut l)).
  { intros l. apply Forall_forall. intros t Ht.
    apply in_map_iff in Ht as [p [<- _]]. unfold cut, prefix.
    rewrite length_firstn. lia. }
  assert (Hlen : forall (key : AnalyzedPost -> Z) (l : list AnalyzedPost),
            length (map cut (firstn 3 (Py.sorted_desc key l)))
            = Nat.min 3 (length l)).
  { intros key l. rewrite length_map, length_firstn.
    now rewrite (Permutation_length (sorted_desc_perm key l)). }
  assert (Hor : forall (l : list pystr) (sentence : string),
            or_sentence l sentence <> []
            /\ ((length l <= 3)%nat -> (length (or_sentence l sentence) <= 3)%nat)
            /\ (l <> [] -> or_sentence l sentence = l)).
  { intros [|x l] sentence; cbn [or_sentence length];
      repeat split; try discriminate; try lia; congruence. }
  cbv zeta.
  set (L := map cut (firstn 3 (Py.sorted_desc post_score pos))).
  set (F := map cut (firstn 3 (Py.sorted_desc impact_score neg))).
  split.
  { unfold rule_based_insights. fold (with_label positive analyzed_posts).
    fold (with_label negative analyzed_posts). fold pos neg. fold cut.
    fold L F. rewrite (Hm mood_negative (or_introl eq_refl)).
    rewrite (Hm mood_positive (or_intror eq_refl)).
    unfold or_sentence. reflexivity. }
  split; [apply Hor|]. split; [apply Hor|].
  split; [apply Hor|]. split; [apply Hor|].
  split; [apply Hor; unfold L; rewrite Hlen; lia|].
  split; [apply Hor; unfold F; rewrite Hlen; lia|].
  split.
  - intros Hp.
    assert (HL : L <> []).
    { intros E. apply (f_equal (@length pystr)) in E. unfold L in E.
      rewrite Hlen in E. destruct pos; [congruence|simpl in E; lia]. }
    destruct (Hor L "No strongly positive posts in this sample"%string)
      as [_ [_ H3]].
    rewrite (H3 HL). split; [apply Hlen|apply Hcut].
  - intros Hn.
    assert (HF : F <> []).
    { intros E. apply (f_equal (@length pystr)) in E. unfold F in E.
      rewrite Hlen in E. destruct neg; [congruence|simpl in E; lia]. }
    destruct (Hor F "No significant frustrations detected"%string)
      as [_ [_ H3]].
    rewrite (H3 HF). split; [apply Hlen|apply Hcut].
Qed.

(** ** The interpretation of the distribution that the floats give *)

Lemma float_share_above (k c n : Z) :
  (0 <= c <= n)%Z -> (0 < n < 2 ^ 32)%Z ->
  ((20 * k + 1) * n < 2000 * c)%Z ->
  Py.Qltb (inject_Z k)
    (Py.float_round1 (Py.float_mul (Py.truediv c n) 100)) = true.
Proof.
  intros Hc [Hn Hb] H. apply Qltb_true.
  destruct (float_percentage c n Hc Hn) as [A1 [A2 A3]]. cbv zeta in *.
  destruct pow2_values as [_ [_ [_ [V47 _]]]]. rewrite V47 in A3.
  set (x := Py.float_mul (Py.truediv c n) 100) in *.
  set (d := Py.round_half_even (x * 10)) in *.
  set (p := Py.float_round1 x) in *.
  apply Qabs_bound in A1, A2, A3.
  assert (Qn : (0 < inject_Z n)%Q) by (apply inject_Z_pos; exact Hn).
  assert (Qb : (inject_Z n < 4294967296)%Q).
  { change 4294967296%Q with (inject_Z (2 ^ 32)). rewrite <- Zlt_Qlt.
    exact Hb. }
  assert (Hz : (inject_Z (20 * k + 1) * inject_Z n + 1
                <= 2000 * inject_Z c)%Q).
  { change 2000%Q with (inject_Z 2000). change 1%Q with (inject_Z 1).
    rewrite <- !inject_Z_mult, <- inject_Z_plus, <- Zle_Qle. lia. }
  assert (Hy : (inject_Z (20 * k + 1) / 20 + (1 # 85899345920)
                <= inject_Z c / inject_Z n * 100)%Q).
  { assert (E : (inject_Z c / inject_Z n * 100
                 == 100 * inject_Z c / inject_Z n)%Q) by (field; lra).
    rewrite E. apply Qle_shift_div_l; [exact Qn|].
    assert (E2 : ((inject_Z (20 * k + 1) / 20 + (1 # 85899345920))
                  * inject_Z n
                  == (1 # 20) * (inject_Z (20 * k + 1) * inject_Z n)
                     + (1 # 85899345920) * inject_Z n)%Q) by field.
    rewrite E2. lra. }
  assert (Hk : (inject_Z (20 * k + 1) == 20 * inject_Z k + 1)%Q).
  { rewrite inject_Z_plus, inject_Z_mult. reflexivity. }
  rewrite Hk in Hy.
  assert (E3 : ((20 * inject_Z k + 1) / 20 == inject_Z k + (1 # 20))%Q)
    by field.
  rewrite E3 in Hy.
  assert (Hd : (10 * k + 1 <= d)%Z).
  { assert (G : (10 * k < d)%Z); [|lia].
    rewrite Zlt_Qlt, inject_Z_mult. change (inject_Z 10) with 10%Q. lra. }
  rewrite Zle_Qle, inject_Z_plus, inject_Z_mult in Hd.
  change (inject_Z 10) with 10%Q in Hd. change (inject_Z 1) with 1%Q in Hd.
  assert (E4 : (inject_Z d / 10 == (1 # 10) * inject_Z d)%Q) by field.
  rewrite E4 in A3. lra.
Qed.

Lemma float_share_below (k c n : Z) :
  (0 <= c <= n)%Z -> (0 < n < 2 ^ 32)%Z ->
  (2000 * c < (20 * k + 1) * n)%Z ->
  (Py.round64 (inject_Z (10 * k) / 10) <= inject_Z k)%Q ->
  Py.Qltb (inject_Z k)
    (Py.float_round1 (Py.float_mul (Py.truediv c n) 100)) = false.
Proof.
  intros Hc [Hn Hb] H Hten. apply Qltb_false.
  destruct (float_percentage c n Hc Hn) as [A1 [A2 A3]]. cbv zeta in *.
  destruct pow2_values as [_ [_ [_ [V47 _]]]]. rewrite V47 in A3.
  set (x := Py.float_mul (Py.truediv c n) 100) in *.
  set (d := Py.round_half_even (x * 10)) in *.
  assert (Ep : Py.float_round1 x = Py.round64 (inject_Z d / 10))
    by reflexivity.
  set (p := Py.float_round1 x) in *.
  apply Qabs_bound in A1, A2, A3.
  assert (Qn : (0 < inject_Z n)%Q) by (apply inject_Z_pos; exact Hn).
  assert (Qb : (inject_Z n < 4294967296)%Q).
  { change 4294967296%Q with (inject_Z (2 ^ 32)). rewrite <- Zlt_Qlt.
    exact Hb. }
  assert (Hz : (2000 * inject_Z c + 1
                <= inject_Z (20 * k + 1) * inject_Z n)%Q).
  { change 2000%Q with (inject_Z 2000). change 1%Q with (inject_Z 1).
    rewrite <- !inject_Z_mult, <- inject_Z_plus, <- Zle_Qle. lia. }
  assert (Hy : (inject_Z c / inject_Z n * 100
                <= inject_Z (20 * k + 1) / 20 - (1 # 85899345920))%Q).
  { assert (E : (inject_Z c / inject_Z n * 100
                 == 100 * inject_Z c / inject_Z n)%Q) by (field; lra).
    rewrite E. apply Qle_shift_div_r; [exact Qn|].
    assert (E2 : ((inject_Z (20 * k + 1) / 20 - (1 # 85899345920))
                  * inject_Z n
                  == (1 # 20) * (inject_Z (20 * k + 1) * inject_Z n)
                     - (1 # 85899345920) * inject_Z n)%Q) by field.
    rewrite E2. lra. }
  assert (Hk : (inject_Z (20 * k + 1) == 20 * inject_Z k + 1)%Q).
  { rewrite inject_Z_plus, inject_Z_mult. reflexivity. }
  rewrite Hk in Hy.
  assert (E3 : ((20 * inject_Z k + 1) / 20 == inject_Z k + (1 # 20))%Q)
    by field.
  rewrite E3 in Hy.
  assert (Hd : (d <= 10 * k)%Z).
  { assert (G : (d < 10 * k + 1)%Z); [|lia].
    rewrite Zlt_Qlt, inject_Z_plus, inject_Z_mult.
    change (inject_Z 10) with 10%Q. change (inject_Z 1) with 1%Q. lra. }
  destruct (Z.eq_dec d (10 * k)) as [D|D].
  - rewrite Ep, D. exact Hten.
  - assert (Hd' : (d <= 10 * k - 1)%Z) by lia.
    rewrite Zle_Qle in Hd'.
    unfold Zminus in Hd'. rewrite inject_Z_plus, inject_Z_mult in Hd'.
    change (inject_Z 10) with 10%Q in Hd'.
    change (inject_Z (- (1))) with (- (1))%Q in Hd'.
    assert (E4 : (inject_Z d / 10 == (1 # 10) * inject_Z d)%Q) by field.
    rewrite E4 in A3. lra.
Qed.

(** X22. The interpretation of the distribution as the floats give
    it, for every batch of fewer than 2^32 posts, by the shares of its
    negative and positive posts: more than 60.05 % of the posts negative
    is critical, between 40.05 % and 60.05 % negative
    is warning, and with less than 40.05 % negative, more than 60.05 %
    positive is positive, between 40.05 % and 60.05 % positive is
    healthy, and less than 40.05 % positive is mixed. *)
Theorem interpretation_bands_binary64 (p : AnalyzedPost)
    (posts : list AnalyzedPost) :
  (Z.of_nat (length (p :: posts)) < 2 ^ 32)%Z ->
  (let batch := p :: posts in
   let n := Z.of_nat (length batch) in
   let neg := Z.of_nat (count_label negative batch) in
   let pos := Z.of_nat (count_label positive batch) in
   let text :=
     generate_interpretation
       (calculate_sentiment_distribution_binary64 batch) in
   (1201 * n < 2000 * neg -> text = CRITICAL)
   /\ (801 * n < 2000 * neg -> 2000 * neg < 1201 * n -> text = WARNING)
   /\ (2000 * neg < 801 * n -> 1201 * n < 2000 * pos -> text = POSITIVE)
   /\ (2000 * neg < 801 * n -> 801 * n < 2000 * pos ->
       2000 * pos < 1201 * n -> text = HEALTHY)
   /\ (2000 * neg < 801 * n -> 2000 * pos < 801 * n -> text = MIXED))%Z.
Proof.
  intros Hb batch n neg pos text.
  assert (Hn : (0 < n < 2 ^ 32)%Z).
  { unfold n, batch. split; [simpl length; lia|exact Hb]. }
  pose proof (count_labels batch) as Hsum.
  assert (Hneg : (0 <= neg <= n)%Z) by (unfold neg, n; lia).
  assert (Hpos : (0 <= pos <= n)%Z) by (unfold pos, n; lia).
  assert (E : text
              = let pct := fun c =>
                  Py.float_round1 (Py.float_mul (Py.truediv c n) 100) in
                if Py.Qltb 60 (pct neg) then CRITICAL
                else if Py.Qltb 40 (pct neg) then WARNING
                else if Py.Qltb 60 (pct pos) then POSITIVE
                else if Py.Qltb 40 (pct pos) then HEALTHY
                else MIXED) by reflexivity.
  cbv zeta in E. rewrite E. clear E.
  change 60%Q with (inject_Z 60). change 40%Q with (inject_Z 40).
  assert (T60 : (Py.round64 (inject_Z (10 * 60) / 10) <= inject_Z 60)%Q)
    by (vm_compute; discriminate).
  assert (T40 : (Py.round64 (inject_Z (10 * 40) / 10) <= inject_Z 40)%Q)
    by (vm_compute; discriminate).
  clearbody n neg pos.
  repeat split; intros;
    repeat first
      [ rewrite (float_share_above 60) by (assumption || lia)
      | rewrite (float_share_above 40) by (assumption || lia)
      | rewrite (float_share_below 60) by (assumption || lia)
      | rewrite (float_share_below 40) by (assumption || lia) ];
    reflexivity.
Qed.

(** Two negative posts and a positive one. *)
Lemma interpretation_bands_binary64_witness :
  let post := fun l : Label =>
    {| post_id := []; title := u "Battery drains overnight"; body := [];
       post_comments := []; post_score := 1%Z; post_num_comments := 0%Z;
       sentiment := {| label := l; sent_score := 0%R; raw_score := 0%R |};
       impact_score := 1%Z |} in
  generate_interpretation
    (calculate_sentiment_distribution_binary64
       [post negative; post negative; post positive])
  = CRITICAL.
Proof.
  intros post.
  apply (interpretation_bands_binary64 (post negative)
           [post negative; post positive]).
  - vm_compute. reflexivity.
  - vm_compute. reflexivity.
Defined.
